(** * Airport ride pooling: pricing, route insertion and pool mutation

    A shallow embedding of the ride-pooling backend
    ([utils/distanceCalculator.js], [services/pricingEngine.js],
    [services/matchingEngine.js], [models/RidePool.js], [config/config.js])
    together with the properties its specification states about it.

    Conventions of the embedding.
    - A JavaScript number is a value of [JSNumber.t]: a finite number, an
      infinity or NaN.  Finite numbers are exact rationals: the rounding of
      IEEE-754 doubles and the sign of zero are not represented.
    - Passenger, luggage and capacity counts are integers ([Z]); the route
      validators of [server.js] accept integers only.
    - A Mongo collection is a finite map from document id to document, the
      Redis keyspace a finite map from key to value.
    - Mongoose documents are plain records; schema validation at [save] is
      not represented (it can only turn a successful run into a failed one). *)

From Stdlib Require Import ZArith QArith Qround Qminmax Qabs Lia Lqa Bool.
From Stdlib Require Import Sorting.Sorted.
From stdpp Require Import gmap strings list sorting.

Local Open Scope Q_scope.

(** ** JavaScript numbers *)

Module JSNumber.

Inductive t : Type :=
| Fin (q : Q)
| PInf
| NInf
| NaN.

(** Numeric equality of the represented values ([NaN] is related to itself:
    this is equality of results, not the JavaScript operator [===]). *)
Definition eqv (a b : t) : Prop :=
  match a, b with
  | Fin x, Fin y => x == y
  | PInf, PInf | NInf, NInf | NaN, NaN => True
  | _, _ => False
  end.

Definition isFinite (a : t) : bool :=
  match a with Fin _ => true | _ => false end.

Definition Qltb (x y : Q) : bool :=
  match x ?= y with Lt => true | _ => false end.

Definition Qleb (x y : Q) : bool :=
  match x ?= y with Gt => false | _ => true end.

(** [a < b] *)
Definition lt (a b : t) : bool :=
  match a, b with
  | NaN, _ | _, NaN => false
  | Fin x, Fin y => Qltb x y
  | Fin _, PInf => true
  | NInf, Fin _ => true
  | NInf, PInf => true
  | _, _ => false
  end.

(** [a > b] *)
Definition gt (a b : t) : bool := lt b a.

(** [a <= b] *)
Definition le (a b : t) : bool :=
  match a, b with
  | NaN, _ | _, NaN => false
  | Fin x, Fin y => Qleb x y
  | PInf, PInf | NInf, NInf => true
  | _, _ => lt a b
  end.

Definition neg (a : t) : t :=
  match a with
  | Fin x => Fin (- x)
  | PInf => NInf
  | NInf => PInf
  | NaN => NaN
  end.

(** [a + b] *)
Definition add (a b : t) : t :=
  match a, b with
  | NaN, _ | _, NaN => NaN
  | Fin x, Fin y => Fin (x + y)
  | PInf, NInf | NInf, PInf => NaN
  | PInf, _ | _, PInf => PInf
  | NInf, _ | _, NInf => NInf
  end.

(** [a - b] *)
Definition sub (a b : t) : t := add a (neg b).

(** An infinity of the sign of [x] times the sign of the infinity; zero
    times infinity is NaN. *)
Definition scale_inf (positive : bool) (x : Q) : t :=
  match x ?= 0 with
  | Eq => NaN
  | Gt => if positive then PInf else NInf
  | Lt => if positive then NInf else PInf
  end.

(** [a * b] *)
Definition mul (a b : t) : t :=
  match a, b with
  | NaN, _ | _, NaN => NaN
  | Fin x, Fin y => Fin (x * y)
  | Fin x, PInf | PInf, Fin x => scale_inf true x
  | Fin x, NInf | NInf, Fin x => scale_inf false x
  | PInf, PInf | NInf, NInf => PInf
  | PInf, NInf | NInf, PInf => NInf
  end.

(** [a / b]; a finite non-zero number over zero is an infinity, zero over
    zero is NaN. *)
Definition div (a b : t) : t :=
  match a, b with
  | NaN, _ | _, NaN => NaN
  | Fin x, Fin y =>
      match y ?= 0 with
      | Eq => scale_inf true x
      | _ => Fin (x / y)
      end
  | Fin _, _ => Fin 0
  | PInf, Fin y => if Qltb y 0 then NInf else PInf
  | NInf, Fin y => if Qltb y 0 then PInf else NInf
  | _, _ => NaN
  end.

(** [Math.max(a, b)] *)
Definition max (a b : t) : t :=
  match a, b with
  | NaN, _ | _, NaN => NaN
  | Fin x, Fin y => Fin (Qmax x y)
  | PInf, _ | _, PInf => PInf
  | NInf, c | c, NInf => c
  end.

(** [Math.min(a, b)] *)
Definition min (a b : t) : t :=
  match a, b with
  | NaN, _ | _, NaN => NaN
  | Fin x, Fin y => Fin (Qmin x y)
  | NInf, _ | _, NInf => NInf
  | PInf, c | c, PInf => c
  end.

(** [Math.round(a)]: the nearest integer, halves towards +Infinity. *)
Definition round (a : t) : t :=
  match a with
  | Fin x => Fin (inject_Z (Qfloor (x + (1 # 2))))
  | _ => a
  end.

(** [Math.ceil(a)] *)
Definition ceil (a : t) : t :=
  match a with
  | Fin x => Fin (inject_Z (Qceiling x))
  | _ => a
  end.

(** Truthiness of a number: [0] and [NaN] are falsy. *)
Definition truthy (a : t) : bool :=
  match a with
  | Fin x => negb (Qeq_bool x 0)
  | NaN => false
  | _ => true
  end.

(** [a || b] on numbers *)
Definition or_else (a b : t) : t := if truthy a then a else b.

Definition ofZ (z : Z) : t := Fin (inject_Z z).

End JSNumber.

Abbreviation JSNum := JSNumber.t.
Abbreviation Fin := JSNumber.Fin.
Infix "=js=" := JSNumber.eqv (at level 70, no associativity).

(** ** [config/config.js] *)

Module Config.

(** The settings the modelled code reads. *)
Record t : Type := {
  MAX_POOL_SIZE : Z;
  MAX_LUGGAGE_PER_CAB : Z;
  MATCHING_RADIUS_KM : Q;
  BASE_RATE_PER_KM : Q;
  BASE_RATE_PER_MIN : Q;
  MINIMUM_FARE : Q;
  AIRPORT_FEE : Q;
  LOCK_TIMEOUT_MS : Z
}.

(** [parseInt(process.env.X) || d]: an unset variable parses to NaN and a
    variable set to [0] is falsy, so both give the default. *)
Definition intSetting (env : option Z) (d : Z) : Z :=
  match env with
  | Some 0%Z | None => d
  | Some n => n
  end.

(** [parseFloat(process.env.X) || d] *)
Definition floatSetting (env : option Q) (d : Q) : Q :=
  match env with
  | Some x => if Qeq_bool x 0 then d else x
  | None => d
  end.

(** The part of [process.env] the settings come from. *)
Record Env : Type := {
  env_MAX_POOL_SIZE : option Z;
  env_MAX_LUGGAGE_PER_CAB : option Z;
  env_MATCHING_RADIUS_KM : option Q;
  env_BASE_RATE_PER_KM : option Q;
  env_BASE_RATE_PER_MIN : option Q;
  env_MINIMUM_FARE : option Q;
  env_AIRPORT_FEE : option Q;
  env_LOCK_TIMEOUT_MS : option Z
}.

Definition load (e : Env) : t := {|
  MAX_POOL_SIZE := intSetting (env_MAX_POOL_SIZE e) 4;
  MAX_LUGGAGE_PER_CAB := intSetting (env_MAX_LUGGAGE_PER_CAB e) 6;
  MATCHING_RADIUS_KM := floatSetting (env_MATCHING_RADIUS_KM e) 5;
  BASE_RATE_PER_KM := floatSetting (env_BASE_RATE_PER_KM e) 2.0;
  BASE_RATE_PER_MIN := floatSetting (env_BASE_RATE_PER_MIN e) 0.5;
  MINIMUM_FARE := floatSetting (env_MINIMUM_FARE e) 5.0;
  AIRPORT_FEE := floatSetting (env_AIRPORT_FEE e) 3.0;
  LOCK_TIMEOUT_MS := intSetting (env_LOCK_TIMEOUT_MS e) 5000
|}.

Definition emptyEnv : Env :=
  Build_Env None None None None None None None None.

(** The configuration of a process started with none of the variables set. *)
Definition default : t := load emptyEnv.

End Config.

(** ** [utils/distanceCalculator.js] *)

(** Mongo ObjectIds, compared in the source through [toString()]: the model
    keeps the string. *)
Definition ObjectId : Type := string.

(** A GeoJSON point, [coordinates: [lng, lat]]. *)
Record Point : Type := { lng : Q; lat : Q }.

(** The one function used from the geolib package: the distance between two
    positions in metres, a non-negative whole number. *)
Class Geolib : Type := {
  getDistance : Point -> Point -> Z;
  getDistance_nonneg : forall a b, (0 <= getDistance a b)%Z
}.

Inductive StopType : Type := pickup | dropoff.

(** A stop object.  The stops built by [calculateDetour] carry neither an
    address nor a passenger id. *)
Record Stop : Type := {
  type : StopType;
  location : Point;
  address : option string;
  passengerId : option ObjectId;
  sequence : Z
}.

Definition setSequence (s : Stop) (idx : Z) : Stop :=
  {| type := type s; location := location s; address := address s;
     passengerId := passengerId s; sequence := idx |}.

Module DistanceCalculator.
Section WithGeolib.
Context `{Geolib}.

(** [distanceInMeters / 1000] *)
Definition calculateDistance (point1 point2 : Point) : Q :=
  inject_Z (getDistance point1 point2) / 1000.

(** The loop of [calculateRouteDistance], entered with the running total:
    one leg per pair of consecutive stops, added from the left. *)
Fixpoint routeLegs (totalDistance : Q) (stops : list Stop) : Q :=
  match stops with
  | a :: rest =>
      match rest with
      | b :: _ =>
          routeLegs (totalDistance + calculateDistance (location a) (location b)) rest
      | [] => totalDistance
      end
  | [] => totalDistance
  end.

Definition calculateRouteDistance (stops : list Stop) : Q := routeLegs 0 stops.

(** [Math.ceil(distanceKm / 40 * 60)] *)
Definition estimateDuration (distanceKm : JSNum) : JSNum :=
  let avgSpeedKmh := Fin 40 in
  let durationHours := JSNumber.div distanceKm avgSpeedKmh in
  JSNumber.ceil (JSNumber.mul durationHours (Fin 60)).

Definition isWithinRadius (point1 point2 : Point) (radiusKm : Q) : bool :=
  JSNumber.Qleb (calculateDistance point1 point2) radiusKm.

(** *** [calculateDetour]

    [[...originalRoute]] copies the array, not the stop objects, and the
    [forEach] of every iteration writes [sequence] into the objects of the
    candidate: the objects of [originalRoute] are shared by all candidates
    and by the caller.  The model keeps the one field that is written in a
    store indexed by the position of the object in [originalRoute]. *)

Inductive StopRef : Type :=
| Orig (i : nat) (s : Stop)    (* the [i]-th object of [originalRoute] *)
| Fresh (s : Stop).            (* an object literal of this iteration *)

(** The object behind a reference, read in a given store. *)
Definition deref (store : list Z) (r : StopRef) : Stop :=
  match r with
  | Orig i s => setSequence s (default (sequence s) (store !! i))
  | Fresh s => s
  end.

(** [Array.prototype.splice(pos, 0, x)] *)
Definition splice {A : Type} (pos : nat) (x : A) (l : list A) : list A :=
  take pos l ++ x :: drop pos l.

(** [newRoute.forEach((stop, idx) => { stop.sequence = idx; })] from index
    [idx] on. *)
Fixpoint assignSequences (idx : nat) (route : list StopRef) (store : list Z)
  : list StopRef * list Z :=
  match route with
  | [] => ([], store)
  | Orig i s :: rest =>
      let '(rest', store') :=
        assignSequences (S idx) rest (<[i := Z.of_nat idx]> store) in
      (Orig i s :: rest', store')
  | Fresh s :: rest =>
      let '(rest', store') := assignSequences (S idx) rest store in
      (Fresh (setSequence s (Z.of_nat idx)) :: rest', store')
  end.

Definition newStop (t : StopType) (loc : Point) (seq : nat) : Stop :=
  {| type := t; location := loc; address := None; passengerId := None;
     sequence := Z.of_nat seq |}.

Record DetourResult : Type := {
  detourPercentage : JSNum;
  bestRoute : option (list Stop);      (* [None] is [null] *)
  newDistance : Q
}.

(** The variables of the search loop, with the store of the shared
    objects. *)
Record Search : Type := {
  store : list Z;
  minDetour : JSNum;
  best : option (list StopRef);
  bestDistance : Q
}.

(** The candidate of one iteration, before its sequence numbers are
    rewritten: the dropoff is spliced in first, then the pickup. *)
Definition candidate (originalRoute : list Stop) (newPickup newDropoff : Point)
    (pickupPos dropoffPos : nat) : list StopRef :=
  let newRoute := imap Orig originalRoute in
  let newRoute := splice dropoffPos (Fresh (newStop dropoff newDropoff dropoffPos)) newRoute in
  splice pickupPos (Fresh (newStop pickup newPickup pickupPos)) newRoute.

(** The body of the inner loop. *)
Definition tryInsertion (originalRoute : list Stop) (newPickup newDropoff : Point)
    (originalDistance : Q) (pickupPos dropoffPos : nat) (st : Search) : Search :=
  let '(newRoute, store') :=
    assignSequences 0 (candidate originalRoute newPickup newDropoff pickupPos dropoffPos)
      (store st) in
  let newDistance := calculateRouteDistance (deref store' <$> newRoute) in
  let detour :=
    JSNumber.div (JSNumber.sub (Fin newDistance) (Fin originalDistance))
      (Fin originalDistance) in
  if JSNumber.lt detour (minDetour st)
  then {| store := store'; minDetour := detour; best := Some newRoute;
          bestDistance := newDistance |}
  else {| store := store'; minDetour := minDetour st; best := best st;
          bestDistance := bestDistance st |}.

(** The two nested loops: [pickupPos] from [0] to [length], [dropoffPos]
    from [pickupPos] to [length]. *)
Definition searchInsertions (originalRoute : list Stop) (newPickup newDropoff : Point)
    (originalDistance : Q) (init : Search) : Search :=
  let n := length originalRoute in
  fold_left
    (fun st pickupPos =>
       fold_left
         (fun st dropoffPos =>
            tryInsertion originalRoute newPickup newDropoff originalDistance
              pickupPos dropoffPos st)
         (seq pickupPos (S n - pickupPos)) st)
    (seq 0 (S n)) init.

(** [calculateDetour(originalRoute, newPickup, newDropoff)]: the returned
    object, and the objects of [originalRoute] as the call leaves them. *)
Definition calculateDetour (originalRoute : list Stop) (newPickup newDropoff : Point)
  : DetourResult * list Stop :=
  match originalRoute with
  | [] =>
      ({| detourPercentage := Fin 0;
          bestRoute := Some [newStop pickup newPickup 0; newStop dropoff newDropoff 1];
          newDistance := calculateDistance newPickup newDropoff |},
       [])
  | _ :: _ =>
      let originalDistance := calculateRouteDistance originalRoute in
      let final :=
        searchInsertions originalRoute newPickup newDropoff originalDistance
          {| store := sequence <$> originalRoute; minDetour := JSNumber.PInf;
             best := None; bestDistance := 0 |} in
      ({| detourPercentage := minDetour final;
          bestRoute := fmap (M := list) (deref (store final)) <$> best final;
          newDistance := bestDistance final |},
       deref (store final) <$> imap Orig originalRoute)
  end.

End WithGeolib.
End DistanceCalculator.

(** ** [models/RideRequest.js] *)

Definition Date : Type := Z.

Module RideRequest.

Inductive Status : Type := pending | matched | expired | cancelled.

Record t : Type := {
  _id : ObjectId;
  userId : ObjectId;
  pickupLocation : Point;
  pickupAddress : string;
  dropoffLocation : Point;
  dropoffAddress : string;
  passengers : Z;
  luggage : Z;
  detourTolerance : Q;
  status : Status;
  matchedPoolId : option ObjectId
}.

(** The bounds of the schema ([min]/[max] of [passengers], [luggage] and
    [detourTolerance]), checked when the request document is saved. *)
Definition valid (r : t) : Prop :=
  (1 <= passengers r <= 4)%Z /\ (0 <= luggage r <= 6)%Z /\
  0 <= detourTolerance r <= 1.

(** The update document of [findByIdAndUpdate]: [status], and
    [matchedPoolId] when given. *)
Definition update (s : Status) (pool : option ObjectId) (r : t) : t :=
  {| _id := _id r; userId := userId r;
     pickupLocation := pickupLocation r; pickupAddress := pickupAddress r;
     dropoffLocation := dropoffLocation r; dropoffAddress := dropoffAddress r;
     passengers := passengers r; luggage := luggage r;
     detourTolerance := detourTolerance r;
     status := s;
     matchedPoolId := match pool with Some p => Some p | None => matchedPoolId r end |}.

End RideRequest.

(** ** [models/RidePool.js] *)

Module Passenger.

Inductive Status : Type := waiting | picked_up | dropped_off | cancelled.

Record t : Type := {
  userId : ObjectId;
  requestId : ObjectId;
  pickupLocation : Point;
  pickupAddress : string;
  dropoffLocation : Point;
  dropoffAddress : string;
  price : JSNum;
  passengerCount : Z;
  luggageCount : Z;
  status : Status
}.

End Passenger.

Module RidePool.

Inductive Status : Type := forming | matched | active | completed | cancelled.

Inductive VehicleType : Type := sedan | suv | van.

Record Route : Type := {
  stops : list Stop;
  totalDistance : JSNum;
  totalDuration : JSNum;
  optimizedAt : option Date
}.

Record Vehicle : Type := {
  vtype : VehicleType;             (* [vehicle.type] *)
  capacity : Z;
  luggageCapacity : Z
}.

Record Occupancy : Type := { seats : Z; luggage : Z }.

Record Pricing : Type := {
  basePrice : JSNum;
  surgeFactor : JSNum;
  totalPrice : JSNum;
  poolingDiscount : JSNum
}.

Record t : Type := {
  _id : ObjectId;
  status : Status;
  passengers : list Passenger.t;
  route : Route;
  vehicle : Vehicle;
  currentOccupancy : Occupancy;
  pricing : Pricing;
  __v : Z;                          (* the version key bumped by [increment()] *)
  matchedAt : option Date;
  cancelledAt : option Date;
  cancelReason : option string
}.

Definition set_status (s : Status) (p : t) : t :=
  {| _id := _id p; status := s; passengers := passengers p; route := route p;
     vehicle := vehicle p; currentOccupancy := currentOccupancy p;
     pricing := pricing p; __v := __v p; matchedAt := matchedAt p;
     cancelledAt := cancelledAt p; cancelReason := cancelReason p |}.

Definition set_passengers (ps : list Passenger.t) (p : t) : t :=
  {| _id := _id p; status := status p; passengers := ps; route := route p;
     vehicle := vehicle p; currentOccupancy := currentOccupancy p;
     pricing := pricing p; __v := __v p; matchedAt := matchedAt p;
     cancelledAt := cancelledAt p; cancelReason := cancelReason p |}.

Definition set_route (r : Route) (p : t) : t :=
  {| _id := _id p; status := status p; passengers := passengers p; route := r;
     vehicle := vehicle p; currentOccupancy := currentOccupancy p;
     pricing := pricing p; __v := __v p; matchedAt := matchedAt p;
     cancelledAt := cancelledAt p; cancelReason := cancelReason p |}.

Definition set_currentOccupancy (o : Occupancy) (p : t) : t :=
  {| _id := _id p; status := status p; passengers := passengers p; route := route p;
     vehicle := vehicle p; currentOccupancy := o;
     pricing := pricing p; __v := __v p; matchedAt := matchedAt p;
     cancelledAt := cancelledAt p; cancelReason := cancelReason p |}.

Definition set___v (v : Z) (p : t) : t :=
  {| _id := _id p; status := status p; passengers := passengers p; route := route p;
     vehicle := vehicle p; currentOccupancy := currentOccupancy p;
     pricing := pricing p; __v := v; matchedAt := matchedAt p;
     cancelledAt := cancelledAt p; cancelReason := cancelReason p |}.

Definition set_matchedAt (d : Date) (p : t) : t :=
  {| _id := _id p; status := status p; passengers := passengers p; route := route p;
     vehicle := vehicle p; currentOccupancy := currentOccupancy p;
     pricing := pricing p; __v := __v p; matchedAt := Some d;
     cancelledAt := cancelledAt p; cancelReason := cancelReason p |}.

Definition set_cancelled (d : Date) (reason : string) (p : t) : t :=
  {| _id := _id p; status := cancelled; passengers := passengers p; route := route p;
     vehicle := vehicle p; currentOccupancy := currentOccupancy p;
     pricing := pricing p; __v := __v p; matchedAt := matchedAt p;
     cancelledAt := Some d; cancelReason := Some reason |}.

(** [canAccommodate(passengers, luggage)] *)
Definition canAccommodate (this : t) (passengers luggage : Z) : bool :=
  (seats (currentOccupancy this) + passengers <=? capacity (vehicle this))%Z &&
  (RidePool.luggage (currentOccupancy this) + luggage <=? luggageCapacity (vehicle this))%Z.

(** [addPassenger(passengerData)] *)
Definition addPassenger (this : t) (passengerData : Passenger.t) : t :=
  let this := set_passengers (RidePool.passengers this ++ [passengerData]) this in
  set_currentOccupancy
    {| seats := (seats (currentOccupancy this) + Passenger.passengerCount passengerData)%Z;
       luggage := (RidePool.luggage (currentOccupancy this)
                   + Passenger.luggageCount passengerData)%Z |}
    this.

(** [removePassenger(userId)]: the pool after the call and the value
    returned.  The counts subtracted are those of the first entry of the
    user; the filter drops every entry of the user. *)
Definition removePassenger (this : t) (userId : ObjectId) : t * bool :=
  match List.find (fun p => String.eqb (Passenger.userId p) userId) (RidePool.passengers this) with
  | Some passenger =>
      let this :=
        set_currentOccupancy
          {| seats := (seats (currentOccupancy this) - Passenger.passengerCount passenger)%Z;
             luggage := (RidePool.luggage (currentOccupancy this)
                         - Passenger.luggageCount passenger)%Z |}
          this in
      let this :=
        set_passengers
          (List.filter (fun p => negb (String.eqb (Passenger.userId p) userId))
             (RidePool.passengers this))
          this in
      (this, true)
  | None => (this, false)
  end.

(** [isFull()] *)
Definition isFull (this : t) : bool :=
  (capacity (vehicle this) <=? seats (currentOccupancy this))%Z.

(** The pre-save hook: a document that is not new has its version key
    incremented. *)
Definition preSave (isNew : bool) (this : t) : t :=
  if isNew then this else set___v (__v this + 1)%Z this.

(** The virtual [availableSeats] *)
Definition availableSeats (this : t) : Z :=
  (capacity (vehicle this) - seats (currentOccupancy this))%Z.

(** The virtual [availableLuggage] *)
Definition availableLuggage (this : t) : Z :=
  (luggageCapacity (vehicle this) - RidePool.luggage (currentOccupancy this))%Z.

(** [isActive()] *)
Definition isActive (this : t) : bool :=
  match status this with
  | forming | matched | active => true
  | _ => false
  end.

End RidePool.

(** ** [services/pricingEngine.js] *)

Module PricingEngine.
Section WithGeolib.
Context `{Geolib}.

Import JSNumber.

(** [calculateBasePrice(distanceKm, durationMin)] *)
Definition calculateBasePrice (config : Config.t) (distanceKm durationMin : JSNum) : JSNum :=
  let distancePrice := mul distanceKm (Fin (Config.BASE_RATE_PER_KM config)) in
  let timePrice := mul durationMin (Fin (Config.BASE_RATE_PER_MIN config)) in
  let basePrice := add (add distancePrice timePrice) (Fin (Config.AIRPORT_FEE config)) in
  max basePrice (Fin (Config.MINIMUM_FARE config)).

(** [calculateDemandMultiplier(activeRequests, availableCabs)] *)
Definition calculateDemandMultiplier (activeRequests availableCabs : JSNum) : JSNum :=
  let ratio := div activeRequests (max availableCabs (Fin 1)) in
  if lt ratio (Fin 0.5) then Fin 1.0
  else if lt ratio (Fin 1.0) then Fin 1.2
  else if lt ratio (Fin 1.5) then Fin 1.5
  else if lt ratio (Fin 2.0) then Fin 2.0
  else Fin 2.5.

(** [getTimeMultiplier(date)], from [hour = date.getHours()] *)
Definition getTimeMultiplier (hour : Z) : JSNum :=
  if ((6 <=? hour) && (hour <? 9))%Z then Fin 1.3
  else if ((17 <=? hour) && (hour <? 20))%Z then Fin 1.4
  else if ((0 <=? hour) && (hour <? 6))%Z then Fin 1.2
  else Fin 1.0.

(** [calculatePoolingDiscount(passengersCount, detourPercentage)] *)
Definition calculatePoolingDiscount (passengersCount detourPercentage : JSNum) : JSNum :=
  let baseDiscount := min (mul (sub passengersCount (Fin 1)) (Fin 0.15)) (Fin 0.45) in
  let detourPenalty := mul detourPercentage (Fin 0.3) in
  max (sub baseDiscount detourPenalty) (Fin 0.10).

(** [getDistanceDiscount(distanceKm)], the tests in the order of the
    source. *)
Definition getDistanceDiscount (distanceKm : JSNum) : JSNum :=
  if gt distanceKm (Fin 20) then Fin 0.90
  else if gt distanceKm (Fin 50) then Fin 0.85
  else Fin 1.0.

(** [Math.round(x * 100) / 100] *)
Definition roundCents (x : JSNum) : JSNum :=
  div (round (mul x (Fin 100))) (Fin 100).

(** [demandData]: [{ activeRequests, availableCabs }] *)
Record DemandData : Type := { activeRequests : JSNum; availableCabs : JSNum }.

(** [calculatePassengerPrice(rideRequest, pool, detourPercentage, demandData)];
    [demandData = None] is the default [null], [hour] is the hour of the
    clock read by [getTimeMultiplier()]. *)
Definition calculatePassengerPrice (config : Config.t) (hour : Z)
    (rideRequest : RideRequest.t) (pool : RidePool.t) (detourPercentage : JSNum)
    (demandData : option DemandData) : JSNum :=
  let directDistance :=
    Fin (DistanceCalculator.calculateDistance
           (RideRequest.pickupLocation rideRequest)
           (RideRequest.dropoffLocation rideRequest)) in
  let directDuration := DistanceCalculator.estimateDuration directDistance in
  let price := calculateBasePrice config directDistance directDuration in
  let price :=
    match demandData with
    | Some dd =>
        let demandMultiplier :=
          calculateDemandMultiplier (activeRequests dd) (availableCabs dd) in
        mul price demandMultiplier
    | None => mul price (or_else (RidePool.surgeFactor (RidePool.pricing pool)) (Fin 1.0))
    end in
  let timeMultiplier := getTimeMultiplier hour in
  let price := mul price timeMultiplier in
  let currentPassengers :=
    ofZ (Z.of_nat (length (RidePool.passengers pool)) + 1) in
  let poolingDiscount := calculatePoolingDiscount currentPassengers detourPercentage in
  let price := mul price (sub (Fin 1) poolingDiscount) in
  let distanceDiscount := getDistanceDiscount directDistance in
  let price := mul price distanceDiscount in
  roundCents price.

(** An element of the [passengers] argument of [ensureFairPricing]. *)
Record PassengerPriceData : Type := {
  passengerId : ObjectId;
  individualPrice : JSNum
}.

(** An element of its result. *)
Record PassengerPrice : Type := {
  pp_passengerId : ObjectId;         (* [passengerId] *)
  price : JSNum
}.

(** [ensureFairPricing(passengers, totalPoolPrice)] *)
Definition ensureFairPricing (passengers : list PassengerPriceData)
    (totalPoolPrice : JSNum) : list PassengerPrice :=
  let individualPrices := individualPrice <$> passengers in
  let totalIndividualPrice := fold_left add individualPrices (Fin 0) in
  let adjustedTotal :=
    if gt totalPoolPrice totalIndividualPrice
    then mul totalIndividualPrice (Fin 0.85)
    else totalPoolPrice in
  imap
    (fun i p =>
       {| pp_passengerId := passengerId p;
          price :=
            roundCents
              (mul (div (default NaN (individualPrices !! i)) totalIndividualPrice)
                 adjustedTotal) |})
    passengers.

(** The argument of [calculateDynamicPrice]; a field left out ([None]) takes
    the default of the destructuring pattern. *)
Record Factors : Type := {
  f_basePrice : JSNum;                     (* [basePrice] *)
  f_demandMultiplier : option JSNum;       (* [demandMultiplier = 1.0] *)
  f_timeMultiplier : option JSNum;         (* [timeMultiplier = 1.0] *)
  f_poolingDiscount : option JSNum;        (* [poolingDiscount = 0] *)
  f_distanceDiscount : option JSNum;       (* [distanceDiscount = 1.0] *)
  f_loyaltyDiscount : option JSNum;        (* [loyaltyDiscount = 1.0] *)
  f_additionalFees : option JSNum          (* [additionalFees = 0] *)
}.

(** [calculateDynamicPrice(factors)] *)
Definition calculateDynamicPrice (factors : Factors) : JSNum :=
  let basePrice := f_basePrice factors in
  let demandMultiplier := default (Fin 1.0) (f_demandMultiplier factors) in
  let timeMultiplier := default (Fin 1.0) (f_timeMultiplier factors) in
  let poolingDiscount := default (Fin 0) (f_poolingDiscount factors) in
  let distanceDiscount := default (Fin 1.0) (f_distanceDiscount factors) in
  let loyaltyDiscount := default (Fin 1.0) (f_loyaltyDiscount factors) in
  let additionalFees := default (Fin 0) (f_additionalFees factors) in
  let finalPrice := basePrice in
  let finalPrice := mul finalPrice demandMultiplier in
  let finalPrice := mul finalPrice timeMultiplier in
  let finalPrice := mul finalPrice (sub (Fin 1) poolingDiscount) in
  let finalPrice := mul finalPrice distanceDiscount in
  let finalPrice := mul finalPrice loyaltyDiscount in
  let finalPrice := add finalPrice additionalFees in
  roundCents finalPrice.

End WithGeolib.
End PricingEngine.

(** ** The stores the matching engine works on *)

Module Redis.

(** The two commands the engine sends. *)
Inductive Command : Type :=
| SET_PX_NX (key value : string) (ttl : Z)
| EVAL_compare_and_delete (key value : string).

(** The keys that hold an unexpired value, and the commands received so
    far (latest first).  Expiry happens between operations: a key whose
    time to live has run out is simply absent. *)
Record t : Type := {
  keys : gmap string string;
  received : list Command
}.

(** [SET key value PX ttl NX]: the reply is [Some "OK"] when the key was
    set and [None] (null) when it already holds a value. *)
Definition set_px_nx (key value : string) (ttl : Z) (r : t) : option string * t :=
  let received' := SET_PX_NX key value ttl :: received r in
  match keys r !! key with
  | Some _ => (None, {| keys := keys r; received := received' |})
  | None => (Some "OK"%string, {| keys := <[key := value]> (keys r); received := received' |})
  end.

(** The release script: delete the key if it holds [value]. *)
Definition eval_compare_and_delete (key value : string) (r : t) : Z * t :=
  let received' := EVAL_compare_and_delete key value :: received r in
  match keys r !! key with
  | Some v =>
      if String.eqb v value
      then (1%Z, {| keys := delete key (keys r); received := received' |})
      else (0%Z, {| keys := keys r; received := received' |})
  | None => (0%Z, {| keys := keys r; received := received' |})
  end.

Definition is_set (c : Command) : bool :=
  match c with SET_PX_NX _ _ _ => true | _ => false end.

(** How many times the lock of [key] was requested. *)
Definition acquisitions (key : string) (r : t) : nat :=
  length (List.filter
            (fun c => match c with
                      | SET_PX_NX k _ _ => String.eqb k key
                      | _ => false
                      end)
            (received r)).

End Redis.

(** The state outside the process: both Mongo collections and Redis. *)
Record World : Type := {
  pools : gmap ObjectId RidePool.t;
  requests : gmap ObjectId RideRequest.t;
  redis : Redis.t
}.

(** What a call reads from its surroundings: the configuration, the value
    of [uuidv4()], the clock ([new Date()] and its hour) and the id Mongoose
    gives a new pool document. *)
Record Env : Type := {
  config : Config.t;
  uuid : string;
  now : Date;
  hour : Z;
  newPoolId : ObjectId
}.

(** A call either returns or throws an [Error] with a message. *)
Inductive Outcome (A : Type) : Type :=
| Return (a : A)
| Throw (message : string).
Arguments Return {A} a.
Arguments Throw {A} message.

Definition M (A : Type) : Type := World -> Outcome A * World.

Definition ret {A : Type} (a : A) : M A := fun w => (Return a, w).

Definition throw {A : Type} (message : string) : M A := fun w => (Throw message, w).

Definition bind {A B : Type} (m : M A) (k : A -> M B) : M B :=
  fun w =>
    match m w with
    | (Return a, w') => k a w'
    | (Throw e, w') => (Throw e, w')
    end.

(** [try { body } finally { cleanup }] *)
Definition try_finally {A : Type} (body : M A) (cleanup : M unit) : M A :=
  fun w =>
    let '(r, w') := body w in
    match cleanup w' with
    | (Return _, w'') => (r, w'')
    | (Throw e, w'') => (Throw e, w'')
    end.

(** [try { body } catch (error) { handler(error.message) }] *)
Definition try_catch {A : Type} (body : M A) (handler : string -> M A) : M A :=
  fun w =>
    match body w with
    | (Return a, w') => (Return a, w')
    | (Throw e, w') => handler e w'
    end.

Notation "'let*' x ':=' m 'in' k" := (bind m (fun x => k))
  (at level 10, x pattern, m at level 100, k at level 200).

Definition get_world : M World := fun w => (Return w, w).

(** [RidePool.findById(id)] *)
Definition RidePool_findById (id : ObjectId) : M (option RidePool.t) :=
  fun w => (Return (pools w !! id), w).

(** [pool.save()]: the pre-save hook, then the write.  Inserting a new
    document under an id already in the collection is a duplicate-key
    error. *)
Definition RidePool_save (isNew : bool) (pool : RidePool.t) : M RidePool.t :=
  fun w =>
    let pool := RidePool.preSave isNew pool in
    if isNew && bool_decide (is_Some (pools w !! RidePool._id pool))
    then (Throw "E11000 duplicate key error", w)
    else (Return pool,
          {| pools := <[RidePool._id pool := pool]> (pools w);
             requests := requests w; redis := redis w |}).

(** [RideRequest.findByIdAndUpdate(id, { status, matchedPoolId })]; nothing
    is written when no document has the id. *)
Definition RideRequest_findByIdAndUpdate (id : ObjectId) (s : RideRequest.Status)
    (pool : option ObjectId) : M unit :=
  fun w =>
    match requests w !! id with
    | Some r =>
        (Return tt,
         {| pools := pools w;
            requests := <[id := RideRequest.update s pool r]> (requests w);
            redis := redis w |})
    | None => (Return tt, w)
    end.

(** ** [services/matchingEngine.js] *)

Module MatchingEngine.
Section WithGeolib.
Context `{Geolib}.

(** A candidate pool with the detour computed for it:
    [{ ...pool, calculatedDetour }]. *)
Record PoolData : Type := {
  pool : RidePool.t;
  calculatedDetour : DistanceCalculator.DetourResult
}.

(** The object [addToExistingPool] resolves to. *)
Record JoinResult : Type := {
  success : bool;
  price : option JSNum;
  detour : option JSNum;
  error : option string
}.

Definition joined (price detour : JSNum) : JoinResult :=
  {| success := true; price := Some price; detour := Some detour; error := None |}.

Definition notJoined (message : string) : JoinResult :=
  {| success := false; price := None; detour := None; error := Some message |}.

(** The object [processRideRequest] resolves to. *)
Record MatchResult : Type := {
  poolId : ObjectId;
  isNewPool : bool;
  estimatedPrice : JSNum;
  mr_detour : JSNum                  (* [detour] *)
}.

(** The object [cancelRide] resolves to. *)
Record CancelResult : Type := {
  cr_success : bool;                 (* [success] *)
  cr_pool : RidePool.t               (* [pool] *)
}.

Definition lockKeyOf (poolId : ObjectId) : string := "pool:" +:+ poolId.

(** [acquireLock(key)]: one [SET ... NX]; a null reply is thrown. *)
Definition acquireLock (env : Env) (key : string) : M string :=
  fun w =>
    let lockValue := uuid env in
    let '(result, redis') :=
      Redis.set_px_nx key lockValue (Config.LOCK_TIMEOUT_MS (config env)) (redis w) in
    let w' := {| pools := pools w; requests := requests w; redis := redis' |} in
    match result with
    | None => (Throw ("Failed to acquire lock for " +:+ key), w')
    | Some _ => (Return lockValue, w')
    end.

(** [releaseLock(key, lockValue)] *)
Definition releaseLock (key lockValue : string) : M unit :=
  fun w =>
    let '(_, redis') := Redis.eval_compare_and_delete key lockValue (redis w) in
    (Return tt, {| pools := pools w; requests := requests w; redis := redis' |}).

(** The query of [findNearbyPools]: status and free room. *)
Definition hasRoomFor (requiredSeats requiredLuggage : Z) (p : RidePool.t) : bool :=
  match RidePool.status p with
  | RidePool.forming | RidePool.matched =>
      (RidePool.seats (RidePool.currentOccupancy p) + requiredSeats
         <=? RidePool.capacity (RidePool.vehicle p))%Z &&
      (RidePool.luggage (RidePool.currentOccupancy p) + requiredLuggage
         <=? RidePool.luggageCapacity (RidePool.vehicle p))%Z
  | _ => false
  end.

(** [findNearbyPools(pickupLocation, requiredSeats, requiredLuggage)]: at
    most 20 documents of the query, in the order of the collection, then
    those with a stop within the matching radius of the pickup. *)
Definition findNearbyPools (env : Env) (pickupLocation : Point)
    (requiredSeats requiredLuggage : Z) : M (list RidePool.t) :=
  fun w =>
    let found :=
      take 20 (List.filter (hasRoomFor requiredSeats requiredLuggage)
                 (snd <$> map_to_list (pools w))) in
    let nearbyPools :=
      List.filter
        (fun p =>
           existsb
             (fun stop =>
                DistanceCalculator.isWithinRadius pickupLocation (location stop)
                  (Config.MATCHING_RADIUS_KM (config env)))
             (RidePool.stops (RidePool.route p)))
        found in
    (Return nearbyPools, w).

(** One turn of the loop of [findBestMatch]. *)
Definition considerPool (rideRequest : RideRequest.t)
    (acc : option PoolData * JSNum) (p : RidePool.t) : option PoolData * JSNum :=
  let '(bestPool, minCost) := acc in
  let '(detourResult, stops') :=
    DistanceCalculator.calculateDetour (RidePool.stops (RidePool.route p))
      (RideRequest.pickupLocation rideRequest)
      (RideRequest.dropoffLocation rideRequest) in
  (* the stop objects of the candidate were written by [calculateDetour] *)
  let p :=
    RidePool.set_route
      {| RidePool.stops := stops';
         RidePool.totalDistance := RidePool.totalDistance (RidePool.route p);
         RidePool.totalDuration := RidePool.totalDuration (RidePool.route p);
         RidePool.optimizedAt := RidePool.optimizedAt (RidePool.route p) |} p in
  if JSNumber.gt (DistanceCalculator.detourPercentage detourResult)
       (Fin (RideRequest.detourTolerance rideRequest))
  then acc
  else
    let cost :=
      JSNumber.add
        (JSNumber.add
           (JSNumber.mul (DistanceCalculator.detourPercentage detourResult) (Fin 100))
           (JSNumber.ofZ (Z.of_nat (length (RidePool.stops (RidePool.route p))) * 10)))
        (JSNumber.ofZ (RidePool.seats (RidePool.currentOccupancy p) * 5)) in
    if JSNumber.lt cost minCost
    then (Some {| pool := p; calculatedDetour := detourResult |}, cost)
    else acc.

(** [findBestMatch(rideRequest, pools)] *)
Definition findBestMatch (rideRequest : RideRequest.t) (pools : list RidePool.t)
  : option PoolData :=
  fst (fold_left (considerPool rideRequest) pools (None, JSNumber.PInf)).

(** The stops written by [addToExistingPool] from [bestRoute]. *)
Definition stopsOfBestRoute (rideRequest : RideRequest.t) (bestRoute : list Stop)
  : list Stop :=
  imap
    (fun idx stop =>
       {| type := type stop;
          location := location stop;
          address :=
            Some (match type stop with
                  | pickup => RideRequest.pickupAddress rideRequest
                  | dropoff => RideRequest.dropoffAddress rideRequest
                  end);
          passengerId :=
            Some (default (RideRequest.userId rideRequest) (passengerId stop));
          sequence := Z.of_nat idx |})
    bestRoute.

Definition passengerOf (rideRequest : RideRequest.t) (price : JSNum) : Passenger.t :=
  {| Passenger.userId := RideRequest.userId rideRequest;
     Passenger.requestId := RideRequest._id rideRequest;
     Passenger.pickupLocation := RideRequest.pickupLocation rideRequest;
     Passenger.pickupAddress := RideRequest.pickupAddress rideRequest;
     Passenger.dropoffLocation := RideRequest.dropoffLocation rideRequest;
     Passenger.dropoffAddress := RideRequest.dropoffAddress rideRequest;
     Passenger.price := price;
     Passenger.passengerCount := RideRequest.passengers rideRequest;
     Passenger.luggageCount := RideRequest.luggage rideRequest;
     Passenger.status := Passenger.waiting |}.

(** The body of the [try] of [addToExistingPool]. *)
Definition addToExistingPool_try (env : Env) (poolData : PoolData)
    (rideRequest : RideRequest.t) : M JoinResult :=
  let* found := RidePool_findById (RidePool._id (pool poolData)) in
  match found with
  | None => ret (notJoined "Pool not found")
  | Some pool =>
      if negb (RidePool.canAccommodate pool (RideRequest.passengers rideRequest)
                 (RideRequest.luggage rideRequest))
      then ret (notJoined "Pool is full")
      else
        let detourPercentage :=
          DistanceCalculator.detourPercentage (calculatedDetour poolData) in
        let bestRoute := DistanceCalculator.bestRoute (calculatedDetour poolData) in
        let price :=
          PricingEngine.calculatePassengerPrice (config env) (hour env)
            rideRequest pool detourPercentage None in
        let pool := RidePool.addPassenger pool (passengerOf rideRequest price) in
        match bestRoute with
        | None => throw "Cannot read properties of null (reading 'map')"
        | Some bestRoute =>
            let totalDistance :=
              Fin (DistanceCalculator.newDistance (calculatedDetour poolData)) in
            let pool :=
              RidePool.set_route
                {| RidePool.stops := stopsOfBestRoute rideRequest bestRoute;
                   RidePool.totalDistance := totalDistance;
                   RidePool.totalDuration :=
                     DistanceCalculator.estimateDuration totalDistance;
                   RidePool.optimizedAt := Some (now env) |}
                pool in
            let pool :=
              if (2 <=? length (RidePool.passengers pool))%nat
                 && match RidePool.status pool with
                    | RidePool.forming => true
                    | _ => false
                    end
              then RidePool.set_matchedAt (now env)
                     (RidePool.set_status RidePool.matched pool)
              else pool in
            let* pool := RidePool_save false pool in
            let* _ :=
              RideRequest_findByIdAndUpdate (RideRequest._id rideRequest)
                RideRequest.matched (Some (RidePool._id pool)) in
            ret (joined price detourPercentage)
        end
  end.

(** [addToExistingPool(poolData, rideRequest)] *)
Definition addToExistingPool (env : Env) (poolData : PoolData)
    (rideRequest : RideRequest.t) : M JoinResult :=
  try_catch (addToExistingPool_try env poolData rideRequest)
    (fun message => ret (notJoined message)).

(** [createNewPool(rideRequest)] *)
Definition createNewPool (env : Env) (rideRequest : RideRequest.t) : M RidePool.t :=
  let directDistance :=
    Fin (DistanceCalculator.calculateDistance
           (RideRequest.pickupLocation rideRequest)
           (RideRequest.dropoffLocation rideRequest)) in
  let basePrice :=
    PricingEngine.calculateBasePrice (config env) directDistance
      (DistanceCalculator.estimateDuration directDistance) in
  let pool :=
    {| RidePool._id := newPoolId env;
       RidePool.status := RidePool.forming;
       RidePool.passengers := [passengerOf rideRequest basePrice];
       RidePool.route :=
         {| RidePool.stops :=
              [ {| type := pickup;
                   location := RideRequest.pickupLocation rideRequest;
                   address := Some (RideRequest.pickupAddress rideRequest);
                   passengerId := Some (RideRequest.userId rideRequest);
                   sequence := 0 |};
                {| type := dropoff;
                   location := RideRequest.dropoffLocation rideRequest;
                   address := Some (RideRequest.dropoffAddress rideRequest);
                   passengerId := Some (RideRequest.userId rideRequest);
                   sequence := 1 |} ];
            RidePool.totalDistance := directDistance;
            RidePool.totalDuration := DistanceCalculator.estimateDuration directDistance;
            RidePool.optimizedAt := Some (now env) |};
       RidePool.vehicle :=
         {| RidePool.vtype := RidePool.sedan;
            RidePool.capacity := Config.MAX_POOL_SIZE (config env);
            RidePool.luggageCapacity := Config.MAX_LUGGAGE_PER_CAB (config env) |};
       RidePool.currentOccupancy :=
         {| RidePool.seats := RideRequest.passengers rideRequest;
            RidePool.luggage := RideRequest.luggage rideRequest |};
       RidePool.pricing :=
         {| RidePool.basePrice := basePrice;
            RidePool.surgeFactor := Fin 1.0;
            RidePool.totalPrice := basePrice;
            RidePool.poolingDiscount := Fin 0 |};
       RidePool.__v := 0;
       RidePool.matchedAt := None;
       RidePool.cancelledAt := None;
       RidePool.cancelReason := None |} in
  let* pool := RidePool_save true pool in
  let* _ :=
    RideRequest_findByIdAndUpdate (RideRequest._id rideRequest)
      RideRequest.matched (Some (RidePool._id pool)) in
  ret pool.

(** [processRideRequest(rideRequest)]; its [catch] logs and rethrows. *)
Definition processRideRequest (env : Env) (rideRequest : RideRequest.t) : M MatchResult :=
  let createdResult : M MatchResult :=
    let* newPool := createNewPool env rideRequest in
    ret {| poolId := RidePool._id newPool;
           isNewPool := true;
           estimatedPrice :=
             match RidePool.passengers newPool with
             | p :: _ => Passenger.price p
             | [] => JSNumber.NaN
             end;
           mr_detour := Fin 0 |} in
  let* nearbyPools :=
    findNearbyPools env (RideRequest.pickupLocation rideRequest)
      (RideRequest.passengers rideRequest) (RideRequest.luggage rideRequest) in
  match findBestMatch rideRequest nearbyPools with
  | Some matchedPool =>
      let lockKey := lockKeyOf (RidePool._id (pool matchedPool)) in
      let* lockValue := acquireLock env lockKey in
      let* result :=
        try_finally (addToExistingPool env matchedPool rideRequest)
          (releaseLock lockKey lockValue) in
      if success result
      then ret {| poolId := RidePool._id (pool matchedPool);
                  isNewPool := false;
                  estimatedPrice := default JSNumber.NaN (price result);
                  mr_detour := default JSNumber.NaN (detour result) |}
      else createdResult
  | None => createdResult
  end.

(** The body of the [try] of [cancelRide]. *)
Definition cancelRide_try (env : Env) (userId poolId : ObjectId) : M CancelResult :=
  let* found := RidePool_findById poolId in
  match found with
  | None => throw "Pool not found"
  | Some pool =>
      let '(pool, removed) := RidePool.removePassenger pool userId in
      if negb removed then throw "Passenger not found in pool"
      else
        let* pool :=
          match RidePool.passengers pool with
          | [] => ret (RidePool.set_cancelled (now env) "All passengers cancelled" pool)
          | _ :: _ =>
              let stops := RidePool.stops (RidePool.route pool) in
              (* [stop.passengerId.toString()] of a stop without one *)
              if negb (forallb (fun stop => bool_decide (is_Some (passengerId stop))) stops)
              then throw "Cannot read properties of undefined (reading 'toString')"
              else
                let newStops :=
                  List.filter
                    (fun stop =>
                       negb (String.eqb (default userId (passengerId stop)) userId))
                    stops in
                let totalDistance :=
                  Fin (DistanceCalculator.calculateRouteDistance newStops) in
                ret (RidePool.set_route
                       {| RidePool.stops :=
                            imap (fun idx stop => setSequence stop (Z.of_nat idx)) newStops;
                          RidePool.totalDistance := totalDistance;
                          RidePool.totalDuration :=
                            DistanceCalculator.estimateDuration totalDistance;
                          RidePool.optimizedAt := Some (now env) |}
                       pool)
          end in
        let* pool := RidePool_save false pool in
        let* _ :=
          match List.find (fun p => String.eqb (Passenger.userId p) userId)
                  (RidePool.passengers pool) with
          | Some passenger =>
              RideRequest_findByIdAndUpdate (Passenger.requestId passenger)
                RideRequest.cancelled None
          | None => ret tt
          end in
        ret {| cr_success := true; cr_pool := pool |}
  end.

(** [cancelRide(userId, poolId)]: the lock is taken before the [try]. *)
Definition cancelRide (env : Env) (userId poolId : ObjectId) : M CancelResult :=
  let lockKey := lockKeyOf poolId in
  let* lockValue := acquireLock env lockKey in
  try_finally (cancelRide_try env userId poolId) (releaseLock lockKey lockValue).

End WithGeolib.
End MatchingEngine.

(** ** [services/pricingEngine.js], continued: the demand read from Redis *)

Module PricingEngineDemand.

Inductive DemandLevel : Type := low | normal | high | surge.

(** The object [getCurrentDemand] resolves to. *)
Record Demand : Type := {
  demandLevel : DemandLevel;
  surgeFactor : JSNum;
  d_activeRequests : JSNum;                (* [activeRequests] *)
  d_availableCabs : JSNum                  (* [availableCabs] *)
}.

(** [getCurrentDemand(region, redisClient)].  The client is the argument
    [get], the reply of [redisClient.get] to a key: a string, [None] for
    null, or a rejection.  [redisClient.get(...) || 0] is a promise, which is
    truthy, so the alternative is never taken and a null reply reaches
    [parseInt].  [parseInt] is the builtin, [isoHour] the first 13 characters
    of [new Date().toISOString()]. *)
Definition getCurrentDemand (parseInt : option string -> JSNum) (isoHour : string)
    (region : string) (get : string -> Outcome (option string)) : Demand :=
  let key := ("demand:" +:+ region +:+ ":" +:+ isoHour)%string in
  match get (key +:+ ":requests")%string, get (key +:+ ":cabs")%string with
  | Return activeRequests, Return availableCabs =>
      let demandMultiplier :=
        PricingEngine.calculateDemandMultiplier (parseInt activeRequests) (parseInt availableCabs) in
      let demandLevel :=
        if JSNumber.le (Fin 2.0) demandMultiplier then surge
        else if JSNumber.le (Fin 1.5) demandMultiplier then high
        else if JSNumber.lt demandMultiplier (Fin 1.2) then low
        else normal in
      {| demandLevel := demandLevel;
         surgeFactor := demandMultiplier;
         d_activeRequests := parseInt activeRequests;
         d_availableCabs := parseInt availableCabs |}
  | _, _ =>
      {| demandLevel := normal;
         surgeFactor := Fin 1.0;
         d_activeRequests := Fin 0;
         d_availableCabs := Fin 0 |}
  end.

End PricingEngineDemand.

(** ** [controllers/rideController.js] *)

Module RideController.
Section WithGeolib.
Context `{Geolib}.



End WithGeolib.
End RideController.

(** * Specification *)

(** ** Pricing *)

Module PricingSpec.
Import PricingEngine.

(** [BasePrice] in the words of the specification. *)
Definition BasePrice (config : Config.t) (distanceKm durationMin : Q) : Q :=
  Qmax (distanceKm * Config.BASE_RATE_PER_KM config
        + durationMin * Config.BASE_RATE_PER_MIN config
        + Config.AIRPORT_FEE config)
       (Config.MINIMUM_FARE config).

(** [PoolingDiscount] in the words of the specification. *)
Definition PoolingDiscount (passengerCount : Z) (detourFraction : Q) : Q :=
  Qmax (Qmin ((inject_Z passengerCount - 1) * 0.15) 0.45 - detourFraction * 0.3) 0.10.

(** The solo price of a passenger, when it is a finite number. *)
Definition soloPrice (p : PassengerPriceData) : Q :=
  match individualPrice p with Fin s => s | _ => 0 end.


Definition Qsum (l : list Q) : Q := foldr Qplus 0 l.

Definition soloTotal (passengers : list PassengerPriceData) : Q :=
  Qsum (soloPrice <$> passengers).

(** The total that is distributed: capped only when the pool price exceeds
    the solo total. *)
Definition adjustedTotal (passengers : list PassengerPriceData) (totalPoolPrice : Q) : Q :=
  if JSNumber.Qltb (soloTotal passengers) totalPoolPrice
  then soloTotal passengers * 0.85
  else totalPoolPrice.


(** Rounding to cents, halves upwards. *)
Definition cents (x : Q) : Q := inject_Z (Qfloor (x * 100 + (1 # 2))) / 100.

(** The sum of the prices handed back, added as JavaScript adds. *)
Definition sumOfPrices (prices : list PassengerPrice) : JSNum :=
  fold_left JSNumber.add (price <$> prices) (Fin 0).

End PricingSpec.

(** ** Route insertion *)

Module Insertion.
Import DistanceCalculator.

(** The stop sequence with the pickup at position [p] and the dropoff at
    position [d] of the original sequence. *)
Definition insertion (stops : list Stop) (pickupStop dropoffStop : Stop)
    (p d : nat) : list Stop :=
  splice p pickupStop (splice d dropoffStop stops).

(** The positions tried, in the order of the loops. *)
Definition positions (n : nat) : list (nat * nat) :=
  flat_map (fun p => pair p <$> seq p (S n - p)) (seq 0 (S n)).

(** Pickup index first, then dropoff index. *)
Definition lex_lt (a b : nat * nat) : Prop :=
  (fst a < fst b)%nat \/ (fst a = fst b /\ (snd a < snd b)%nat).

Definition lex_le (a b : nat * nat) : Prop :=
  (fst a < fst b)%nat \/ (fst a = fst b /\ (snd a <= snd b)%nat).

(** The total distance of the candidate of a position. *)
Definition candidateDistance `{Geolib} (stops : list Stop) (newPickup newDropoff : Point)
    (pos : nat * nat) : Q :=
  calculateRouteDistance
    (insertion stops (newStop pickup newPickup (fst pos))
       (newStop dropoff newDropoff (snd pos)) (fst pos) (snd pos)).

(** The candidate as [calculateDetour] hands it back: every stop of the
    original sequence carries its index there (written by the last
    iteration), the new stops their index in the candidate. *)
Definition returnedRoute (stops : list Stop) (newPickup newDropoff : Point)
    (p d : nat) : list Stop :=
  insertion (imap (fun i s => setSequence s (Z.of_nat i)) stops)
    (newStop pickup newPickup p) (newStop dropoff newDropoff (S d)) p d.

(** [sequence] as [forEach] writes it into the fresh objects of a route. *)
Fixpoint sequenced (idx : nat) (route : list StopRef) : list StopRef :=
  match route with
  | [] => []
  | Orig i s :: rest => Orig i s :: sequenced (S idx) rest
  | Fresh s :: rest => Fresh (setSequence s (Z.of_nat idx)) :: sequenced (S idx) rest
  end.

Definition contents (r : StopRef) : Stop :=
  match r with Orig _ s | Fresh s => s end.

Definition isFresh (r : StopRef) : Prop :=
  match r with Fresh _ => True | Orig _ _ => False end.

Definition isOrig (r : StopRef) : Prop :=
  match r with Orig _ _ => True | Fresh _ => False end.


(** The detour an iteration computes from the distance of its candidate. *)
Definition detourOf (originalDistance newDistance : Q) : JSNum :=
  JSNumber.div (JSNumber.sub (Fin newDistance) (Fin originalDistance))
    (Fin originalDistance).

(** The search reduced to what it decides: the least detour so far, the
    position it was found at and its distance. *)
Definition consider (originalDistance : Q) (distanceAt : nat * nat -> Q)
    (acc : JSNum * option (nat * nat) * Q) (pos : nat * nat)
  : JSNum * option (nat * nat) * Q :=
  let detour := detourOf originalDistance (distanceAt pos) in
  if JSNumber.lt detour (fst (fst acc)) then (detour, Some pos, distanceAt pos) else acc.

Definition decided (stops : list Stop) (newPickup newDropoff : Point)
    (st : Search) (acc : JSNum * option (nat * nat) * Q) : Prop :=
  minDetour st = fst (fst acc)
  /\ best st = (fun pos => sequenced 0 (candidate stops newPickup newDropoff (fst pos) (snd pos)))
               <$> snd (fst acc)
  /\ bestDistance st = snd acc.

End Insertion.

(** ** Pools *)

(** The capacity invariant of a pool. *)
Definition withinCapacity (p : RidePool.t) : Prop :=
  (RidePool.seats (RidePool.currentOccupancy p) <= RidePool.capacity (RidePool.vehicle p))%Z
  /\ (RidePool.luggage (RidePool.currentOccupancy p)
      <= RidePool.luggageCapacity (RidePool.vehicle p))%Z.

(** The passenger entries of a pool take up no negative room (the schema
    bounds [passengerCount] and [luggageCount] from below). *)
Definition countsNonneg (p : RidePool.t) : Prop :=
  Forall (fun e => (0 <= Passenger.passengerCount e)%Z /\ (0 <= Passenger.luggageCount e)%Z)
    (RidePool.passengers p).

Definition soundPool (p : RidePool.t) : Prop := withinCapacity p /\ countsNonneg p.

(** Every pool of the collection is sound. *)
Definition poolsSound (w : World) : Prop :=
  forall id p, pools w !! id = Some p -> soundPool p.

(** The request fits an empty cab of the configuration. *)
Definition fitsCab (config : Config.t) (r : RideRequest.t) : Prop :=
  (RideRequest.passengers r <= Config.MAX_POOL_SIZE config)%Z
  /\ (RideRequest.luggage r <= Config.MAX_LUGGAGE_PER_CAB config)%Z.

(** The pool as [cancelRide] writes it, from the pool it found. *)
Definition cancelledFrom `{Geolib} (env : Env) (userId : ObjectId) (found : RidePool.t)
  : RidePool.t :=
  let removed := fst (RidePool.removePassenger found userId) in
  RidePool.preSave false
    match RidePool.passengers removed with
    | [] => RidePool.set_cancelled (now env) "All passengers cancelled" removed
    | _ :: _ =>
        let newStops :=
          List.filter
            (fun stop => negb (String.eqb (default userId (passengerId stop)) userId))
            (RidePool.stops (RidePool.route removed)) in
        let totalDistance := Fin (DistanceCalculator.calculateRouteDistance newStops) in
        RidePool.set_route
          {| RidePool.stops := imap (fun idx stop => setSequence stop (Z.of_nat idx)) newStops;
             RidePool.totalDistance := totalDistance;
             RidePool.totalDuration := DistanceCalculator.estimateDuration totalDistance;
             RidePool.optimizedAt := Some (now env) |}
          removed
    end.

(** The world after a refused [SET ... NX]: only the command is recorded. *)
Definition refused (env : Env) (key : string) (w : World) : World :=
  {| pools := pools w; requests := requests w;
     redis := {| Redis.keys := Redis.keys (redis w);
                 Redis.received :=
                   Redis.SET_PX_NX key (uuid env) (Config.LOCK_TIMEOUT_MS (config env))
                   :: Redis.received (redis w) |} |}.

(** The error [acquireLock] throws. *)
Definition lockFailure (key : string) : string := "Failed to acquire lock for " +:+ key.

(** The worlds the engine can bring about under one configuration, from an
    empty pool collection, with schema-valid requests; a pool is only created
    for a request that fits a cab. *)
Inductive Reachable `{Geolib} (cfg : Config.t) : World -> Prop :=
| reach_initial (w : World) :
    pools w = ∅ -> Reachable cfg w
| reach_createNewPool (env : Env) (r : RideRequest.t) (w w' : World)
    (o : Outcome RidePool.t) :
    Reachable cfg w -> config env = cfg -> RideRequest.valid r -> fitsCab cfg r ->
    MatchingEngine.createNewPool env r w = (o, w') -> Reachable cfg w'
| reach_addToExistingPool (env : Env) (poolData : MatchingEngine.PoolData)
    (r : RideRequest.t) (w w' : World) (o : Outcome MatchingEngine.JoinResult) :
    Reachable cfg w -> config env = cfg -> RideRequest.valid r ->
    MatchingEngine.addToExistingPool env poolData r w = (o, w') -> Reachable cfg w'
| reach_processRideRequest (env : Env) (r : RideRequest.t) (w w' : World)
    (o : Outcome MatchingEngine.MatchResult) :
    Reachable cfg w -> config env = cfg -> RideRequest.valid r -> fitsCab cfg r ->
    MatchingEngine.processRideRequest env r w = (o, w') -> Reachable cfg w'
| reach_cancelRide (env : Env) (userId poolId : ObjectId) (w w' : World)
    (o : Outcome MatchingEngine.CancelResult) :
    Reachable cfg w -> config env = cfg ->
    MatchingEngine.cancelRide env userId poolId w = (o, w') -> Reachable cfg w'.

(** ** Sample data *)

Module Sample.

(** A stand-in for geolib on a flat grid whose unit is the metre: the
    distance travelled along the axes. *)
Definition gridDistance (a b : Point) : Z :=
  (Z.abs (Qfloor (lng a) - Qfloor (lng b)) + Z.abs (Qfloor (lat a) - Qfloor (lat b)))%Z.

Definition grid : Geolib :=
  {| getDistance := gridDistance;
     getDistance_nonneg :=
       fun a b => Z.add_nonneg_nonneg _ _ (Z.abs_nonneg _) (Z.abs_nonneg _) |}.

Definition airport : Point := {| lng := 0; lat := 0 |}.
Definition downtown : Point := {| lng := 10000; lat := 0 |}.
Definition harbour : Point := {| lng := 12000; lat := 0 |}.
Definition museum : Point := {| lng := 9000; lat := 0 |}.

Definition request (id user : ObjectId) (destination : Point) (passengers luggage : Z)
  : RideRequest.t :=
  {| RideRequest._id := id;
     RideRequest.userId := user;
     RideRequest.pickupLocation := airport;
     RideRequest.pickupAddress := "Airport";
     RideRequest.dropoffLocation := destination;
     RideRequest.dropoffAddress := "Destination";
     RideRequest.passengers := passengers;
     RideRequest.luggage := luggage;
     RideRequest.detourTolerance := 0.3;
     RideRequest.status := RideRequest.pending;
     RideRequest.matchedPoolId := None |}.

Definition requestA : RideRequest.t := request "request-a" "user-a" downtown 1 1.
Definition requestB : RideRequest.t := request "request-b" "user-b" harbour 1 2.

(** A party of four, the most the request schema admits. *)
Definition requestOfFour : RideRequest.t := request "request-f" "user-f" downtown 4 2.

Definition env1 : Env :=
  {| config := Config.default; uuid := "token-1"; now := 1000%Z; hour := 12%Z;
     newPoolId := "pool-1" |}.



Definition emptyWorld : World :=
  {| pools := ∅;
     requests := {[ "request-a" := requestA; "request-b" := requestB;
                    "request-f" := requestOfFour ]};
     redis := {| Redis.keys := ∅; Redis.received := [] |} |}.

(** The stops of a route from the airport to downtown. *)
Definition routeA : list Stop :=
  [ {| type := pickup; location := airport; address := Some "Airport"%string;
       passengerId := Some "user-a"%string; sequence := 0 |};
    {| type := dropoff; location := downtown; address := Some "Destination"%string;
       passengerId := Some "user-a"%string; sequence := 1 |} ].

(** Two stops at the same place: a route of length zero. *)
Definition routeNowhere : list Stop :=
  [ {| type := pickup; location := airport; address := None;
       passengerId := Some "user-a"%string; sequence := 0 |};
    {| type := dropoff; location := airport; address := None;
       passengerId := Some "user-a"%string; sequence := 1 |} ].

(** The pool [createNewPool] makes for request A, and the world with it. *)
Definition distanceA : JSNum :=
  Fin (DistanceCalculator.calculateDistance (H := grid) airport downtown).

Definition priceA : JSNum :=
  PricingEngine.calculateBasePrice Config.default distanceA
    (DistanceCalculator.estimateDuration distanceA).

Definition poolA : RidePool.t :=
  {| RidePool._id := "pool-1";
     RidePool.status := RidePool.forming;
     RidePool.passengers := [MatchingEngine.passengerOf requestA priceA];
     RidePool.route :=
       {| RidePool.stops := routeA;
          RidePool.totalDistance := distanceA;
          RidePool.totalDuration := DistanceCalculator.estimateDuration distanceA;
          RidePool.optimizedAt := Some 1000%Z |};
     RidePool.vehicle :=
       {| RidePool.vtype := RidePool.sedan;
          RidePool.capacity := 4;
          RidePool.luggageCapacity := 6 |};
     RidePool.currentOccupancy := {| RidePool.seats := 1; RidePool.luggage := 1 |};
     RidePool.pricing :=
       {| RidePool.basePrice := priceA;
          RidePool.surgeFactor := Fin 1.0;
          RidePool.totalPrice := priceA;
          RidePool.poolingDiscount := Fin 0 |};
     RidePool.__v := 0;
     RidePool.matchedAt := None;
     RidePool.cancelledAt := None;
     RidePool.cancelReason := None |}.

Definition worldA : World :=
  {| pools := {[ "pool-1" := poolA ]};
     requests :=
       <[ "request-a" := RideRequest.update RideRequest.matched (Some "pool-1") requestA ]>
         (requests emptyWorld);
     redis := redis emptyWorld |}.

(** The same with the lock of that pool held by another caller. *)
Definition worldAHeld : World :=
  {| pools := pools worldA; requests := requests worldA;
     redis := {| Redis.keys := {[ "pool:pool-1" := "token-0" ]};
                 Redis.received := [] |} |}.

(** What the cancellation of user A returns and leaves behind. *)
Definition cancelResultA : MatchingEngine.CancelResult :=
  {| MatchingEngine.cr_success := true;
     MatchingEngine.cr_pool := cancelledFrom (H := grid) env1 "user-a" poolA |}.

Definition worldACancelled : World :=
  {| pools := {[ "pool-1" := MatchingEngine.cr_pool cancelResultA ]};
     requests := requests worldA;
     redis :=
       {| Redis.keys := ∅;
          Redis.received :=
            [ Redis.EVAL_compare_and_delete "pool:pool-1" "token-1";
              Redis.SET_PX_NX "pool:pool-1" "token-1" 5000 ] |} |}.





End Sample.


(** ** Further notions *)


(** The seats and the luggage the entries of a pool add up to. *)
Definition totalSeats (entries : list Passenger.t) : Z :=
  foldr (fun e n => (Passenger.passengerCount e + n)%Z) 0%Z entries.

Definition totalLuggage (entries : list Passenger.t) : Z :=
  foldr (fun e n => (Passenger.luggageCount e + n)%Z) 0%Z entries.

(** The occupancy of a pool is what its entries add up to. *)
Definition occupancyMatches (p : RidePool.t) : Prop :=
  RidePool.seats (RidePool.currentOccupancy p) = totalSeats (RidePool.passengers p)
  /\ RidePool.luggage (RidePool.currentOccupancy p) = totalLuggage (RidePool.passengers p).

(** The entries of a user in a list of entries. *)
Definition entriesOf (userId : ObjectId) (entries : list Passenger.t) : list Passenger.t :=
  List.filter (fun p => String.eqb (Passenger.userId p) userId) entries.

(** Every pool document is stored under its own id. *)
Definition storedUnderId (w : World) : Prop :=
  forall id p, pools w !! id = Some p -> RidePool._id p = id.

(** The stops carry their indices as sequence numbers. *)
Definition numbered (stops : list Stop) : Prop :=
  sequence <$> stops = Z.of_nat <$> seq 0 (length stops).

(** The cost [findBestMatch] gives a pool from the detour computed for it. *)
Definition matchCost (p : RidePool.t) (detourPercentage : JSNum) : JSNum :=
  JSNumber.add
    (JSNumber.add
       (JSNumber.mul detourPercentage (Fin 100))
       (JSNumber.ofZ (Z.of_nat (length (RidePool.stops (RidePool.route p))) * 10)))
    (JSNumber.ofZ (RidePool.seats (RidePool.currentOccupancy p) * 5)).

(** The pool as [findBestMatch] hands it on: its stop objects were written by
    [calculateDetour]. *)
Definition resequencedPool (p : RidePool.t) : RidePool.t :=
  RidePool.set_route
    {| RidePool.stops :=
         imap (fun i s => setSequence s (Z.of_nat i)) (RidePool.stops (RidePool.route p));
       RidePool.totalDistance := RidePool.totalDistance (RidePool.route p);
       RidePool.totalDuration := RidePool.totalDuration (RidePool.route p);
       RidePool.optimizedAt := RidePool.optimizedAt (RidePool.route p) |} p.

Module SampleDemand.

(** A stand-in for [parseInt] on the replies of the cache: null is NaN, a
    string that starts with decimal digits is the number they spell, any other
    string is NaN. *)
Definition digitOf (c : Ascii.ascii) : option Z :=
  let n := Z.of_nat (Ascii.nat_of_ascii c) in
  if ((48 <=? n) && (n <=? 57))%Z then Some (n - 48)%Z else None.

Fixpoint digits (acc : Z) (s : string) : Z :=
  match s with
  | String c rest =>
      match digitOf c with
      | Some d => digits (acc * 10 + d)%Z rest
      | None => acc
      end
  | EmptyString => acc
  end.

Definition parseInt (v : option string) : JSNum :=
  match v with
  | Some (String c rest) =>
      match digitOf c with
      | Some _ => JSNumber.ofZ (digits 0 (String c rest))
      | None => JSNumber.NaN
      end
  | _ => JSNumber.NaN
  end.


Definition getFrom (keys : gmap string string) (key : string) : Outcome (option string) :=
  Return (keys !! key).

End SampleDemand.

(** Every stop belongs to a passenger. *)
Definition owned (stops : list Stop) : Prop :=
  Forall (fun stop => is_Some (passengerId stop)) stops.

(** The pool as [addToExistingPool] writes it, from the pool it found and
    the route of the candidate. *)
Definition joinedFrom `{Geolib} (env : Env) (poolData : MatchingEngine.PoolData)
    (rideRequest : RideRequest.t) (found : RidePool.t) (bestRoute : list Stop)
  : RidePool.t :=
  let detour := MatchingEngine.calculatedDetour poolData in
  let price :=
    PricingEngine.calculatePassengerPrice (config env) (hour env) rideRequest found
      (DistanceCalculator.detourPercentage detour) None in
  let totalDistance := Fin (DistanceCalculator.newDistance detour) in
  let pool :=
    RidePool.set_route
      {| RidePool.stops := MatchingEngine.stopsOfBestRoute rideRequest bestRoute;
         RidePool.totalDistance := totalDistance;
         RidePool.totalDuration := DistanceCalculator.estimateDuration totalDistance;
         RidePool.optimizedAt := Some (now env) |}
      (RidePool.addPassenger found (MatchingEngine.passengerOf rideRequest price)) in
  RidePool.preSave false
    (if (2 <=? length (RidePool.passengers pool))%nat
        && match RidePool.status pool with
           | RidePool.forming => true
           | _ => false
           end
     then RidePool.set_matchedAt (now env) (RidePool.set_status RidePool.matched pool)
     else pool).

(** The request collection after [findByIdAndUpdate] has marked a request
    as matched with a pool. *)
Definition matchedWith (rideRequest : RideRequest.t) (poolId : ObjectId)
    (requests : gmap ObjectId RideRequest.t) : gmap ObjectId RideRequest.t :=
  match requests !! RideRequest._id rideRequest with
  | Some stored =>
      <[RideRequest._id rideRequest :=
          RideRequest.update RideRequest.matched (Some poolId) stored]> requests
  | None => requests
  end.

(** What holds of every pool the engine has written: it is stored under its
    id, its stops are numbered by index and belong to passengers, and its
    entries add up to no more than its occupancy. *)
Definition wellFormedPool (id : ObjectId) (p : RidePool.t) : Prop :=
  RidePool._id p = id
  /\ numbered (RidePool.stops (RidePool.route p))
  /\ owned (RidePool.stops (RidePool.route p))
  /\ (totalSeats (RidePool.passengers p) <= RidePool.seats (RidePool.currentOccupancy p))%Z
  /\ (totalLuggage (RidePool.passengers p)
      <= RidePool.luggage (RidePool.currentOccupancy p))%Z.

(** The object [processRideRequest] resolves to for a new pool. *)
Definition createdResult `{Geolib} (newPool : RidePool.t) : MatchingEngine.MatchResult :=
  {| MatchingEngine.poolId := RidePool._id newPool;
     MatchingEngine.isNewPool := true;
     MatchingEngine.estimatedPrice :=
       match RidePool.passengers newPool with
       | p :: _ => Passenger.price p
       | [] => JSNumber.NaN
       end;
     MatchingEngine.mr_detour := Fin 0 |}.

(** Request B joining the pool of request A. *)
Module SampleJoin.
Import Sample.

(** The candidate [findBestMatch] makes of pool A for request B. *)
Definition candidateB : MatchingEngine.PoolData :=
  {| MatchingEngine.pool := resequencedPool poolA;
     MatchingEngine.calculatedDetour :=
       fst (DistanceCalculator.calculateDetour (H := grid)
              (RidePool.stops (RidePool.route poolA)) airport harbour) |}.

(** What request B is answered. *)
Definition resultB : MatchingEngine.MatchResult :=
  {| MatchingEngine.poolId := "pool-1";
     MatchingEngine.isNewPool := false;
     MatchingEngine.estimatedPrice :=
       PricingEngine.calculatePassengerPrice (H := grid) Config.default 12 requestB poolA
         (DistanceCalculator.detourPercentage (MatchingEngine.calculatedDetour candidateB))
         None;
     MatchingEngine.mr_detour :=
       DistanceCalculator.detourPercentage (MatchingEngine.calculatedDetour candidateB) |}.

(** The world after request B was processed in the world of pool A, and the
    pool of both. *)
Definition worldAB : World :=
  snd (MatchingEngine.processRideRequest (H := grid) env1 requestB worldA).


(** What the join itself returns and leaves behind. *)
Definition joinResultB : MatchingEngine.JoinResult :=
  MatchingEngine.joined (MatchingEngine.estimatedPrice resultB)
    (MatchingEngine.mr_detour resultB).

Definition worldABJoined : World :=
  snd (MatchingEngine.addToExistingPool (H := grid) env1 candidateB requestB worldA).



End SampleJoin.

(** * Proofs *)

(** ** Comparisons of rationals *)

Lemma Qltb_spec x y : reflect (x < y) (JSNumber.Qltb x y).
Proof.
  unfold JSNumber.Qltb. destruct (x ?= y) eqn:E; constructor.
  - apply Qeq_alt in E. lra.
  - apply Qlt_alt in E. lra.
  - apply Qgt_alt in E. lra.
Qed.

Lemma Qleb_spec x y : reflect (x <= y) (JSNumber.Qleb x y).
Proof.
  unfold JSNumber.Qleb. destruct (x ?= y) eqn:E; constructor.
  - apply Qeq_alt in E. lra.
  - apply Qlt_alt in E. lra.
  - apply Qgt_alt in E. lra.
Qed.



Lemma Qleb_true x y : x <= y -> JSNumber.Qleb x y = true.
Proof. intros. destruct (Qleb_spec x y); [reflexivity | contradiction]. Qed.

(** C5 (amended).  [calculateBasePrice(distanceKm, durationMin)] is the larger of
    [distanceKm * ratePerKm + durationMin * ratePerMin + airportFee] and
    [minimumFare]; with the default rates (2.0 per km, 0.5 per minute, airport
    fee 3.0, minimum fare 5.0) [calculateBasePrice(10, 15)] is 30.5. *)
Theorem calculateBasePrice_formula :
  (forall config distanceKm durationMin,
     PricingEngine.calculateBasePrice config (Fin distanceKm) (Fin durationMin)
     =js= Fin (PricingSpec.BasePrice config distanceKm durationMin))
  /\ PricingEngine.calculateBasePrice Config.default (Fin 10) (Fin 15) =js= Fin 30.5.
Proof.
  split.
  - intros config distanceKm durationMin. unfold PricingSpec.BasePrice. simpl. reflexivity.
  - vm_compute. reflexivity.
Qed.

(** C5 as stated fails: with the default rates [calculateBasePrice(10, 15)] is
    not 33.5. *)
Lemma calculateBasePrice_10_15_not_33_5 :
  ~ (PricingEngine.calculateBasePrice Config.default (Fin 10) (Fin 15) =js= Fin 33.5).
Proof. vm_compute. discriminate. Qed.

(** C4 (the code at the failing input).  For a distance of 60 km, which is over
    50, [getDistanceDiscount] returns 0.90 and not 0.85: the test [> 20] comes
    first and answers for every distance over 50 as well. *)
Theorem getDistanceDiscount_60 :
  PricingEngine.getDistanceDiscount (Fin 60) = Fin 0.90
  /\ ~ (PricingEngine.getDistanceDiscount (Fin 60) =js= Fin 0.85).
Proof. split; [reflexivity | vm_compute; discriminate]. Qed.


(** C6.  For a passenger count of at least 1 and a detour fraction between 0
    and 1, [calculatePoolingDiscount] is
    [max(min((passengerCount - 1) * 0.15, 0.45) - detourFraction * 0.3, 0.10)];
    it lies between 0.10 and 0.45, and at detour 0 it does not decrease when
    the passenger count grows. *)
Theorem calculatePoolingDiscount_formula (passengerCount : Z) (detourFraction : Q) :
  (1 <= passengerCount)%Z -> 0 <= detourFraction <= 1 ->
  (exists discount,
      PricingEngine.calculatePoolingDiscount (JSNumber.ofZ passengerCount) (Fin detourFraction)
      = Fin discount
      /\ discount == PricingSpec.PoolingDiscount passengerCount detourFraction
      /\ 0.10 <= discount <= 0.45)
  /\ (forall more, (passengerCount <= more)%Z ->
        JSNumber.le
          (PricingEngine.calculatePoolingDiscount (JSNumber.ofZ passengerCount) (Fin 0))
          (PricingEngine.calculatePoolingDiscount (JSNumber.ofZ more) (Fin 0)) = true).
Proof.
  intros Hn [Hd0 Hd1]. split.
  - eexists. split; [reflexivity |]. split.
    + unfold PricingSpec.PoolingDiscount. unfold Qminus. reflexivity.
    + split; [apply Q.le_max_r |].
      apply Q.max_lub; [| lra].
      match goal with |- Qmin ?a ?b + _ <= _ => pose proof (Q.le_min_r a b) end. lra.
  - intros more Hle. simpl. apply Qleb_true.
    apply Q.max_le_compat_r.
    assert (inject_Z passengerCount <= inject_Z more) as Hq by (rewrite <- Zle_Qle; exact Hle).
    unfold Qminus.
    apply Qplus_le_l. apply Q.min_le_compat_r. lra.
Qed.

Lemma calculatePoolingDiscount_formula_witness :
  (1 <= 2)%Z /\ 0 <= 0.1 <= 1 /\
  exists discount,
    PricingEngine.calculatePoolingDiscount (JSNumber.ofZ 2) (Fin 0.1) = Fin discount
    /\ discount == PricingSpec.PoolingDiscount 2 0.1.
Proof.
  assert (H1 : (1 <= 2)%Z) by lia.
  assert (H2 : 0 <= 0.1 <= 1) by (split; lra).
  split; [exact H1 |]. split; [exact H2 |].
  destruct (calculatePoolingDiscount_formula 2 0.1 H1 H2) as [[discount [E [S _]]] _].
  exists discount. split; assumption.
Defined.

(** ** Fair pricing *)

Section FairPricingProofs.
Import PricingEngine PricingSpec.





Lemma div_Fin_pos (x y : Q) : 0 < y -> JSNumber.div (Fin x) (Fin y) = Fin (x / y).
Proof.
  intros Hy. simpl. destruct (y ?= 0) eqn:E; try reflexivity.
  apply Qeq_alt in E. lra.
Qed.

Lemma roundCents_Fin (x : Q) : roundCents (Fin x) = Fin (cents x).
Proof. reflexivity. Qed.


Lemma cents_comp (x y : Q) : x == y -> cents x == cents y.
Proof. intros E. unfold cents. rewrite E. reflexivity. Qed.




(** Rounding alone can also carry the sum over the cap: two solo prices of
    0.10 and a pool price of 1 give 0.09 each, 0.18 against a cap of 0.17. *)
Lemma ensureFairPricing_rounding_exceeds_cap :
  JSNumber.le
    (sumOfPrices
       (ensureFairPricing
          [ {| passengerId := "user-a"; individualPrice := Fin 0.1 |};
            {| passengerId := "user-b"; individualPrice := Fin 0.1 |} ]
          (Fin 1)))
    (Fin (0.85 * (0.1 + 0.1))) = false.
Proof. vm_compute. reflexivity. Qed.



End FairPricingProofs.

(** ** Route insertion *)

Section DetourProofs.
Context `{Geolib}.
Import DistanceCalculator Insertion.

Lemma calculateDistance_nonneg a b : 0 <= calculateDistance a b.
Proof.
  unfold calculateDistance.
  pose proof (getDistance_nonneg a b) as Hd.
  apply Qle_shift_div_l; [reflexivity |].
  rewrite Qmult_0_l. change 0 with (inject_Z 0). rewrite <- Zle_Qle. exact Hd.
Qed.

Lemma routeLegs_cons2 (a b : Stop) (l : list Stop) (total : Q) :
  routeLegs total (a :: b :: l)
  = routeLegs (total + calculateDistance (location a) (location b)) (b :: l).
Proof. reflexivity. Qed.

Lemma routeLegs_locations (l1 l2 : list Stop) (total : Q) :
  location <$> l1 = location <$> l2 -> routeLegs total l1 = routeLegs total l2.
Proof.
  revert l2 total. induction l1 as [| a l1 IH]; intros [| b l2] total E;
    try discriminate; [reflexivity |].
  simpl in E. injection E as Eab E.
  destruct l1 as [| a' l1], l2 as [| b' l2]; try discriminate; [reflexivity |].
  rewrite !routeLegs_cons2, Eab.
  assert (location a' = location b') as -> by (simpl in E; congruence).
  apply IH. exact E.
Qed.

Lemma calculateRouteDistance_locations (l1 l2 : list Stop) :
  location <$> l1 = location <$> l2 ->
  calculateRouteDistance l1 = calculateRouteDistance l2.
Proof. apply routeLegs_locations. Qed.

Lemma routeLegs_ge (l : list Stop) (total : Q) : total <= routeLegs total l.
Proof.
  revert total. induction l as [| a l IH]; intros total; [simpl; lra |].
  destruct l as [| b l]; [simpl; lra |].
  rewrite routeLegs_cons2.
  pose proof (calculateDistance_nonneg (location a) (location b)).
  pose proof (IH (total + calculateDistance (location a) (location b))). lra.
Qed.

Lemma calculateRouteDistance_nonneg (l : list Stop) : 0 <= calculateRouteDistance l.
Proof. apply routeLegs_ge. Qed.

(** *** The sequence numbers written by an iteration *)

Lemma assignSequences_fst (idx : nat) (route : list StopRef) (st : list Z) :
  fst (assignSequences idx route st) = sequenced idx route.
Proof.
  revert idx st. induction route as [| [i s | s] route IH]; intros idx st;
    [reflexivity | |]; simpl.
  - specialize (IH (S idx) (<[i := Z.of_nat idx]> st)).
    destruct (assignSequences (S idx) route (<[i := Z.of_nat idx]> st)).
    simpl in *. congruence.
  - specialize (IH (S idx) st).
    destruct (assignSequences (S idx) route st). simpl in *. congruence.
Qed.

Lemma assignSequences_length (idx : nat) (route : list StopRef) (st : list Z) :
  length (snd (assignSequences idx route st)) = length st.
Proof.
  revert idx st. induction route as [| [i s | s] route IH]; intros idx st;
    [reflexivity | |]; simpl.
  - specialize (IH (S idx) (<[i := Z.of_nat idx]> st)).
    destruct (assignSequences (S idx) route (<[i := Z.of_nat idx]> st)).
    simpl in *. rewrite IH. apply length_insert.
  - specialize (IH (S idx) st).
    destruct (assignSequences (S idx) route st). simpl in *. exact IH.
Qed.

Lemma location_deref (st : list Z) (r : StopRef) :
  location (deref st r) = location (contents r).
Proof. destruct r; reflexivity. Qed.

Lemma sequenced_locations (idx : nat) (route : list StopRef) :
  (location ∘ contents) <$> sequenced idx route = (location ∘ contents) <$> route.
Proof.
  revert idx. induction route as [| [i s | s] route IH]; intros idx;
    [reflexivity | |]; simpl; f_equal; apply IH.
Qed.

Lemma fmap_splice {A B : Type} (f : A -> B) (pos : nat) (x : A) (l : list A) :
  f <$> splice pos x l = splice pos (f x) (f <$> l).
Proof.
  unfold splice. rewrite fmap_app, fmap_cons, fmap_take, fmap_drop. reflexivity.
Qed.

Lemma contents_imap_Orig (l : list Stop) : contents <$> imap Orig l = l.
Proof.
  rewrite fmap_imap.
  etrans; [apply (imap_ext _ (const id)); intros; reflexivity |].
  rewrite imap_const. apply list_fmap_id.
Qed.

Lemma contents_candidate stops P D p d :
  contents <$> candidate stops P D p d
  = insertion stops (newStop pickup P p) (newStop dropoff D d) p d.
Proof.
  unfold candidate, insertion. rewrite !fmap_splice, contents_imap_Orig. reflexivity.
Qed.

(** The distance an iteration measures is that of the candidate. *)
Lemma iteration_distance stops P D p d (st st' : list Z) :
  calculateRouteDistance (deref st' <$> sequenced 0 (candidate stops P D p d))
  = candidateDistance stops P D (p, d).
Proof.
  unfold candidateDistance. apply calculateRouteDistance_locations.
  rewrite <- contents_candidate. simpl fst. simpl snd.
  rewrite <- !list_fmap_compose.
  rewrite <- (sequenced_locations 0 (candidate stops P D p d)).
  apply list_fmap_ext. intros i r _. apply location_deref.
Qed.

(** *** The loops as one pass over the positions *)

Lemma fold_left_flat_map {A B C : Type} (f : A -> C -> A) (g : B -> list C)
    (l : list B) (a : A) :
  fold_left f (flat_map g l) a = fold_left (fun a x => fold_left f (g x) a) l a.
Proof.
  revert a. induction l as [| x l IH]; intros a; simpl; [reflexivity |].
  rewrite fold_left_app. apply IH.
Qed.

Lemma fold_left_fmap {A B C : Type} (f : A -> C -> A) (h : B -> C) (l : list B) (a : A) :
  fold_left f (h <$> l) a = fold_left (fun a x => f a (h x)) l a.
Proof. revert a. induction l as [| x l IH]; intros a; simpl; [reflexivity | apply IH]. Qed.

Lemma fold_left_ext_in {A B : Type} (f g : A -> B -> A) (l : list B) (a : A) :
  (forall a x, In x l -> f a x = g a x) -> fold_left f l a = fold_left g l a.
Proof.
  revert a. induction l as [| x l IH]; intros a Hfg; simpl; [reflexivity |].
  rewrite Hfg by (left; reflexivity). apply IH. intros; apply Hfg. right. assumption.
Qed.

Lemma searchInsertions_positions stops P D od (init : Search) :
  searchInsertions stops P D od init
  = fold_left (fun st pos => tryInsertion stops P D od (fst pos) (snd pos) st)
      (positions (length stops)) init.
Proof.
  unfold searchInsertions, positions. rewrite fold_left_flat_map.
  apply fold_left_ext_in. intros st p _. rewrite fold_left_fmap. reflexivity.
Qed.

Lemma tryInsertion_decided stops P D od p d st acc :
  decided stops P D st acc ->
  decided stops P D (tryInsertion stops P D od p d st)
    (consider od (candidateDistance stops P D) acc (p, d)).
Proof.
  intros (Hm & Hb & Hd). unfold tryInsertion, consider, detourOf.
  pose proof (assignSequences_fst 0 (candidate stops P D p d) (store st)) as Hfst.
  destruct (assignSequences 0 (candidate stops P D p d) (store st)) as [newRoute store'].
  simpl in Hfst. subst newRoute.
  rewrite (iteration_distance stops P D p d (store st) store'), Hm.
  destruct (JSNumber.lt _ _); repeat split; simpl; assumption || reflexivity.
Qed.

Lemma search_decided stops P D od (l : list (nat * nat)) st acc :
  decided stops P D st acc ->
  decided stops P D
    (fold_left (fun st pos => tryInsertion stops P D od (fst pos) (snd pos) st) l st)
    (fold_left (consider od (candidateDistance stops P D)) l acc).
Proof.
  revert st acc. induction l as [| [p d] l IH]; intros st acc Hdec; simpl; [exact Hdec |].
  apply IH. apply tryInsertion_decided. exact Hdec.
Qed.

(** *** The positions *)

Lemma elem_of_positions (n p d : nat) :
  (p, d) ∈ positions n <-> (p <= d <= n)%nat.
Proof.
  unfold positions. rewrite list_elem_of_In, in_flat_map. split.
  - intros (p' & Hp' & Hd). apply in_seq in Hp'.
    apply list_elem_of_In, list_elem_of_fmap in Hd as (d' & E & Hd').
    injection E as -> ->. apply list_elem_of_In, in_seq in Hd'. lia.
  - intros Hpd. exists p. split; [apply in_seq; lia |].
    apply list_elem_of_In, list_elem_of_fmap. exists d. split; [reflexivity |].
    apply list_elem_of_In, in_seq. lia.
Qed.

Lemma row_sorted (p a len : nat) : StronglySorted lex_lt (pair p <$> seq a len).
Proof.
  revert a. induction len as [| len IH]; intros a; simpl; [constructor |].
  apply StronglySorted_cons. split; [| apply IH].
  apply Forall_forall. intros [p' d'] Hin.
  apply list_elem_of_fmap in Hin as (d & E & Hd). injection E as -> ->.
  apply list_elem_of_In, in_seq in Hd. right. simpl. lia.
Qed.

Lemma rows_sorted (n a len : nat) :
  StronglySorted lex_lt (flat_map (fun p => pair p <$> seq p (S n - p)) (seq a len)).
Proof.
  revert a. induction len as [| len IH]; intros a; simpl; [constructor |].
  apply StronglySorted_app. split; [| split; [apply row_sorted | apply IH]].
  intros [p1 d1] [p2 d2] H1 H2.
  apply list_elem_of_fmap in H1 as (d & E & _). injection E as -> ->.
  apply list_elem_of_In, in_flat_map in H2 as (p' & Hp' & Hd).
  apply in_seq in Hp'.
  apply list_elem_of_In, list_elem_of_fmap in Hd as (d' & E & _). injection E as -> ->.
  left. simpl. lia.
Qed.

Lemma positions_sorted (n : nat) : StronglySorted lex_lt (positions n).
Proof. apply rows_sorted. Qed.

Lemma positions_first (n : nat) : exists rest, positions n = (0, 0)%nat :: rest.
Proof. unfold positions. simpl. eexists. reflexivity. Qed.

(** *** The decision: the first position of least distance *)

Lemma detour_positive (od x : Q) :
  0 < od -> detourOf od x = Fin ((x - od) / od).
Proof.
  intros Hod. unfold detourOf. simpl. destruct (od ?= 0) eqn:E; try reflexivity.
  apply Qeq_alt in E. lra.
Qed.

Lemma detour_lt (od x y : Q) :
  0 < od -> ((x - od) / od < (y - od) / od <-> x < y).
Proof.
  intros Hod. unfold Qdiv.
  assert (0 < / od) as Hinv by (apply Qinv_lt_0_compat; exact Hod).
  rewrite (Qmult_lt_r _ _ _ Hinv). split; intros; lra.
Qed.

Lemma consider_first_minimum (od : Q) (k : nat * nat -> Q) :
  0 < od ->
  forall l before x after,
    (forall y, y ∈ before -> k x < k y) ->
    (forall y, y ∈ after -> k x <= k y) ->
    exists before' x' after',
      before ++ x :: after ++ l = before' ++ x' :: after'
      /\ fold_left (consider od k) l (Fin ((k x - od) / od), Some x, k x)
         = (Fin ((k x' - od) / od), Some x', k x')
      /\ (forall y, y ∈ before' -> k x' < k y)
      /\ (forall y, y ∈ after' -> k x' <= k y).
Proof.
  intros Hod. induction l as [| y l IH]; intros before x after Hbefore Hafter.
  - exists before, x, after. rewrite app_nil_r. repeat split; assumption.
  - simpl. unfold consider at 2. rewrite (detour_positive od (k y) Hod).
    cbn [fst JSNumber.lt].
    destruct (Qltb_spec ((k y - od) / od) ((k x - od) / od)) as [Hlt | Hge].
    + apply detour_lt in Hlt; [| exact Hod].
      destruct (IH (before ++ x :: after) y []) as (b' & x' & a' & E & Hfold & Hb' & Ha').
      * intros z Hz. apply elem_of_app in Hz as [Hz | Hz].
        -- specialize (Hbefore z Hz). lra.
        -- apply elem_of_cons in Hz as [-> | Hz]; [exact Hlt |].
           specialize (Hafter z Hz). lra.
      * intros z Hz. inversion Hz.
      * exists b', x', a'. repeat split; try assumption.
        rewrite <- E. simpl. rewrite <- !app_assoc. reflexivity.
    + assert (k x <= k y) as Hle.
      { destruct (Qlt_le_dec (k y) (k x)) as [Hlt | Hle]; [| exact Hle].
        exfalso. apply Hge. apply detour_lt; assumption. }
      destruct (IH before x (after ++ [y])) as (b' & x' & a' & E & Hfold & Hb' & Ha').
      * exact Hbefore.
      * intros z Hz. apply elem_of_app in Hz as [Hz | Hz]; [apply Hafter; exact Hz |].
        apply list_elem_of_singleton in Hz as ->. exact Hle.
      * exists b', x', a'. repeat split; try assumption.
        rewrite <- E. rewrite <- !app_assoc. reflexivity.
Qed.

Lemma consider_zero_distance (od : Q) (k : nat * nat -> Q) (l : list (nat * nat)) :
  od == 0 -> (forall pos, 0 <= k pos) ->
  fold_left (consider od k) l (JSNumber.PInf, None, 0) = (JSNumber.PInf, None, 0).
Proof.
  intros Hod Hk. induction l as [| y l IH]; simpl; [reflexivity |].
  replace (consider od k (JSNumber.PInf, None, 0) y) with (JSNumber.PInf, @None (nat * nat), 0);
    [exact IH |].
  unfold consider, detourOf. cbn [fst JSNumber.sub JSNumber.neg JSNumber.add JSNumber.div].
  assert ((od ?= 0) = Eq) as -> by (apply Qeq_alt; exact Hod).
  unfold JSNumber.scale_inf.
  destruct ((k y + - od) ?= 0) eqn:E; try reflexivity.
  apply Qlt_alt in E. specialize (Hk y). lra.
Qed.

(** *** The store the loops leave behind *)

Lemma assignSequences_fresh (idx : nat) (route : list StopRef) (st : list Z) :
  Forall isFresh route -> snd (assignSequences idx route st) = st.
Proof.
  intros Hall. revert idx. induction Hall as [| [i s | s] route Hr _ IH]; intros idx;
    [reflexivity | destruct Hr |].
  simpl. specialize (IH (S idx)).
  destruct (assignSequences (S idx) route st). exact IH.
Qed.

Lemma assignSequences_origs (l : list Stop) :
  forall (j idx : nat) (st : list Z) (tail : list StopRef) (i : nat),
    Forall isFresh tail ->
    snd (assignSequences idx (imap (fun q => Orig (j + q)) l ++ tail) st) !! i
    = if decide ((j <= i < j + length l)%nat /\ (i < length st)%nat)
      then Some (Z.of_nat (idx + (i - j)))
      else st !! i.
Proof.
  induction l as [| x l IH]; intros j idx st tail i Htail.
  - simpl. rewrite assignSequences_fresh by exact Htail.
    destruct (decide _) as [[? ?] |]; [lia | reflexivity].
  - cbn [imap app assignSequences].
    specialize (IH (S j) (S idx) (<[(j + 0)%nat := Z.of_nat idx]> st) tail i Htail).
    rewrite (imap_ext _ (fun q => Orig (S j + q))) in |- *
      by (intros q y _; simpl; f_equal; lia).
    destruct (assignSequences (S idx) (imap (fun q => Orig (S j + q)) l ++ tail)
                (<[(j + 0)%nat := Z.of_nat idx]> st)) as [rest' store'].
    cbn [snd] in *. rewrite IH, length_insert. clear IH.
    replace (j + 0)%nat with j by lia. cbn [length].
    destruct (decide (i = j)) as [-> | Hne].
    + destruct (decide ((S j <= j < S j + length l)%nat /\ _)) as [[? ?] |]; [lia |].
      destruct (decide ((j <= j < j + S (length l))%nat /\ (j < length st)%nat))
        as [[_ Hlt] | Hnot].
      * rewrite list_lookup_insert_eq by exact Hlt. f_equal. lia.
      * rewrite list_insert_ge by lia. reflexivity.
    + rewrite list_lookup_insert_ne by congruence.
      destruct (decide ((S j <= i < S j + length l)%nat /\ _)) as [[? ?] | Hnot];
        destruct (decide ((j <= i < j + S (length l))%nat /\ (i < length st)%nat))
          as [[? ?] | Hnot']; try reflexivity; try lia.
      f_equal. lia.
Qed.

Lemma splice_at_end {A : Type} (x : A) (l : list A) : splice (length l) x l = l ++ [x].
Proof. unfold splice. rewrite firstn_all, drop_all. reflexivity. Qed.

Lemma candidate_last stops P D :
  candidate stops P D (length stops) (length stops)
  = imap (fun q => Orig (0 + q)) stops
    ++ [Fresh (newStop pickup P (length stops)); Fresh (newStop dropoff D (length stops))].
Proof.
  unfold candidate.
  assert (length (imap Orig stops) = length stops) as Hlen by apply length_imap.
  rewrite <- Hlen at 3. rewrite splice_at_end.
  unfold splice. rewrite take_app_length', drop_app_length' by (symmetry; exact Hlen).
  reflexivity.
Qed.

(** After the iteration at the last position every original stop holds its
    own index. *)
Lemma store_after_last stops P D od (st : Search) :
  length (store st) = length stops ->
  store (tryInsertion stops P D od (length stops) (length stops) st)
  = Z.of_nat <$> seq 0 (length stops).
Proof.
  intros Hlen.
  assert (store (tryInsertion stops P D od (length stops) (length stops) st)
          = snd (assignSequences 0 (candidate stops P D (length stops) (length stops))
                   (store st))) as ->.
  { unfold tryInsertion.
    destruct (assignSequences 0 _ (store st)) as [newRoute store'].
    destruct (JSNumber.lt _ _); reflexivity. }
  rewrite candidate_last. apply list_eq. intros i.
  rewrite assignSequences_origs by (repeat constructor).
  rewrite list_lookup_fmap, Hlen.
  destruct (decide _) as [[? ?] | Hnot].
  - rewrite lookup_seq_lt by lia. simpl. f_equal. lia.
  - rewrite lookup_seq_ge by lia. simpl. apply lookup_ge_None. lia.
Qed.

Lemma tryInsertion_store_length stops P D od p d (st : Search) :
  length (store (tryInsertion stops P D od p d st)) = length (store st).
Proof.
  unfold tryInsertion.
  pose proof (assignSequences_length 0 (candidate stops P D p d) (store st)) as Hl.
  destruct (assignSequences 0 _ (store st)) as [newRoute store'].
  destruct (JSNumber.lt _ _); exact Hl.
Qed.

Lemma search_store_length stops P D od (l : list (nat * nat)) (st : Search) :
  length (store (fold_left
                   (fun st pos => tryInsertion stops P D od (fst pos) (snd pos) st) l st))
  = length (store st).
Proof.
  revert st. induction l as [| pos l IH]; intros st; simpl; [reflexivity |].
  rewrite IH. apply tryInsertion_store_length.
Qed.

Lemma positions_last (n : nat) : exists front, positions n = front ++ [(n, n)].
Proof.
  unfold positions. rewrite seq_S, flat_map_app. simpl.
  replace (S n - n)%nat with 1%nat by lia. simpl. eexists. reflexivity.
Qed.

Lemma search_final_store stops P D od (init : Search) :
  length (store init) = length stops ->
  store (searchInsertions stops P D od init) = Z.of_nat <$> seq 0 (length stops).
Proof.
  intros Hlen. rewrite searchInsertions_positions.
  destruct (positions_last (length stops)) as [front ->].
  rewrite fold_left_app. simpl. apply store_after_last.
  rewrite search_store_length. exact Hlen.
Qed.

(** *** The route handed back *)

Lemma sequenced_app (idx : nat) (l1 l2 : list StopRef) :
  sequenced idx (l1 ++ l2) = sequenced idx l1 ++ sequenced (idx + length l1) l2.
Proof.
  revert idx. induction l1 as [| [i s | s] l1 IH]; intros idx; simpl.
  - f_equal. lia.
  - rewrite IH. do 3 f_equal. lia.
  - rewrite IH. do 3 f_equal. lia.
Qed.

Lemma sequenced_origs (idx : nat) (l : list StopRef) :
  Forall isOrig l -> sequenced idx l = l.
Proof.
  intros Hall. revert idx. induction Hall as [| [i s | s] l Hr _ IH]; intros idx;
    [reflexivity | | destruct Hr].
  simpl. rewrite IH. reflexivity.
Qed.

Lemma imap_Orig_origs (l : list Stop) : Forall isOrig (imap Orig l).
Proof.
  apply Forall_forall. intros r Hr.
  apply elem_of_lookup_imap in Hr as (i & x & -> & _). exact I.
Qed.

Lemma splice_splice {A : Type} (p d : nat) (x y : A) (l : list A) :
  (p <= d <= length l)%nat ->
  splice p x (splice d y l) = take p l ++ x :: drop p (take d l) ++ y :: drop d l.
Proof.
  intros Hpd. unfold splice.
  assert (length (take d l) = d) as Hlen by (rewrite length_take; lia).
  rewrite take_app_le, drop_app_le by lia.
  rewrite take_take. replace (p `min` d)%nat with p by lia. reflexivity.
Qed.

Lemma deref_originals (stops : list Stop) :
  deref (Z.of_nat <$> seq 0 (length stops)) <$> imap Orig stops
  = imap (fun i s => setSequence s (Z.of_nat i)) stops.
Proof.
  rewrite fmap_imap. apply imap_ext. intros i x Hi. simpl.
  apply lookup_lt_Some in Hi.
  rewrite list_lookup_fmap, lookup_seq_lt by exact Hi. reflexivity.
Qed.

Lemma resolved_candidate stops P D (p d : nat) :
  (p <= d <= length stops)%nat ->
  deref (Z.of_nat <$> seq 0 (length stops)) <$> sequenced 0 (candidate stops P D p d)
  = returnedRoute stops P D p d.
Proof.
  intros Hpd. unfold candidate, returnedRoute, insertion.
  rewrite !splice_splice by (rewrite length_imap; exact Hpd).
  pose proof (imap_Orig_origs stops) as Horig.
  rewrite sequenced_app. cbn [sequenced].
  rewrite sequenced_app. cbn [sequenced].
  rewrite !sequenced_origs
    by (try apply Forall_take; try apply Forall_drop; try apply Forall_take; exact Horig).
  rewrite !length_take, !length_drop, !length_take, !length_imap.
  rewrite !fmap_app, !fmap_cons, !fmap_app, !fmap_cons.
  rewrite !fmap_take, !fmap_drop, !fmap_take, deref_originals.
  cbn [deref].
  replace (p `min` length stops)%nat with p by lia.
  replace (d `min` length stops)%nat with d by lia.
  replace (S (0 + p) + (d - p))%nat with (S d) by lia.
  reflexivity.
Qed.

Lemma consider_position (od : Q) (k : nat * nat -> Q) (l : list (nat * nat)) acc pos :
  snd (fst (fold_left (consider od k) l acc)) = Some pos ->
  pos ∈ l \/ snd (fst acc) = Some pos.
Proof.
  revert acc. induction l as [| y l IH]; intros acc Hpos; simpl in *; [right; exact Hpos |].
  apply IH in Hpos as [Hin | Hacc]; [left; right; exact Hin |].
  unfold consider in Hacc. destruct (JSNumber.lt _ _); simpl in Hacc.
  - left. injection Hacc as ->. left.
  - right. exact Hacc.
Qed.

(** [calculateDetour] on a non-empty route, in terms of the decision. *)
Lemma calculateDetour_closed_form stops P D :
  stops <> [] ->
  calculateDetour stops P D
  = (let acc :=
       fold_left (consider (calculateRouteDistance stops) (candidateDistance stops P D))
         (positions (length stops)) (JSNumber.PInf, None, 0) in
     {| detourPercentage := fst (fst acc);
        bestRoute := (fun pos => returnedRoute stops P D (fst pos) (snd pos)) <$> snd (fst acc);
        newDistance := snd acc |},
     imap (fun i s => setSequence s (Z.of_nat i)) stops).
Proof.
  intros Hne. destruct stops as [| s0 stops0]; [congruence |].
  set (stops := s0 :: stops0) in *. unfold calculateDetour. fold stops.
  set (init := {| store := sequence <$> stops; minDetour := JSNumber.PInf;
                  best := None; bestDistance := 0 |}).
  assert (length (store init) = length stops) as Hlen by apply length_fmap.
  rewrite (search_final_store stops P D _ init Hlen), deref_originals.
  f_equal.
  assert (decided stops P D init (JSNumber.PInf, None, 0)) as Hinit
      by (repeat split; reflexivity).
  pose proof (search_decided stops P D (calculateRouteDistance stops)
                (positions (length stops)) init _ Hinit) as (Hm & Hb & Hd).
  rewrite <- searchInsertions_positions in Hm, Hb, Hd.
  cbv zeta. rewrite Hm, Hb, Hd. f_equal.
  destruct (snd (fst (fold_left _ _ _))) as [[p d] |] eqn:Epos; [| reflexivity].
  apply consider_position in Epos as [Hin | Hnone]; [| discriminate].
  apply elem_of_positions in Hin.
  cbn [fmap option_fmap option_map fst snd]. f_equal.
  exact (resolved_candidate stops P D p d Hin).
Qed.



Lemma returnedRoute_length stops P D p d :
  length (returnedRoute stops P D p d) = S (S (length stops)).
Proof.
  unfold returnedRoute, insertion, splice.
  rewrite !length_app. cbn [length]. rewrite !length_take, !length_drop.
  rewrite !length_app. cbn [length]. rewrite !length_take, !length_drop, !length_imap.
  lia.
Qed.

(** The decision on a route of positive length: the first position, in the
    order of the loops, of least distance. *)
Lemma decision_positive (od : Q) (k : nat * nat -> Q) (n : nat) :
  0 < od ->
  exists p d,
    (p <= d <= n)%nat
    /\ fold_left (consider od k) (positions n) (JSNumber.PInf, None, 0)
       = (Fin ((k (p, d) - od) / od), Some (p, d), k (p, d))
    /\ (forall p' d', (p' <= d' <= n)%nat -> k (p, d) <= k (p', d'))
    /\ (forall p' d', (p' <= d' <= n)%nat -> k (p', d') == k (p, d) ->
                      lex_le (p, d) (p', d')).
Proof.
  intros Hod. destruct (positions_first n) as [rest Hrest].
  pose proof (positions_sorted n) as Hsorted.
  assert (forall pos, pos ∈ positions n <-> (fst pos <= snd pos <= n)%nat) as Hin
      by (intros [p d]; apply elem_of_positions).
  rewrite Hrest in *. cbn [fold_left].
  replace (consider od k (JSNumber.PInf, None, 0) (0, 0)%nat)
    with (Fin ((k (0, 0)%nat - od) / od), Some (0, 0)%nat, k (0, 0)%nat)
    by (unfold consider; rewrite (detour_positive od _ Hod); reflexivity).
  destruct (consider_first_minimum od k Hod rest [] (0, 0)%nat [])
    as (before & [p d] & after & E & Hfold & Hbefore & Hafter);
    [intros y Hy; inversion Hy | intros y Hy; inversion Hy |].
  simpl in E. rewrite E in *.
  exists p, d. split; [| split; [exact Hfold | split]].
  - apply (Hin (p, d)). apply elem_of_app. right. left.
  - intros p' d' Hvalid. apply (Hin (p', d')) in Hvalid.
    apply elem_of_app in Hvalid as [Hb | Ha].
    + specialize (Hbefore _ Hb). lra.
    + apply elem_of_cons in Ha as [-> | Ha]; [lra | apply Hafter, Ha].
  - intros p' d' Hvalid Htie. apply (Hin (p', d')) in Hvalid.
    apply elem_of_app in Hvalid as [Hb | Ha].
    + specialize (Hbefore _ Hb). lra.
    + apply elem_of_cons in Ha as [E' | Ha].
      * injection E' as -> ->. right. simpl. split; [reflexivity | lia].
      * apply StronglySorted_app in Hsorted as (_ & _ & Hs).
        apply StronglySorted_cons in Hs as [Hall _].
        rewrite Forall_forall in Hall. specialize (Hall _ Ha).
        destruct Hall as [Hlt | [Heq Hlt]]; [left; exact Hlt |].
        right. split; [exact Heq | simpl in *; lia].
Qed.

(** *** Independence of the sequence numbers found in the input *)





Lemma calculateDetour_leaves (stops : list Stop) P D :
  snd (calculateDetour stops P D) = imap (fun i s => setSequence s (Z.of_nat i)) stops.
Proof.
  destruct stops as [| s l]; [reflexivity |].
  rewrite calculateDetour_closed_form by discriminate. reflexivity.
Qed.



(** C10.  On a non-empty stop list of total distance 0 every candidate's
    detour is a division by zero, Infinity or NaN, which is not less than
    the initial Infinity; [calculateDetour] returns [bestRoute = null],
    [newDistance = 0] and [detourPercentage = Infinity]. *)
Theorem calculateDetour_zero_distance stops newPickup newDropoff :
  stops <> [] -> calculateRouteDistance stops == 0 ->
  (forall pos,
      JSNumber.isFinite
        (detourOf (calculateRouteDistance stops)
           (candidateDistance stops newPickup newDropoff pos)) = false
      /\ JSNumber.lt
           (detourOf (calculateRouteDistance stops)
              (candidateDistance stops newPickup newDropoff pos))
           JSNumber.PInf = false)
  /\ fst (calculateDetour stops newPickup newDropoff)
     = {| detourPercentage := JSNumber.PInf; bestRoute := None; newDistance := 0 |}.
Proof.
  intros Hne Hzero. split.
  - intros pos. unfold detourOf.
    cbn [JSNumber.sub JSNumber.neg JSNumber.add JSNumber.div].
    assert ((calculateRouteDistance stops ?= 0) = Eq) as -> by (apply Qeq_alt; exact Hzero).
    unfold JSNumber.scale_inf.
    destruct (_ ?= 0) eqn:E; try (split; reflexivity).
    apply Qlt_alt in E.
    pose proof (calculateRouteDistance_nonneg
                  (insertion stops (newStop pickup newPickup (fst pos))
                     (newStop dropoff newDropoff (snd pos)) (fst pos) (snd pos))) as Hk.
    fold (candidateDistance stops newPickup newDropoff pos) in Hk. lra.
  - rewrite calculateDetour_closed_form by exact Hne.
    cbv zeta. rewrite consider_zero_distance; [reflexivity | exact Hzero |].
    intros pos. apply calculateRouteDistance_nonneg.
Qed.

End DetourProofs.

Section DetourWitnesses.
Import DistanceCalculator Insertion.


Lemma calculateDetour_zero_distance_witness :
  Sample.routeNowhere <> []
  /\ calculateRouteDistance (H := Sample.grid) Sample.routeNowhere == 0
  /\ fst (calculateDetour (H := Sample.grid) Sample.routeNowhere
            Sample.airport Sample.downtown)
     = {| detourPercentage := JSNumber.PInf; bestRoute := None; newDistance := 0 |}.
Proof.
  assert (H1 : Sample.routeNowhere <> []) by discriminate.
  assert (H2 : calculateRouteDistance (H := Sample.grid) Sample.routeNowhere == 0)
    by (vm_compute; reflexivity).
  split; [exact H1 |]. split; [exact H2 |].
  exact (proj2 (calculateDetour_zero_distance (H := Sample.grid) Sample.routeNowhere
                  Sample.airport Sample.downtown H1 H2)).
Defined.

End DetourWitnesses.


(** ** The matching engine *)

Section EngineProofs.
Context `{Geolib}.
Import MatchingEngine.

Lemma find_after_filter (userId : ObjectId) (l : list Passenger.t) :
  List.find (fun p => String.eqb (Passenger.userId p) userId)
    (List.filter (fun p => negb (String.eqb (Passenger.userId p) userId)) l) = None.
Proof.
  induction l as [| p l IH]; simpl; [reflexivity |].
  destruct (String.eqb (Passenger.userId p) userId) eqn:E; simpl; [exact IH |].
  rewrite E. exact IH.
Qed.

Lemma removePassenger_true (pool pool' : RidePool.t) (userId : ObjectId) :
  RidePool.removePassenger pool userId = (pool', true) ->
  exists passenger,
    List.find (fun p => String.eqb (Passenger.userId p) userId) (RidePool.passengers pool)
    = Some passenger
    /\ RidePool.passengers pool'
       = List.filter (fun p => negb (String.eqb (Passenger.userId p) userId))
           (RidePool.passengers pool)
    /\ RidePool.currentOccupancy pool'
       = {| RidePool.seats :=
              (RidePool.seats (RidePool.currentOccupancy pool)
               - Passenger.passengerCount passenger)%Z;
            RidePool.luggage :=
              (RidePool.luggage (RidePool.currentOccupancy pool)
               - Passenger.luggageCount passenger)%Z |}
    /\ RidePool.vehicle pool' = RidePool.vehicle pool
    /\ RidePool._id pool' = RidePool._id pool
    /\ RidePool.status pool' = RidePool.status pool.
Proof.
  unfold RidePool.removePassenger.
  destruct (List.find _ _) as [passenger |] eqn:Efind; [| discriminate].
  intros E. injection E as <-. exists passenger. repeat split; reflexivity.
Qed.

(** A returning run of the body of [cancelRide]. *)
Lemma cancelRide_try_Return (env : Env) (userId poolId : ObjectId) (w w' : World)
    (result : CancelResult) :
  cancelRide_try env userId poolId w = (Return result, w') ->
  exists found,
    pools w !! poolId = Some found
    /\ snd (RidePool.removePassenger found userId) = true
    /\ cr_success result = true
    /\ cr_pool result = cancelledFrom env userId found
    /\ w' = {| pools := <[RidePool._id found := cr_pool result]> (pools w);
               requests := requests w; redis := redis w |}.
Proof.
  unfold cancelRide_try, bind, RidePool_findById. cbn beta iota.
  destruct (pools w !! poolId) as [found |] eqn:Efound; [| discriminate].
  unfold cancelledFrom.
  destruct (RidePool.removePassenger found userId) as [removed ok] eqn:Erem.
  destruct ok; cbn [negb fst]; [| discriminate].
  destruct (removePassenger_true _ _ _ Erem) as (passenger & _ & Hps & _ & _ & Hid & _).
  intros Hrun. exists found. rewrite Erem. cbn [fst snd].
  split; [reflexivity |]. split; [reflexivity |].
  destruct (RidePool.passengers removed) as [| e rest] eqn:Eps.
  - unfold ret, RidePool_save in Hrun. simpl in Hrun. rewrite Eps in Hrun.
    simpl in Hrun. injection Hrun as <- <-.
    cbn [cr_pool cr_success]. rewrite Hid. repeat split; reflexivity.
  - destruct (negb (forallb _ _)); [discriminate |].
    unfold ret, RidePool_save in Hrun. simpl in Hrun.
    rewrite Eps, Hps, find_after_filter in Hrun.
    injection Hrun as <- <-.
    cbn [cr_pool cr_success]. rewrite Hid. repeat split; reflexivity.
Qed.

(** *** The lock *)

Lemma acquireLock_held (env : Env) (key holder : string) (w : World) :
  Redis.keys (redis w) !! key = Some holder ->
  acquireLock env key w
  = (Throw (lockFailure key), refused env key w).
Proof.
  intros Hheld. unfold acquireLock, Redis.set_px_nx. rewrite Hheld. reflexivity.
Qed.

Lemma acquireLock_free (env : Env) (key : string) (w : World) :
  Redis.keys (redis w) !! key = None ->
  acquireLock env key w
  = (Return (uuid env),
     {| pools := pools w; requests := requests w;
        redis := {| Redis.keys := <[key := uuid env]> (Redis.keys (redis w));
                    Redis.received :=
                      Redis.SET_PX_NX key (uuid env) (Config.LOCK_TIMEOUT_MS (config env))
                      :: Redis.received (redis w) |} |}).
Proof.
  intros Hfree. unfold acquireLock, Redis.set_px_nx. rewrite Hfree. reflexivity.
Qed.

Lemma acquireLock_Return (env : Env) (key : string) (w w' : World) (v : string) :
  acquireLock env key w = (Return v, w') -> Redis.keys (redis w) !! key = None.
Proof.
  intros Hrun. destruct (Redis.keys (redis w) !! key) as [holder |] eqn:E; [| reflexivity].
  rewrite (acquireLock_held env key holder w E) in Hrun. discriminate.
Qed.

Lemma acquisitions_refused (env : Env) (key : string) (w : World) :
  Redis.acquisitions key (redis (refused env key w))
  = S (Redis.acquisitions key (redis w)).
Proof.
  unfold Redis.acquisitions, refused. cbn [redis Redis.received List.filter].
  rewrite String.eqb_refl. reflexivity.
Qed.

(** Taking and releasing a free lock leaves the keys as they were. *)
Lemma release_after_acquire (key value : string) (keys : gmap string string) :
  keys !! key = None -> delete key (<[key := value]> keys) = keys.
Proof. intros Hfree. rewrite delete_insert_eq. apply delete_id. exact Hfree. Qed.

Lemma cancelRide_held (env : Env) (userId poolId : ObjectId) (holder : string) (w : World) :
  Redis.keys (redis w) !! lockKeyOf poolId = Some holder ->
  cancelRide env userId poolId w
  = (Throw (lockFailure (lockKeyOf poolId)),
     refused env (lockKeyOf poolId) w).
Proof.
  intros Hheld. unfold cancelRide, bind.
  rewrite (acquireLock_held env _ holder w Hheld). reflexivity.
Qed.

Lemma processRideRequest_held (env : Env) (rideRequest : RideRequest.t)
    (nearbyPools : list RidePool.t) (matchedPool : PoolData) (holder : string) (w : World) :
  findNearbyPools env (RideRequest.pickupLocation rideRequest)
    (RideRequest.passengers rideRequest) (RideRequest.luggage rideRequest) w
  = (Return nearbyPools, w) ->
  findBestMatch rideRequest nearbyPools = Some matchedPool ->
  Redis.keys (redis w) !! lockKeyOf (RidePool._id (pool matchedPool)) = Some holder ->
  processRideRequest env rideRequest w
  = (Throw (lockFailure (lockKeyOf (RidePool._id (pool matchedPool)))),
     refused env (lockKeyOf (RidePool._id (pool matchedPool))) w).
Proof.
  intros Hnear Hmatch Hheld. unfold processRideRequest, bind.
  rewrite Hnear, Hmatch. rewrite (acquireLock_held env _ holder w Hheld). reflexivity.
Qed.

(** A returning [cancelRide]. *)
Lemma cancelRide_Return (env : Env) (userId poolId : ObjectId) (w w' : World)
    (result : CancelResult) :
  cancelRide env userId poolId w = (Return result, w') ->
  exists found,
    Redis.keys (redis w) !! lockKeyOf poolId = None
    /\ pools w !! poolId = Some found
    /\ snd (RidePool.removePassenger found userId) = true
    /\ cr_pool result = cancelledFrom env userId found
    /\ pools w' = <[RidePool._id found := cr_pool result]> (pools w)
    /\ requests w' = requests w
    /\ Redis.keys (redis w') = Redis.keys (redis w).
Proof.
  unfold cancelRide, bind.
  destruct (acquireLock env (lockKeyOf poolId) w) as [[lockValue | e] w1] eqn:Eacq;
    [| discriminate].
  pose proof (acquireLock_Return _ _ _ _ _ Eacq) as Hfree.
  rewrite (acquireLock_free env _ w Hfree) in Eacq. injection Eacq as <- <-.
  unfold try_finally.
  destruct (cancelRide_try env userId poolId _) as [o w2] eqn:Etry.
  unfold releaseLock, Redis.eval_compare_and_delete.
  intros Hrun.
  assert (o = Return result) as -> by
      (destruct (Redis.keys (redis w2) !! lockKeyOf poolId) as [v |];
       [destruct (String.eqb v (uuid env)) |]; congruence).
  apply cancelRide_try_Return in Etry as (found & Hfound & Hrem & _ & Hpool & ->).
  cbn [pools requests redis Redis.keys] in *.
  rewrite lookup_insert_eq, String.eqb_refl in Hrun. injection Hrun as <-.
  exists found. cbn [pools requests redis Redis.keys].
  rewrite release_after_acquire by exact Hfree.
  repeat split; assumption || reflexivity.
Qed.

Lemma cancelledFrom_sole (env : Env) (userId : ObjectId) (found : RidePool.t)
    (passenger : Passenger.t) :
  RidePool.passengers found = [passenger] ->
  Passenger.userId passenger = userId ->
  cancelledFrom env userId found
  = RidePool.preSave false
      (RidePool.set_cancelled (now env) "All passengers cancelled"
         (fst (RidePool.removePassenger found userId)))
  /\ RidePool.removePassenger found userId
     = (RidePool.set_passengers []
          (RidePool.set_currentOccupancy
             {| RidePool.seats :=
                  (RidePool.seats (RidePool.currentOccupancy found)
                   - Passenger.passengerCount passenger)%Z;
                RidePool.luggage :=
                  (RidePool.luggage (RidePool.currentOccupancy found)
                   - Passenger.luggageCount passenger)%Z |}
             found),
        true).
Proof.
  intros Hps Hu.
  assert (RidePool.removePassenger found userId
          = (RidePool.set_passengers []
               (RidePool.set_currentOccupancy
                  {| RidePool.seats :=
                       (RidePool.seats (RidePool.currentOccupancy found)
                        - Passenger.passengerCount passenger)%Z;
                     RidePool.luggage :=
                       (RidePool.luggage (RidePool.currentOccupancy found)
                        - Passenger.luggageCount passenger)%Z |}
                  found),
             true)) as Hrem.
  { unfold RidePool.removePassenger. rewrite Hps. cbn [List.find].
    rewrite Hu, String.eqb_refl.
    cbn [RidePool.passengers RidePool.set_currentOccupancy List.filter].
    rewrite Hps. cbn [List.filter]. rewrite Hu, String.eqb_refl. reflexivity. }
  split; [| exact Hrem].
  unfold cancelledFrom. rewrite Hrem. reflexivity.
Qed.

(** A run of [cancelRide] that finds the lock free, the pool and the
    passenger, and either empties the pool or finds a passenger id on
    every stop, returns. *)
Lemma cancelRide_returns (env : Env) (userId poolId : ObjectId) (w : World)
    (found : RidePool.t) :
  Redis.keys (redis w) !! lockKeyOf poolId = None ->
  pools w !! poolId = Some found ->
  snd (RidePool.removePassenger found userId) = true ->
  (RidePool.passengers (fst (RidePool.removePassenger found userId)) = []
   \/ forallb (fun stop => bool_decide (is_Some (passengerId stop)))
        (RidePool.stops (RidePool.route found)) = true) ->
  exists result w', cancelRide env userId poolId w = (Return result, w').
Proof.
  intros Hfree Hfound Hrem Hstops. unfold cancelRide, bind.
  rewrite (acquireLock_free env _ w Hfree). unfold try_finally.
  assert (exists result w2,
             cancelRide_try env userId poolId
               {| pools := pools w; requests := requests w;
                  redis := {| Redis.keys := <[lockKeyOf poolId := uuid env]> (Redis.keys (redis w));
                              Redis.received :=
                                Redis.SET_PX_NX (lockKeyOf poolId) (uuid env)
                                  (Config.LOCK_TIMEOUT_MS (config env))
                                :: Redis.received (redis w) |} |}
             = (Return result, w2)) as (result & w2 & ->).
  { unfold cancelRide_try, bind, RidePool_findById. cbn [pools]. rewrite Hfound.
    destruct (RidePool.removePassenger found userId) as [removed ok] eqn:Erem.
    cbn [snd fst] in *. subst ok. cbn [negb].
    destruct (removePassenger_true _ _ _ Erem) as (passenger & _ & Hps & _ & _ & _ & _).
    assert (RidePool.stops (RidePool.route removed) = RidePool.stops (RidePool.route found))
      as Hroute.
    { unfold RidePool.removePassenger in Erem.
      destruct (List.find _ _); [| discriminate]. injection Erem as <-. reflexivity. }
    destruct (RidePool.passengers removed) as [| e rest] eqn:Eps.
    - unfold ret, RidePool_save. simpl. rewrite Eps. simpl. eauto.
    - destruct Hstops as [Hnil | Hall]; [discriminate |].
      rewrite Hroute, Hall. cbn [negb].
      unfold ret, RidePool_save. simpl.
      rewrite Eps, Hps, find_after_filter. eauto. }
  unfold releaseLock.
  destruct (Redis.eval_compare_and_delete _ _ _). eauto.
Qed.

(** C7.  For a pool whose only passenger entry is that of the user and whose
    occupancy is that entry's seat and luggage counts, a successful
    [cancelRide] by the user leaves the stored pool with status [cancelled],
    no passenger and occupancy 0 seats and 0 luggage; the call succeeds
    whenever the lock of the pool is free. *)
Theorem cancelRide_sole_passenger (env : Env) (w : World) (userId poolId : ObjectId)
    (found : RidePool.t) (passenger : Passenger.t) :
  pools w !! poolId = Some found ->
  RidePool._id found = poolId ->
  RidePool.passengers found = [passenger] ->
  Passenger.userId passenger = userId ->
  RidePool.currentOccupancy found
  = {| RidePool.seats := Passenger.passengerCount passenger;
       RidePool.luggage := Passenger.luggageCount passenger |} ->
  (Redis.keys (redis w) !! lockKeyOf poolId = None ->
   exists result w', cancelRide env userId poolId w = (Return result, w'))
  /\ (forall result w',
        cancelRide env userId poolId w = (Return result, w') ->
        RidePool.status (cr_pool result) = RidePool.cancelled
        /\ RidePool.currentOccupancy (cr_pool result)
           = {| RidePool.seats := 0; RidePool.luggage := 0 |}
        /\ RidePool.passengers (cr_pool result) = []
        /\ pools w' !! poolId = Some (cr_pool result)).
Proof.
  intros Hfound Hid Hps Hu Hocc.
  destruct (cancelledFrom_sole env userId found passenger Hps Hu) as [Hcancelled Hrem].
  split.
  - intros Hfree. apply (cancelRide_returns env userId poolId w found Hfree Hfound).
    + rewrite Hrem. reflexivity.
    + left. rewrite Hrem. reflexivity.
  - intros result w' Hrun.
    apply cancelRide_Return in Hrun
      as (found' & _ & Hfound' & _ & Hpool & Hpools & _).
    rewrite Hfound in Hfound'. injection Hfound' as <-.
    rewrite Hcancelled, Hrem in Hpool. cbn [fst] in Hpool.
    rewrite Hpools, Hid, lookup_insert_eq, Hpool.
    cbn. rewrite Hocc. cbn.
    rewrite !Z.sub_diag. repeat split; reflexivity.
Qed.

(** C9.  A successful [cancelRide] leaves the request collection as it was,
    the request of the cancelled passenger included: the passenger is looked
    up in the pool after the removal, is not found, and no update is issued.
    Of the pools only the one cancelled from is written, and the lock is
    gone again. *)
Theorem cancelRide_leaves_request (env : Env) (w w' : World) (userId poolId : ObjectId)
    (result : CancelResult) :
  cancelRide env userId poolId w = (Return result, w') ->
  requests w' = requests w
  /\ List.find (fun p => String.eqb (Passenger.userId p) userId)
       (RidePool.passengers (cr_pool result)) = None
  /\ (exists passenger found,
        pools w !! poolId = Some found
        /\ List.find (fun p => String.eqb (Passenger.userId p) userId)
             (RidePool.passengers found) = Some passenger
        /\ requests w' !! Passenger.requestId passenger
           = requests w !! Passenger.requestId passenger)
  /\ (forall id, id <> RidePool._id (cr_pool result) -> pools w' !! id = pools w !! id)
  /\ Redis.keys (redis w') = Redis.keys (redis w).
Proof.
  intros Hrun.
  apply cancelRide_Return in Hrun
    as (found & _ & Hfound & Hrem & Hpool & Hpools & Hreq & Hkeys).
  destruct (RidePool.removePassenger found userId) as [removed ok] eqn:Erem.
  cbn [snd] in Hrem. subst ok.
  destruct (removePassenger_true _ _ _ Erem) as (passenger & Hfind & Hps & _ & _ & Hid & _).
  assert (RidePool.passengers (cr_pool result) = RidePool.passengers removed) as Hsame.
  { rewrite Hpool. unfold cancelledFrom. rewrite Erem. cbn [fst].
    destruct (RidePool.passengers removed) eqn:E; cbn; exact E. }
  assert (RidePool._id (cr_pool result) = RidePool._id found) as Hid'.
  { rewrite Hpool. unfold cancelledFrom. rewrite Erem. cbn [fst].
    destruct (RidePool.passengers removed); exact Hid. }
  split; [exact Hreq |]. split; [rewrite Hsame, Hps; apply find_after_filter |].
  split; [exists passenger, found; rewrite Hreq; repeat split; assumption |].
  split; [| exact Hkeys].
  intros id Hne. rewrite Hpools. apply lookup_insert_ne. congruence.
Qed.

(** *** The capacity invariant *)

Lemma createNewPool_outcome (env : Env) (r : RideRequest.t) (w w' : World)
    (o : Outcome RidePool.t) :
  createNewPool env r w = (o, w') ->
  (exists e, o = Throw e /\ w' = w)
  \/ exists created,
      o = Return created
      /\ pools w' = <[newPoolId env := created]> (pools w)
      /\ RidePool._id created = newPoolId env
      /\ RidePool.currentOccupancy created
         = {| RidePool.seats := RideRequest.passengers r;
              RidePool.luggage := RideRequest.luggage r |}
      /\ RidePool.capacity (RidePool.vehicle created) = Config.MAX_POOL_SIZE (config env)
      /\ RidePool.luggageCapacity (RidePool.vehicle created)
         = Config.MAX_LUGGAGE_PER_CAB (config env)
      /\ exists price, RidePool.passengers created = [passengerOf r price].
Proof.
  unfold createNewPool, bind, RidePool_save. cbn [RidePool.preSave RidePool._id andb].
  destruct (bool_decide (is_Some (pools w !! newPoolId env))).
  - intros E. injection E as <- <-. left. eauto.
  - unfold RideRequest_findByIdAndUpdate, ret. cbn [requests pools].
    destruct (requests w !! RideRequest._id r); intros E; injection E as <- <-;
      right; eexists; cbn [pools]; repeat split; eauto.
Qed.

Lemma passengerOf_counts (r : RideRequest.t) (price : JSNum) :
  RideRequest.valid r ->
  (0 <= Passenger.passengerCount (passengerOf r price))%Z
  /\ (0 <= Passenger.luggageCount (passengerOf r price))%Z.
Proof. intros (Hp & Hl & _). simpl. lia. Qed.

Lemma createNewPool_sound (env : Env) (r : RideRequest.t) (w w' : World)
    (created : RidePool.t) :
  createNewPool env r w = (Return created, w') ->
  RideRequest.valid r -> fitsCab (config env) r ->
  soundPool created /\ pools w' !! RidePool._id created = Some created.
Proof.
  intros Hrun Hvalid [Hfp Hfl].
  apply createNewPool_outcome in Hrun
    as [(e & E & _) | (created' & E & Hpools & Hid & Hocc & Hcap & Hlug & price & Hps)];
    [discriminate |].
  injection E as <-. split; [| rewrite Hpools, Hid; apply lookup_insert_eq].
  split.
  - unfold withinCapacity. rewrite Hocc, Hcap, Hlug. cbn. split; assumption.
  - unfold countsNonneg. rewrite Hps. constructor; [| constructor].
    apply passengerOf_counts, Hvalid.
Qed.

Lemma addToExistingPool_outcome (env : Env) (poolData : PoolData) (r : RideRequest.t)
    (w w' : World) (o : Outcome JoinResult) :
  addToExistingPool env poolData r w = (o, w') ->
  exists result,
    o = Return result
    /\ ((success result = false /\ w' = w)
        \/ (success result = true
            /\ exists found saved price,
                pools w !! RidePool._id (pool poolData) = Some found
                /\ RidePool.canAccommodate found (RideRequest.passengers r)
                     (RideRequest.luggage r) = true
                /\ pools w' = <[RidePool._id found := saved]> (pools w)
                /\ RidePool._id saved = RidePool._id found
                /\ RidePool.vehicle saved = RidePool.vehicle found
                /\ RidePool.currentOccupancy saved
                   = {| RidePool.seats :=
                          (RidePool.seats (RidePool.currentOccupancy found)
                           + RideRequest.passengers r)%Z;
                        RidePool.luggage :=
                          (RidePool.luggage (RidePool.currentOccupancy found)
                           + RideRequest.luggage r)%Z |}
                /\ RidePool.passengers saved
                   = RidePool.passengers found ++ [passengerOf r price])).
Proof.
  unfold addToExistingPool, try_catch, addToExistingPool_try, bind, RidePool_findById.
  destruct (pools w !! RidePool._id (pool poolData)) as [found |] eqn:Efound.
  2: { intros E. injection E as <- <-. eexists. split; [reflexivity |]. left. eauto. }
  destruct (RidePool.canAccommodate found _ _) eqn:Ecan; cbn [negb].
  2: { intros E. injection E as <- <-. eexists. split; [reflexivity |]. left. eauto. }
  destruct (DistanceCalculator.bestRoute (calculatedDetour poolData)) as [bestRoute |].
  2: { intros E. injection E as <- <-. eexists. split; [reflexivity |]. left. eauto. }
  unfold RidePool_save, RideRequest_findByIdAndUpdate, ret. cbn [andb requests pools].
  set (price := PricingEngine.calculatePassengerPrice _ _ _ _ _ _).
  destruct ((2 <=? length _)%nat && _);
    destruct (requests w !! RideRequest._id r); intros E; injection E as <- <-;
    (eexists; split; [reflexivity |]; right; split; [reflexivity |];
     exists found; eexists; exists price; cbn [pools];
     split; [reflexivity |]; split; [exact Ecan |];
     split; [reflexivity |]; repeat split; reflexivity).
Qed.

Lemma canAccommodate_within (found : RidePool.t) (passengers luggage : Z) :
  RidePool.canAccommodate found passengers luggage = true ->
  (RidePool.seats (RidePool.currentOccupancy found) + passengers
   <= RidePool.capacity (RidePool.vehicle found))%Z
  /\ (RidePool.luggage (RidePool.currentOccupancy found) + luggage
      <= RidePool.luggageCapacity (RidePool.vehicle found))%Z.
Proof.
  unfold RidePool.canAccommodate. intros E.
  apply andb_prop in E as [E1 E2]. split; apply Z.leb_le; assumption.
Qed.

Lemma cancelRide_try_Throw (env : Env) (userId poolId : ObjectId) (w w' : World)
    (e : string) :
  cancelRide_try env userId poolId w = (Throw e, w') -> w' = w.
Proof.
  unfold cancelRide_try, bind, RidePool_findById.
  destruct (pools w !! poolId) as [found |]; [| intros E; injection E as _ <-; reflexivity].
  destruct (RidePool.removePassenger found userId) as [removed ok] eqn:Erem.
  destruct ok; cbn [negb]; [| intros E; injection E as _ <-; reflexivity].
  destruct (removePassenger_true _ _ _ Erem) as (passenger & _ & Hps & _).
  destruct (RidePool.passengers removed) as [| p rest] eqn:Eps.
  - unfold ret, RidePool_save. simpl. rewrite Eps. simpl. discriminate.
  - destruct (negb (forallb _ _)); [intros E; injection E as _ <-; reflexivity |].
    unfold ret, RidePool_save. simpl. rewrite Eps, Hps, find_after_filter. discriminate.
Qed.

Lemma cancelRide_Throw (env : Env) (userId poolId : ObjectId) (w w' : World) (e : string) :
  cancelRide env userId poolId w = (Throw e, w') ->
  pools w' = pools w /\ requests w' = requests w.
Proof.
  unfold cancelRide, bind.
  destruct (Redis.keys (redis w) !! lockKeyOf poolId) as [holder |] eqn:Ekey.
  - rewrite (acquireLock_held env _ holder w Ekey). intros E. injection E as _ <-.
    split; reflexivity.
  - rewrite (acquireLock_free env _ w Ekey). unfold try_finally.
    destruct (cancelRide_try env userId poolId _) as [[result | e'] w2] eqn:Etry.
    + unfold releaseLock. destruct (Redis.eval_compare_and_delete _ _ _). discriminate.
    + apply cancelRide_try_Throw in Etry as ->.
      unfold releaseLock. destruct (Redis.eval_compare_and_delete _ _ _).
      intros E. injection E as _ <-. split; reflexivity.
Qed.

Lemma cancelledFrom_sound (env : Env) (userId : ObjectId) (found : RidePool.t) :
  snd (RidePool.removePassenger found userId) = true ->
  soundPool found -> soundPool (cancelledFrom env userId found).
Proof.
  intros Hrem [[Hseats Hlug] Hcounts].
  destruct (RidePool.removePassenger found userId) as [removed ok] eqn:Erem.
  cbn [snd] in Hrem. subst ok.
  destruct (removePassenger_true _ _ _ Erem)
    as (passenger & Hfind & Hps & Hocc & Hveh & _ & _).
  apply find_some in Hfind as [Hin _].
  unfold countsNonneg in Hcounts. rewrite Forall_forall in Hcounts.
  pose proof (Hcounts passenger (proj2 (list_elem_of_In _ _) Hin)) as [Hp Hl].
  assert (RidePool.currentOccupancy (cancelledFrom env userId found)
          = RidePool.currentOccupancy removed
          /\ RidePool.vehicle (cancelledFrom env userId found) = RidePool.vehicle removed
          /\ RidePool.passengers (cancelledFrom env userId found)
             = RidePool.passengers removed) as (Eocc & Eveh & Eps).
  { unfold cancelledFrom. rewrite Erem. cbn [fst].
    destruct (RidePool.passengers removed) eqn:E; cbn; rewrite ?E; repeat split; reflexivity. }
  split.
  - unfold withinCapacity. rewrite Eocc, Eveh, Hocc, Hveh. cbn. lia.
  - unfold countsNonneg. rewrite Eps, Hps. apply Forall_forall. intros p Hp'.
    apply Hcounts. apply list_elem_of_In. apply list_elem_of_In in Hp'.
    apply filter_In in Hp' as [Hp' _]. exact Hp'.
Qed.

Lemma poolsSound_insert (w : World) (m : gmap ObjectId RidePool.t) (id : ObjectId)
    (p : RidePool.t) :
  poolsSound w -> soundPool p -> m = <[id := p]> (pools w) ->
  forall id' p', m !! id' = Some p' -> soundPool p'.
Proof.
  intros Hw Hp -> id' p' Hlook.
  destruct (decide (id = id')) as [-> | Hne].
  - rewrite lookup_insert_eq in Hlook. injection Hlook as <-. exact Hp.
  - rewrite lookup_insert_ne in Hlook by exact Hne. exact (Hw _ _ Hlook).
Qed.


Lemma addToExistingPool_preserves (env : Env) (poolData : PoolData) (r : RideRequest.t)
    (w w' : World) (o : Outcome JoinResult) :
  addToExistingPool env poolData r w = (o, w') ->
  RideRequest.valid r -> poolsSound w -> poolsSound w'.
Proof.
  intros Hrun Hvalid Hw.
  apply addToExistingPool_outcome in Hrun
    as (result & _ & [[_ ->] | (_ & found & saved & price & Hfound & Hcan & Hpools & _
                                 & Hveh & Hocc & Hps)]);
    [exact Hw |].
  apply canAccommodate_within in Hcan as [Hs Hl].
  destruct (Hw _ _ Hfound) as [_ Hcounts].
  refine (poolsSound_insert w _ _ saved Hw _ Hpools). split.
  - unfold withinCapacity. rewrite Hocc, Hveh. cbn. split; assumption.
  - unfold countsNonneg. rewrite Hps. apply Forall_app. split; [exact Hcounts |].
    constructor; [| constructor]. apply passengerOf_counts, Hvalid.
Qed.

Lemma cancelRide_preserves (env : Env) (userId poolId : ObjectId) (w w' : World)
    (o : Outcome CancelResult) :
  cancelRide env userId poolId w = (o, w') -> poolsSound w -> poolsSound w'.
Proof.
  intros Hrun Hw. destruct o as [result | e].
  - apply cancelRide_Return in Hrun as (found & _ & Hfound & Hrem & Hpool & Hpools & _).
    refine (poolsSound_insert w _ _ (cr_pool result) Hw _ Hpools).
    rewrite Hpool. apply cancelledFrom_sound; [exact Hrem | exact (Hw _ _ Hfound)].
  - apply cancelRide_Throw in Hrun as [Hpools _].
    intros id p Hp. rewrite Hpools in Hp. exact (Hw _ _ Hp).
Qed.



(** C8 (amended).  When the lock of a key is held, [acquireLock] sends one
    [SET ... NX], then throws "Failed to acquire lock for <key>": there is
    no retry.  The error leaves [cancelRide] and [processRideRequest], which
    end with it; pools, requests and the lock are as before. *)
Theorem acquireLock_refused (env : Env) (key holder : string) (w : World) :
  Redis.keys (redis w) !! key = Some holder ->
  acquireLock env key w = (Throw (lockFailure key), refused env key w)
  /\ Redis.acquisitions key (redis (refused env key w))
     = S (Redis.acquisitions key (redis w))
  /\ pools (refused env key w) = pools w
  /\ requests (refused env key w) = requests w
  /\ Redis.keys (redis (refused env key w)) = Redis.keys (redis w)
  /\ (forall userId poolId,
         key = lockKeyOf poolId ->
         cancelRide env userId poolId w = (Throw (lockFailure key), refused env key w))
  /\ (forall rideRequest nearbyPools matchedPool,
         findNearbyPools env (RideRequest.pickupLocation rideRequest)
           (RideRequest.passengers rideRequest) (RideRequest.luggage rideRequest) w
         = (Return nearbyPools, w) ->
         findBestMatch rideRequest nearbyPools = Some matchedPool ->
         key = lockKeyOf (RidePool._id (pool matchedPool)) ->
         processRideRequest env rideRequest w
         = (Throw (lockFailure key), refused env key w)).
Proof.
  intros Hheld.
  split; [exact (acquireLock_held env key holder w Hheld) |].
  split; [apply acquisitions_refused |].
  do 3 (split; [reflexivity |]).
  split.
  - intros userId poolId ->. exact (cancelRide_held env userId poolId holder w Hheld).
  - intros rideRequest nearbyPools matchedPool Hnear Hmatch ->.
    exact (processRideRequest_held env rideRequest nearbyPools matchedPool holder w
             Hnear Hmatch Hheld).
Qed.

End EngineProofs.

Section EngineWitnesses.
Import MatchingEngine Sample.

(** The sample worlds are what the engine makes of the sample requests. *)
Lemma sample_createNewPool :
  createNewPool (H := grid) env1 requestA emptyWorld = (Return poolA, worldA).
Proof. vm_compute. reflexivity. Qed.

Lemma sample_cancelRide :
  cancelRide (H := grid) env1 "user-a" "pool-1" worldA
  = (Return cancelResultA, worldACancelled).
Proof. vm_compute. reflexivity. Qed.

Lemma sample_valid_requestA : RideRequest.valid requestA.
Proof. repeat split; vm_compute; discriminate. Qed.



Lemma cancelRide_sole_passenger_witness :
  pools worldA !! "pool-1"%string = Some poolA
  /\ RidePool.passengers poolA = [passengerOf requestA priceA]
  /\ cancelRide (H := grid) env1 "user-a" "pool-1" worldA
     = (Return cancelResultA, worldACancelled)
  /\ RidePool.status (cr_pool cancelResultA) = RidePool.cancelled
  /\ RidePool.currentOccupancy (cr_pool cancelResultA)
     = {| RidePool.seats := 0; RidePool.luggage := 0 |}.
Proof.
  assert (H1 : pools worldA !! "pool-1"%string = Some poolA) by (vm_compute; reflexivity).
  assert (H2 : RidePool._id poolA = "pool-1"%string) by reflexivity.
  assert (H3 : RidePool.passengers poolA = [passengerOf requestA priceA]) by reflexivity.
  assert (H4 : Passenger.userId (passengerOf requestA priceA) = "user-a"%string)
    by reflexivity.
  assert (H5 : RidePool.currentOccupancy poolA
               = {| RidePool.seats :=
                      Passenger.passengerCount (passengerOf requestA priceA);
                    RidePool.luggage :=
                      Passenger.luggageCount (passengerOf requestA priceA) |})
    by reflexivity.
  assert (H6 : cancelRide (H := grid) env1 "user-a" "pool-1" worldA
               = (Return cancelResultA, worldACancelled)) by (vm_compute; reflexivity).
  split; [exact H1 |]. split; [exact H3 |]. split; [exact H6 |].
  destruct (proj2 (cancelRide_sole_passenger (H := grid) env1 worldA "user-a" "pool-1"
                     poolA (passengerOf requestA priceA) H1 H2 H3 H4 H5)
              cancelResultA worldACancelled H6) as (Hstatus & Hocc & _).
  split; [exact Hstatus | exact Hocc].
Defined.

Lemma cancelRide_leaves_request_witness :
  cancelRide (H := grid) env1 "user-a" "pool-1" worldA
  = (Return cancelResultA, worldACancelled)
  /\ requests worldACancelled = requests worldA
  /\ List.find (fun p => String.eqb (Passenger.userId p) "user-a")
       (RidePool.passengers (cr_pool cancelResultA)) = None.
Proof.
  assert (H1 : cancelRide (H := grid) env1 "user-a" "pool-1" worldA
               = (Return cancelResultA, worldACancelled)) by (vm_compute; reflexivity).
  split; [exact H1 |].
  destruct (cancelRide_leaves_request (H := grid) env1 worldA worldACancelled
              "user-a" "pool-1" cancelResultA H1) as (Hreq & Hfind & _).
  split; [exact Hreq | exact Hfind].
Defined.

(** C8 as stated fails: with the lock of the pool held, [cancelRide] and
    [processRideRequest] each end with the thrown error after a single
    [SET ... NX]. *)
Lemma lock_refusal_fatal_not_retried :
  Redis.keys (redis worldAHeld) !! "pool:pool-1"%string = Some "token-0"%string
  /\ fst (cancelRide (H := grid) env1 "user-a" "pool-1" worldAHeld)
     = Throw "Failed to acquire lock for pool:pool-1"
  /\ Redis.acquisitions "pool:pool-1"
       (redis (snd (cancelRide (H := grid) env1 "user-a" "pool-1" worldAHeld))) = 1%nat
  /\ fst (processRideRequest (H := grid) env1 requestB worldAHeld)
     = Throw "Failed to acquire lock for pool:pool-1"
  /\ Redis.acquisitions "pool:pool-1"
       (redis (snd (processRideRequest (H := grid) env1 requestB worldAHeld))) = 1%nat.
Proof. repeat split; vm_compute; reflexivity. Qed.

Lemma acquireLock_refused_witness :
  Redis.keys (redis worldAHeld) !! "pool:pool-1"%string = Some "token-0"%string
  /\ acquireLock env1 "pool:pool-1" worldAHeld
     = (Throw (lockFailure "pool:pool-1"), refused env1 "pool:pool-1" worldAHeld)
  /\ cancelRide (H := grid) env1 "user-a" "pool-1" worldAHeld
     = (Throw (lockFailure "pool:pool-1"), refused env1 "pool:pool-1" worldAHeld).
Proof.
  assert (H1 : Redis.keys (redis worldAHeld) !! "pool:pool-1"%string
               = Some "token-0"%string) by (vm_compute; reflexivity).
  split; [exact H1 |].
  destruct (acquireLock_refused (H := grid) env1 "pool:pool-1" "token-0" worldAHeld H1)
    as (Hacq & _ & _ & _ & _ & Hcancel & _).
  split; [exact Hacq |].
  exact (Hcancel "user-a"%string "pool-1"%string eq_refl).
Defined.

End EngineWitnesses.

(** * Further properties *)

(** ** The distance calculator *)

Section DistanceProperties.
Context `{Geolib}.
Import DistanceCalculator Insertion.






(** *** Insertions under the triangle inequality *)










(** *** The route handed back *)

Lemma delete_splice {A : Type} (pos : nat) (x : A) (l : list A) :
  (pos <= length l)%nat -> delete pos (splice pos x l) = l.
Proof.
  intros Hpos. unfold splice.
  rewrite <- (length_take_le l pos) at 1 by exact Hpos.
  rewrite delete_middle. apply take_drop.
Qed.

Lemma delete_after_splice {A : Type} (pos i : nat) (x : A) (l : list A) :
  (pos <= i)%nat -> (pos <= length l)%nat ->
  delete (S i) (splice pos x l) = splice pos x (delete i l).
Proof.
  revert i l. induction pos as [| pos IH]; intros i l Hi Hl; [reflexivity |].
  destruct l as [| a l]; [simpl in Hl; lia |].
  destruct i as [| i]; [lia |].
  change (splice (S pos) x (a :: l)) with (a :: splice pos x l).
  change (delete (S i) (a :: l)) with (a :: delete i l).
  change (splice (S pos) x (a :: delete i l)) with (a :: splice pos x (delete i l)).
  change (delete (S (S i)) (a :: splice pos x l)) with (a :: delete (S i) (splice pos x l)).
  rewrite IH by (simpl in Hl; lia). reflexivity.
Qed.

Lemma lookup_splice {A : Type} (pos : nat) (x : A) (l : list A) :
  (pos <= length l)%nat -> splice pos x l !! pos = Some x.
Proof.
  intros Hpos. unfold splice. apply list_lookup_middle.
  rewrite length_take. lia.
Qed.

Lemma lookup_after_splice {A : Type} (pos i : nat) (x : A) (l : list A) :
  (pos <= i)%nat -> (pos <= length l)%nat -> splice pos x l !! S i = l !! i.
Proof.
  intros Hi Hl. unfold splice.
  rewrite lookup_app_r by (rewrite length_take; lia).
  rewrite length_take. replace (pos `min` length l)%nat with pos by lia.
  replace (S i - pos)%nat with (S (i - pos)) by lia.
  change ((x :: drop pos l) !! S (i - pos)) with (drop pos l !! (i - pos)%nat).
  rewrite lookup_drop. f_equal. lia.
Qed.

Lemma length_splice {A : Type} (pos : nat) (x : A) (l : list A) :
  length (splice pos x l) = S (length l).
Proof.
  unfold splice. rewrite length_app, length_cons, length_take, length_drop. lia.
Qed.

Lemma sequence_resequenced (stops : list Stop) :
  sequence <$> imap (fun i s => setSequence s (Z.of_nat i)) stops
  = Z.of_nat <$> seq 0 (length stops).
Proof. rewrite fmap_imap. apply (imap_seq_0 stops Z.of_nat). Qed.

Lemma sequence_returnedRoute stops P D p d :
  sequence <$> returnedRoute stops P D p d
  = Z.of_nat <$> splice p p (splice d (S d) (seq 0 (length stops))).
Proof.
  unfold returnedRoute, insertion.
  rewrite !fmap_splice, sequence_resequenced. reflexivity.
Qed.

Lemma seq_shifted (a b len : nat) : seq a len = seq b len -> a <> b -> len = 0%nat.
Proof. destruct len; [reflexivity |]. simpl. intros [= E _] Hne. contradiction. Qed.

Lemma numbered_returnedRoute stops P D p d :
  (p <= d <= length stops)%nat ->
  numbered (returnedRoute stops P D p d) <-> p = length stops.
Proof.
  intros Hpd. unfold numbered.
  rewrite sequence_returnedRoute, returnedRoute_length.
  set (n := length stops) in *.
  rewrite splice_splice by (rewrite length_seq; exact Hpd).
  rewrite !take_seq, !drop_seq.
  replace (p `min` n)%nat with p by lia. replace (d `min` n)%nat with d by lia.
  split.
  - intros E. apply (inj (fmap Z.of_nat)) in E.
    replace (S (S n)) with (p + S ((d - p) + S (n - d)))%nat in E by lia.
    rewrite seq_app in E. apply app_inv_head in E. cbn [seq] in E.
    injection E as E. rewrite seq_app in E.
    apply app_inj_1 in E as [E1 E2]; [| rewrite !length_seq; reflexivity].
    cbn [seq] in E2. injection E2 as E2 E3.
    apply seq_shifted in E1; [| lia]. apply seq_shifted in E3; lia.
  - intros ->. replace d with n by lia.
    replace (S (S n)) with (n + 2)%nat by lia.
    rewrite seq_app, Nat.sub_diag. reflexivity.
Qed.

Lemma calculateDetour_route stops P D route :
  bestRoute (fst (calculateDetour stops P D)) = Some route ->
  exists p d, (p <= d <= length stops)%nat /\ route = returnedRoute stops P D p d.
Proof.
  destruct stops as [| s0 stops0].
  { simpl. intros [= <-]. exists 0%nat, 0%nat. split; [lia | reflexivity]. }
  set (stops := s0 :: stops0).
  rewrite (calculateDetour_closed_form stops) by discriminate. cbn [fst]. cbv zeta.
  cbn [bestRoute].
  destruct (snd (fst (fold_left _ _ _))) as [[p d] |] eqn:Epos; [| discriminate].
  intros [= <-]. exists p, d. split; [| reflexivity].
  apply consider_position in Epos as [Hin | Hinit]; [| discriminate Hinit].
  apply elem_of_positions in Hin. exact Hin.
Qed.

(** X4.  [calculateDetour] writes into the stop objects it is given: after
    the call every stop of the caller's array carries its index as sequence
    number, whatever it carried before.  In a route it hands back the new
    pickup stands before the new dropoff, and taking the two out leaves the
    caller's stops in their order, numbered as the call left them: so the
    route is numbered by index only when both stops were appended at its
    end. *)
Theorem calculateDetour_route_shape stops newPickup newDropoff route :
  bestRoute (fst (calculateDetour stops newPickup newDropoff)) = Some route ->
  let left := snd (calculateDetour stops newPickup newDropoff) in
  left = imap (fun i s => setSequence s (Z.of_nat i)) stops
  /\ numbered left
  /\ exists pickupPos dropoffPos,
       (pickupPos <= dropoffPos <= length stops)%nat
       /\ route !! pickupPos = Some (newStop pickup newPickup pickupPos)
       /\ route !! S dropoffPos = Some (newStop dropoff newDropoff (S dropoffPos))
       /\ delete pickupPos (delete (S dropoffPos) route) = left
       /\ (numbered route <-> pickupPos = length stops).
Proof.
  intros Hroute. cbv zeta. rewrite calculateDetour_leaves.
  split; [reflexivity |]. split.
  { unfold numbered. rewrite sequence_resequenced, length_imap. reflexivity. }
  apply calculateDetour_route in Hroute as (p & d & Hpd & ->).
  exists p, d. split; [exact Hpd |].
  set (stops' := imap (fun i s => setSequence s (Z.of_nat i)) stops).
  assert (length stops' = length stops) as Hlen by apply length_imap.
  unfold returnedRoute, insertion. fold stops'.
  assert (p <= length (splice d (newStop dropoff newDropoff (S d)) stops'))%nat as Hp
      by (rewrite length_splice; lia).
  split; [apply lookup_splice; exact Hp |].
  split; [rewrite lookup_after_splice by lia; apply lookup_splice; lia |].
  split.
  - rewrite delete_after_splice by lia. rewrite (delete_splice d) by lia.
    apply delete_splice. lia.
  - apply (numbered_returnedRoute stops newPickup newDropoff p d Hpd).
Qed.

End DistanceProperties.

(** ** The pricing engine *)

Section PricingProperties.
Context `{Geolib}.
Import PricingEngine PricingSpec DistanceCalculator.


Lemma calculateDemandMultiplier_Fin (activeRequests availableCabs : Q) :
  calculateDemandMultiplier (Fin activeRequests) (Fin availableCabs)
  = (let ratio := activeRequests / Qmax availableCabs 1 in
     if JSNumber.Qltb ratio 0.5 then Fin 1.0
     else if JSNumber.Qltb ratio 1.0 then Fin 1.2
     else if JSNumber.Qltb ratio 1.5 then Fin 1.5
     else if JSNumber.Qltb ratio 2.0 then Fin 2.0
     else Fin 2.5).
Proof.
  unfold calculateDemandMultiplier. cbn [JSNumber.max].
  rewrite div_Fin_pos; [reflexivity |].
  pose proof (Q.le_max_r availableCabs 1). lra.
Qed.

Lemma calculateDemandMultiplier_values (activeRequests availableCabs : JSNum) :
  calculateDemandMultiplier activeRequests availableCabs
  ∈ [Fin 1.0; Fin 1.2; Fin 1.5; Fin 2.0; Fin 2.5].
Proof.
  unfold calculateDemandMultiplier. cbv zeta.
  repeat match goal with |- context [if ?c then _ else _] => destruct c end;
    set_solver.
Qed.


Lemma Qdiv_le_num (x y m : Q) : 0 < m -> x <= y -> x / m <= y / m.
Proof.
  intros Hm Hxy. unfold Qdiv. apply Qmult_le_compat_r; [exact Hxy |].
  apply Qlt_le_weak, Qinv_lt_0_compat, Hm.
Qed.

Lemma Qdiv_le_den (x m n : Q) : 0 <= x -> 0 < m -> m <= n -> x / n <= x / m.
Proof.
  intros Hx Hm Hmn. apply Qle_shift_div_l; [lra |].
  assert (x / n * m == x * (m / n)) as E by (field; lra).
  assert (m / n <= 1) by (apply Qle_shift_div_r; lra).
  rewrite E. nra.
Qed.

Lemma demand_steps (r r' : Q) :
  r <= r' ->
  JSNumber.le
    (if JSNumber.Qltb r 0.5 then Fin 1.0
     else if JSNumber.Qltb r 1.0 then Fin 1.2
     else if JSNumber.Qltb r 1.5 then Fin 1.5
     else if JSNumber.Qltb r 2.0 then Fin 2.0
     else Fin 2.5)
    (if JSNumber.Qltb r' 0.5 then Fin 1.0
     else if JSNumber.Qltb r' 1.0 then Fin 1.2
     else if JSNumber.Qltb r' 1.5 then Fin 1.5
     else if JSNumber.Qltb r' 2.0 then Fin 2.0
     else Fin 2.5) = true.
Proof.
  intros Hle.
  repeat match goal with
         | |- context [JSNumber.Qltb ?x ?y] => destruct (Qltb_spec x y)
         end; try reflexivity; exfalso; lra.
Qed.

(** X5.  The demand multiplier is one of 1.0, 1.2, 1.5, 2.0 and 2.5.  It is
    2.5, the highest, when a count is not a number; a count of cabs of 1 or
    less counts as one cab; and the multiplier does not fall when the
    requests grow, nor rise when the cabs grow. *)
Theorem calculateDemandMultiplier_steps :
  (forall activeRequests availableCabs,
     calculateDemandMultiplier activeRequests availableCabs
     ∈ [Fin 1.0; Fin 1.2; Fin 1.5; Fin 2.0; Fin 2.5])
  /\ (forall x, calculateDemandMultiplier JSNumber.NaN x = Fin 2.5
                /\ calculateDemandMultiplier x JSNumber.NaN = Fin 2.5)
  /\ (forall activeRequests availableCabs : Q,
        availableCabs <= 1 ->
        calculateDemandMultiplier (Fin activeRequests) (Fin availableCabs)
        = calculateDemandMultiplier (Fin activeRequests) (Fin 1))
  /\ (forall activeRequests more availableCabs : Q,
        activeRequests <= more ->
        JSNumber.le (calculateDemandMultiplier (Fin activeRequests) (Fin availableCabs))
          (calculateDemandMultiplier (Fin more) (Fin availableCabs)) = true)
  /\ (forall activeRequests availableCabs more : Q,
        0 <= activeRequests -> availableCabs <= more ->
        JSNumber.le (calculateDemandMultiplier (Fin activeRequests) (Fin more))
          (calculateDemandMultiplier (Fin activeRequests) (Fin availableCabs)) = true).
Proof.
  split; [apply calculateDemandMultiplier_values |].
  split; [intros x; split; [reflexivity | destruct x; reflexivity] |].
  split.
  { intros a c Hc. rewrite !calculateDemandMultiplier_Fin. cbv zeta.
    assert (a / Qmax c 1 == a / Qmax 1 1) as E
        by (rewrite (Q.max_r c 1 Hc), (Q.max_r 1 1) by lra; reflexivity).
    unfold JSNumber.Qltb. rewrite !(Qcompare_comp _ _ E _ _ (Qeq_refl _)).
    reflexivity. }
  split.
  - intros a a' c Hle. rewrite !calculateDemandMultiplier_Fin. cbv zeta.
    apply demand_steps, Qdiv_le_num; [| exact Hle].
    pose proof (Q.le_max_r c 1). lra.
  - intros a c c' Ha Hle. rewrite !calculateDemandMultiplier_Fin. cbv zeta.
    apply demand_steps, Qdiv_le_den; [exact Ha | |].
    + pose proof (Q.le_max_r c 1). lra.
    + apply Q.max_le_compat_r, Hle.
Qed.



(** *** Prices put together from their factors *)

Lemma roundCents_unit (x : JSNum) :
  roundCents (JSNumber.add (JSNumber.mul x (Fin 1.0)) (Fin 0)) =js= roundCents x.
Proof.
  destruct x as [q | | |]; try exact I.
  cbn [JSNumber.mul JSNumber.add]. rewrite !roundCents_Fin.
  apply cents_comp. lra.
Qed.

(** X7.  The price of a passenger in a pool is the dynamic price of these
    factors: the base price of the direct trip, the demand multiplier (of the
    demand data, else the surge factor of the pool, else 1.0), the time
    multiplier, the pooling discount for one passenger more than the pool
    holds, and the distance discount; no loyalty discount, no fees. *)
Theorem calculatePassengerPrice_factors config hour rideRequest pool detourPercentage
    demandData :
  let directDistance :=
    Fin (DistanceCalculator.calculateDistance
           (RideRequest.pickupLocation rideRequest)
           (RideRequest.dropoffLocation rideRequest)) in
  calculatePassengerPrice config hour rideRequest pool detourPercentage demandData
  =js= calculateDynamicPrice
         {| f_basePrice :=
              calculateBasePrice config directDistance
                (DistanceCalculator.estimateDuration directDistance);
            f_demandMultiplier :=
              Some match demandData with
                   | Some dd => calculateDemandMultiplier (activeRequests dd) (availableCabs dd)
                   | None =>
                       JSNumber.or_else (RidePool.surgeFactor (RidePool.pricing pool))
                         (Fin 1.0)
                   end;
            f_timeMultiplier := Some (getTimeMultiplier hour);
            f_poolingDiscount :=
              Some (calculatePoolingDiscount
                      (JSNumber.ofZ (Z.of_nat (length (RidePool.passengers pool)) + 1))
                      detourPercentage);
            f_distanceDiscount := Some (getDistanceDiscount directDistance);
            f_loyaltyDiscount := None;
            f_additionalFees := None |}.
Proof.
  cbv zeta. unfold calculatePassengerPrice, calculateDynamicPrice.
  cbn [f_basePrice f_demandMultiplier f_timeMultiplier f_poolingDiscount
       f_distanceDiscount f_loyaltyDiscount f_additionalFees default].
  cbv zeta.
  destruct demandData as [dd |];
    match goal with
    | |- roundCents ?x =js= _ =>
        pose proof (roundCents_unit x) as E; revert E;
        generalize (roundCents x); intros r E
    end.
  - destruct r, (roundCents _); simpl in *; try contradiction; try exact I.
    symmetry. exact E.
  - destruct r, (roundCents _); simpl in *; try contradiction; try exact I.
    symmetry. exact E.
Qed.












(** *** The demand read from the cache *)


(** X9.  A count that is missing from the cache makes the demand a surge:
    when both reads succeed and one of them answers null, which [parseInt]
    turns into NaN, [getCurrentDemand] reports the level surge with the
    factor 2.5. *)
Theorem getCurrentDemand_missing_count parseInt isoHour region get activeRequests
    availableCabs :
  parseInt None = JSNumber.NaN ->
  get (("demand:" +:+ region +:+ ":" +:+ isoHour) +:+ ":requests")%string
  = Return activeRequests ->
  get (("demand:" +:+ region +:+ ":" +:+ isoHour) +:+ ":cabs")%string
  = Return availableCabs ->
  activeRequests = None \/ availableCabs = None ->
  let demand := PricingEngineDemand.getCurrentDemand parseInt isoHour region get in
  PricingEngineDemand.demandLevel demand = PricingEngineDemand.surge
  /\ PricingEngineDemand.surgeFactor demand = Fin 2.5.
Proof.
  intros Hnull Hrequests Hcabs Hmissing. cbv zeta.
  unfold PricingEngineDemand.getCurrentDemand. cbv zeta.
  rewrite Hrequests, Hcabs.
  cbn [PricingEngineDemand.demandLevel PricingEngineDemand.surgeFactor].
  assert (calculateDemandMultiplier (parseInt activeRequests) (parseInt availableCabs)
          = Fin 2.5) as ->.
  { destruct Hmissing as [-> | ->]; rewrite Hnull; [reflexivity |].
    destruct (parseInt activeRequests); reflexivity. }
  split; reflexivity.
Qed.

(** X10.  Whatever the cache answers, the surge factor [getCurrentDemand]
    reports is one of 1.0, 1.2, 1.5, 2.0 and 2.5, and the level goes with it:
    surge for 2.0 and 2.5, high for 1.5, normal for 1.2, and low for 1.0 --
    except that a failed read is reported as normal with the factor 1.0. *)
Theorem getCurrentDemand_levels parseInt isoHour region get :
  let demand := PricingEngineDemand.getCurrentDemand parseInt isoHour region get in
  let factor := PricingEngineDemand.surgeFactor demand in
  let level := PricingEngineDemand.demandLevel demand in
  factor ∈ [Fin 1.0; Fin 1.2; Fin 1.5; Fin 2.0; Fin 2.5]
  /\ (level = PricingEngineDemand.surge <-> factor = Fin 2.0 \/ factor = Fin 2.5)
  /\ (level = PricingEngineDemand.high <-> factor = Fin 1.5)
  /\ (level = PricingEngineDemand.low -> factor = Fin 1.0)
  /\ (factor = Fin 1.2 -> level = PricingEngineDemand.normal)
  /\ (level = PricingEngineDemand.normal /\ factor = Fin 1.0 <->
      exists message,
        get (("demand:" +:+ region +:+ ":" +:+ isoHour) +:+ ":requests")%string = Throw message
        \/ get (("demand:" +:+ region +:+ ":" +:+ isoHour) +:+ ":cabs")%string = Throw message).
Proof.
  cbv zeta. unfold PricingEngineDemand.getCurrentDemand. cbv zeta.
  destruct (get _) as [a | e1]; [destruct (get _) as [c | e2] |];
    cbn [PricingEngineDemand.demandLevel PricingEngineDemand.surgeFactor].
  - pose proof (calculateDemandMultiplier_values (parseInt a) (parseInt c)) as Hin.
    split; [exact Hin |].
    repeat (apply elem_of_cons in Hin as [-> | Hin]);
      [idtac .. | apply elem_of_nil in Hin; contradiction];
      vm_compute; repeat split; try tauto; try discriminate;
      try (intros [? | ?]; discriminate);
      try (intros [_ ?]; discriminate);
      try (intros (? & [? | ?]); discriminate);
      try (intros (? & ?); discriminate);
      match goal with
      | Hex : exists _, _ \/ _ |- _ => destruct Hex as (? & [? | ?]); discriminate
      end.
  - split; [set_solver |].
    split; [split; [discriminate | intros [? | ?]; discriminate] |].
    split; [split; discriminate |]. split; [discriminate |]. split; [discriminate |].
    split; [intros _; exists e2; right; reflexivity | intros _; split; reflexivity].
  - split; [set_solver |].
    split; [split; [discriminate | intros [? | ?]; discriminate] |].
    split; [split; discriminate |]. split; [discriminate |]. split; [discriminate |].
    split; [intros _; exists e1; left; reflexivity | intros _; split; reflexivity].
Qed.

(** *** The price estimate of the controller *)



End PricingProperties.

(** ** The configuration *)

Section ConfigProperties.

Lemma intSetting_nonzero (env : option Z) (d : Z) :
  d <> 0%Z -> Config.intSetting env d <> 0%Z.
Proof. intros Hd. destruct env as [[| n | n] |]; simpl; [exact Hd | lia | lia | exact Hd]. Qed.

Lemma floatSetting_nonzero (env : option Q) (d : Q) :
  ~ d == 0 -> ~ Config.floatSetting env d == 0.
Proof.
  intros Hd. destruct env as [x |]; simpl; [| exact Hd].
  destruct (Qeq_bool x 0) eqn:E; [exact Hd |].
  apply Qeq_bool_neq, E.
Qed.

(** X12.  No setting can be configured as zero: a variable set to 0 gives
    the default, so the pool size, the luggage room, the matching radius,
    the rates, the minimum fare, the airport fee and the lock timeout of a
    loaded configuration are all different from zero; a variable set to any
    other number is taken as it is. *)
Theorem load_never_zero (e : Config.Env) :
  let config := Config.load e in
  Config.MAX_POOL_SIZE config <> 0%Z
  /\ Config.MAX_LUGGAGE_PER_CAB config <> 0%Z
  /\ Config.LOCK_TIMEOUT_MS config <> 0%Z
  /\ ~ Config.MATCHING_RADIUS_KM config == 0
  /\ ~ Config.BASE_RATE_PER_KM config == 0
  /\ ~ Config.BASE_RATE_PER_MIN config == 0
  /\ ~ Config.MINIMUM_FARE config == 0
  /\ ~ Config.AIRPORT_FEE config == 0
  /\ (forall fee : Q,
        Config.env_AIRPORT_FEE e = Some fee ->
        Config.AIRPORT_FEE config = if Qeq_bool fee 0 then 3.0 else fee)
  /\ (forall size : Z,
        Config.env_MAX_POOL_SIZE e = Some size ->
        Config.MAX_POOL_SIZE config = if (size =? 0)%Z then 4%Z else size).
Proof.
  cbv zeta. unfold Config.load.
  cbn [Config.MAX_POOL_SIZE Config.MAX_LUGGAGE_PER_CAB Config.LOCK_TIMEOUT_MS
       Config.MATCHING_RADIUS_KM Config.BASE_RATE_PER_KM Config.BASE_RATE_PER_MIN
       Config.MINIMUM_FARE Config.AIRPORT_FEE].
  repeat split;
    try (apply intSetting_nonzero; discriminate);
    try (apply floatSetting_nonzero; discriminate).
  - intros fee ->. reflexivity.
  - intros size ->. destruct size; reflexivity.
Qed.

End ConfigProperties.

(** ** The pool document *)

Section PoolProperties.
Import RidePool.

(** X13.  A pool accommodates a party exactly when the party fits the
    seats and the luggage room still available; a full pool accommodates no
    party of one or more; and adding a party the pool accommodates leaves
    the available seats and luggage room non-negative, lowered by the counts
    of the party. *)
Theorem canAccommodate_available (this : t) :
  (forall passengers luggage,
     canAccommodate this passengers luggage = true
     <-> (passengers <= availableSeats this /\ luggage <= availableLuggage this)%Z)
  /\ (isFull this = true <-> (availableSeats this <= 0)%Z)
  /\ (forall passengers luggage,
        isFull this = true -> (1 <= passengers)%Z ->
        canAccommodate this passengers luggage = false)
  /\ (forall entry,
        canAccommodate this (Passenger.passengerCount entry) (Passenger.luggageCount entry)
        = true ->
        let after := addPassenger this entry in
        (availableSeats after = availableSeats this - Passenger.passengerCount entry
         /\ availableLuggage after = availableLuggage this - Passenger.luggageCount entry
         /\ 0 <= availableSeats after /\ 0 <= availableLuggage after)%Z).
Proof.
  unfold canAccommodate, isFull, availableSeats, availableLuggage.
  split; [intros passengers luggage; rewrite andb_true_iff, !Z.leb_le; lia |].
  split; [rewrite Z.leb_le; lia |].
  split.
  - intros passengers luggage Hfull Hone. apply Z.leb_le in Hfull.
    apply andb_false_iff. left. apply Z.leb_gt. lia.
  - intros entry Hfits. apply andb_true_iff in Hfits as [Hs Hl].
    apply Z.leb_le in Hs, Hl. cbn. lia.
Qed.

Lemma entriesOf_nil_find (userId : ObjectId) (entries : list Passenger.t) :
  entriesOf userId entries = [] <->
  List.find (fun p => String.eqb (Passenger.userId p) userId) entries = None.
Proof.
  unfold entriesOf. induction entries as [| e entries IH]; simpl; [tauto |].
  destruct (String.eqb (Passenger.userId e) userId); [split; discriminate | exact IH].
Qed.

Lemma find_head_entriesOf (userId : ObjectId) (entries : list Passenger.t) :
  List.find (fun p => String.eqb (Passenger.userId p) userId) entries
  = head (entriesOf userId entries).
Proof.
  unfold entriesOf. induction entries as [| e entries IH]; simpl; [reflexivity |].
  destruct (String.eqb (Passenger.userId e) userId); [reflexivity | exact IH].
Qed.

Lemma others_when_absent (userId : ObjectId) (entries : list Passenger.t) :
  entriesOf userId entries = [] ->
  List.filter (fun p => negb (String.eqb (Passenger.userId p) userId)) entries = entries.
Proof.
  unfold entriesOf. induction entries as [| e entries IH]; simpl; [reflexivity |].
  destruct (String.eqb (Passenger.userId e) userId); [discriminate |].
  intros Hnone. simpl. f_equal. exact (IH Hnone).
Qed.

Lemma entriesOf_others (userId : ObjectId) (entries : list Passenger.t) :
  entriesOf userId
    (List.filter (fun p => negb (String.eqb (Passenger.userId p) userId)) entries) = [].
Proof.
  unfold entriesOf. induction entries as [| e entries IH]; simpl; [reflexivity |].
  destruct (String.eqb (Passenger.userId e) userId) eqn:E; simpl; [exact IH |].
  rewrite E. exact IH.
Qed.

Lemma find_app_absent {A : Type} (f : A -> bool) (l1 l2 : list A) :
  List.find f l1 = None -> List.find f (l1 ++ l2) = List.find f l2.
Proof.
  induction l1 as [| a l1 IH]; simpl; [reflexivity |].
  destruct (f a); [discriminate | exact IH].
Qed.

(** X14.  Removing the user of an entry that was just added gives back the
    pool as it was before, when the user had no entry in it: [addPassenger]
    followed by [removePassenger] changes nothing, and reports the removal. *)
Theorem removePassenger_addPassenger (this : t) (entry : Passenger.t) :
  entriesOf (Passenger.userId entry) (passengers this) = [] ->
  removePassenger (addPassenger this entry) (Passenger.userId entry) = (this, true).
Proof.
  intros Habsent. unfold removePassenger, addPassenger.
  cbn [passengers set_passengers set_currentOccupancy currentOccupancy].
  apply entriesOf_nil_find in Habsent as Hfind.
  rewrite (find_app_absent _ _ _ Hfind).
  cbn [List.find]. rewrite String.eqb_refl. f_equal.
  rewrite List.filter_app, others_when_absent by exact Habsent.
  cbn [List.filter]. rewrite String.eqb_refl. cbn [negb]. rewrite app_nil_r.
  destruct this as [id st ps rt vh [s l] pr v ma ca cr]. cbn.
  unfold set_passengers, set_currentOccupancy. cbn.
  rewrite !Z.add_simpl_r. reflexivity.
Qed.

Lemma totalSeats_app (l1 l2 : list Passenger.t) :
  totalSeats (l1 ++ l2) = (totalSeats l1 + totalSeats l2)%Z.
Proof. unfold totalSeats. induction l1 as [| e l1 IH]; simpl; [reflexivity | lia]. Qed.

Lemma totalLuggage_app (l1 l2 : list Passenger.t) :
  totalLuggage (l1 ++ l2) = (totalLuggage l1 + totalLuggage l2)%Z.
Proof. unfold totalLuggage. induction l1 as [| e l1 IH]; simpl; [reflexivity | lia]. Qed.

Lemma totalSeats_split (userId : ObjectId) (entries : list Passenger.t) :
  totalSeats entries
  = (totalSeats (List.filter (fun p => negb (String.eqb (Passenger.userId p) userId)) entries)
     + totalSeats (entriesOf userId entries))%Z.
Proof.
  unfold entriesOf, totalSeats. induction entries as [| e entries IH]; simpl; [reflexivity |].
  destruct (String.eqb (Passenger.userId e) userId); simpl; lia.
Qed.

Lemma totalLuggage_split (userId : ObjectId) (entries : list Passenger.t) :
  totalLuggage entries
  = (totalLuggage (List.filter (fun p => negb (String.eqb (Passenger.userId p) userId)) entries)
     + totalLuggage (entriesOf userId entries))%Z.
Proof.
  unfold entriesOf, totalLuggage. induction entries as [| e entries IH]; simpl; [reflexivity |].
  destruct (String.eqb (Passenger.userId e) userId); simpl; lia.
Qed.

Lemma removePassenger_false (this : t) (userId : ObjectId) :
  snd (removePassenger this userId) = false <-> entriesOf userId (passengers this) = [].
Proof.
  rewrite entriesOf_nil_find. unfold removePassenger.
  destruct (List.find _ _); simpl; split; congruence.
Qed.

Lemma removePassenger_passengers (this : t) (userId : ObjectId) :
  passengers (fst (removePassenger this userId))
  = List.filter (fun p => negb (String.eqb (Passenger.userId p) userId)) (passengers this).
Proof.
  unfold removePassenger.
  destruct (List.find _ _) eqn:Efind; [reflexivity |]. simpl.
  symmetry. apply others_when_absent, entriesOf_nil_find, Efind.
Qed.

Lemma removePassenger_occupancy (this : t) (userId : ObjectId) :
  let first := head (entriesOf userId (passengers this)) in
  seats (currentOccupancy (fst (removePassenger this userId)))
  = (seats (currentOccupancy this) - from_option Passenger.passengerCount 0 first)%Z
  /\ luggage (currentOccupancy (fst (removePassenger this userId)))
     = (luggage (currentOccupancy this) - from_option Passenger.luggageCount 0 first)%Z.
Proof.
  cbv zeta. rewrite <- find_head_entriesOf. unfold removePassenger.
  destruct (List.find _ _); simpl; lia.
Qed.

(** X15.  [removePassenger] takes out every entry of the user but subtracts
    the counts of the first one only.  So for a pool whose occupancy is the
    sum of its entries, the occupancy afterwards exceeds the sum of the
    remaining entries by the counts of the user's second and later entries;
    it is again the sum of the entries when the user had at most one.  The
    call reports false exactly when the user had no entry, and then changes
    nothing. *)
Theorem removePassenger_accounting (this : t) (userId : ObjectId) :
  occupancyMatches this ->
  let after := fst (removePassenger this userId) in
  let others := tail (entriesOf userId (passengers this)) in
  entriesOf userId (passengers after) = []
  /\ seats (currentOccupancy after) = (totalSeats (passengers after) + totalSeats others)%Z
  /\ luggage (currentOccupancy after)
     = (totalLuggage (passengers after) + totalLuggage others)%Z
  /\ ((length (entriesOf userId (passengers this)) <= 1)%nat -> occupancyMatches after)
  /\ (snd (removePassenger this userId) = false
      <-> entriesOf userId (passengers this) = [])
  /\ (snd (removePassenger this userId) = false -> after = this).
Proof.
  intros [Hseats Hluggage]. cbv zeta.
  pose proof (removePassenger_occupancy this userId) as [Es El]. cbv zeta in Es, El.
  pose proof (removePassenger_passengers this userId) as Eps.
  pose proof (totalSeats_split userId (passengers this)) as Ss.
  pose proof (totalLuggage_split userId (passengers this)) as Sl.
  assert (seats (currentOccupancy (fst (removePassenger this userId)))
          = (totalSeats (passengers (fst (removePassenger this userId)))
             + totalSeats (tail (entriesOf userId (passengers this))))%Z
          /\ luggage (currentOccupancy (fst (removePassenger this userId)))
             = (totalLuggage (passengers (fst (removePassenger this userId)))
                + totalLuggage (tail (entriesOf userId (passengers this))))%Z)
    as [Hs Hl].
  { rewrite Es, El, Eps, Hseats, Hluggage, Ss, Sl.
    destruct (entriesOf userId (passengers this)) as [| e rest]; simpl; lia. }
  split; [rewrite Eps; apply entriesOf_others |].
  split; [exact Hs |]. split; [exact Hl |].
  split.
  { intros Hone. split; [rewrite Hs | rewrite Hl];
      destruct (entriesOf userId (passengers this)) as [| e [| e' rest]];
      simpl in *; lia. }
  split; [apply removePassenger_false |].
  unfold removePassenger. destruct (List.find _ _); simpl; [discriminate | reflexivity].
Qed.

(** X16.  [addPassenger] keeps the books: it appends the entry, leaves
    every other field alone, and a pool whose occupancy is the sum of its
    entries is such a pool afterwards. *)
Theorem addPassenger_accounting (this : t) (entry : Passenger.t) :
  occupancyMatches this ->
  let after := addPassenger this entry in
  occupancyMatches after
  /\ passengers after = passengers this ++ [entry]
  /\ set_currentOccupancy (currentOccupancy this) (set_passengers (passengers this) after)
     = this.
Proof.
  intros [Hseats Hluggage]. cbv zeta. unfold occupancyMatches, addPassenger.
  cbn [passengers set_passengers set_currentOccupancy currentOccupancy seats luggage].
  rewrite totalSeats_app, totalLuggage_app, Hseats, Hluggage.
  split; [split; simpl; lia |]. split; [reflexivity |].
  destruct this as [id st ps rt vh [s l] pr v ma ca cr]. reflexivity.
Qed.

End PoolProperties.

(** ** The matching engine *)

Section EngineProperties.
Context `{Geolib}.
Import MatchingEngine.

(** *** What the operations write *)

Lemma addToExistingPool_eq (env : Env) (poolData : PoolData) (r : RideRequest.t)
    (w : World) :
  addToExistingPool env poolData r w
  = match pools w !! RidePool._id (pool poolData) with
    | None => (Return (notJoined "Pool not found"), w)
    | Some found =>
        if RidePool.canAccommodate found (RideRequest.passengers r) (RideRequest.luggage r)
        then
          match DistanceCalculator.bestRoute (calculatedDetour poolData) with
          | None =>
              (Return (notJoined "Cannot read properties of null (reading 'map')"), w)
          | Some bestRoute =>
              (Return
                 (joined
                    (PricingEngine.calculatePassengerPrice (config env) (hour env) r found
                       (DistanceCalculator.detourPercentage (calculatedDetour poolData))
                       None)
                    (DistanceCalculator.detourPercentage (calculatedDetour poolData))),
               {| pools :=
                    <[RidePool._id found := joinedFrom env poolData r found bestRoute]>
                      (pools w);
                  requests := matchedWith r (RidePool._id found) (requests w);
                  redis := redis w |})
          end
        else (Return (notJoined "Pool is full"), w)
    end.
Proof.
  unfold addToExistingPool, try_catch, addToExistingPool_try, bind at 1,
    RidePool_findById.
  destruct (pools w !! RidePool._id (pool poolData)) as [found |]; [| reflexivity].
  destruct (RidePool.canAccommodate found _ _); [| reflexivity]. cbn [negb].
  destruct (DistanceCalculator.bestRoute (calculatedDetour poolData)) as [bestRoute |];
    [| reflexivity].
  fold (joinedFrom env poolData r found bestRoute).
  unfold bind, RidePool_save, ret. cbn [andb].
  unfold RideRequest_findByIdAndUpdate, matchedWith. cbn [pools requests redis].
  assert (RidePool._id (joinedFrom env poolData r found bestRoute) = RidePool._id found)
    as Eid.
  { unfold joinedFrom. cbv zeta. destruct (_ && _); reflexivity. }
  unfold joinedFrom in *. cbv zeta in *. rewrite Eid.
  destruct (requests w !! RideRequest._id r); reflexivity.
Qed.


Lemma createNewPool_cases (env : Env) (r : RideRequest.t) (w : World) :
  (is_Some (pools w !! newPoolId env)
   /\ createNewPool env r w = (Throw "E11000 duplicate key error", w))
  \/ (pools w !! newPoolId env = None
      /\ exists created price,
          createNewPool env r w
          = (Return created,
             {| pools := <[newPoolId env := created]> (pools w);
                requests := matchedWith r (newPoolId env) (requests w);
                redis := redis w |})
          /\ RidePool._id created = newPoolId env
          /\ RidePool.status created = RidePool.forming
          /\ RidePool.passengers created = [passengerOf r price]
          /\ RidePool.stops (RidePool.route created)
             = [ {| type := pickup;
                    location := RideRequest.pickupLocation r;
                    address := Some (RideRequest.pickupAddress r);
                    passengerId := Some (RideRequest.userId r);
                    sequence := 0 |};
                 {| type := dropoff;
                    location := RideRequest.dropoffLocation r;
                    address := Some (RideRequest.dropoffAddress r);
                    passengerId := Some (RideRequest.userId r);
                    sequence := 1 |} ]
          /\ RidePool.currentOccupancy created
             = {| RidePool.seats := RideRequest.passengers r;
                  RidePool.luggage := RideRequest.luggage r |}
          /\ RidePool.capacity (RidePool.vehicle created) = Config.MAX_POOL_SIZE (config env)
          /\ RidePool.luggageCapacity (RidePool.vehicle created)
             = Config.MAX_LUGGAGE_PER_CAB (config env)
          /\ RidePool.__v created = 0%Z).
Proof.
  unfold createNewPool, bind, RidePool_save, ret. cbn [RidePool.preSave RidePool._id andb].
  destruct (pools w !! newPoolId env) as [old |] eqn:Eold.
  - left. split; [eexists; reflexivity |].
    rewrite bool_decide_eq_true_2 by (eexists; reflexivity). reflexivity.
  - right. split; [reflexivity |].
    rewrite bool_decide_eq_false_2 by (intros [? ?]; discriminate).
    unfold RideRequest_findByIdAndUpdate, matchedWith. cbn [pools requests redis].
    eexists. eexists. split.
    + destruct (requests w !! RideRequest._id r); reflexivity.
    + repeat split; reflexivity.
Qed.

(** The world with the lock of a key taken by this caller, and the world
    after its release. *)
Lemma acquire_then_release (env : Env) (key : string) (w w2 : World) :
  Redis.keys (redis w) !! key = None ->
  redis w2
  = {| Redis.keys := <[key := uuid env]> (Redis.keys (redis w));
       Redis.received :=
         Redis.SET_PX_NX key (uuid env) (Config.LOCK_TIMEOUT_MS (config env))
         :: Redis.received (redis w) |} ->
  exists w3,
    releaseLock key (uuid env) w2 = (Return tt, w3)
    /\ pools w3 = pools w2 /\ requests w3 = requests w2
    /\ Redis.keys (redis w3) = Redis.keys (redis w).
Proof.
  intros Hfree Hredis. unfold releaseLock, Redis.eval_compare_and_delete.
  rewrite Hredis. cbn [Redis.keys Redis.received].
  rewrite lookup_insert_eq, String.eqb_refl.
  eexists. split; [reflexivity |]. cbn [pools requests redis Redis.keys].
  split; [reflexivity |]. split; [reflexivity |].
  apply release_after_acquire, Hfree.
Qed.

Lemma addToExistingPool_redis (env : Env) (poolData : PoolData) (r : RideRequest.t)
    (w w' : World) (o : Outcome JoinResult) :
  addToExistingPool env poolData r w = (o, w') -> redis w' = redis w.
Proof.
  rewrite addToExistingPool_eq.
  destruct (pools w !! _) as [found |]; [| intros [= _ <-]; reflexivity].
  destruct (RidePool.canAccommodate found _ _); [| intros [= _ <-]; reflexivity].
  destruct (DistanceCalculator.bestRoute _); intros [= _ <-]; reflexivity.
Qed.

Lemma addToExistingPool_Return (env : Env) (poolData : PoolData) (r : RideRequest.t)
    (w : World) :
  exists result w', addToExistingPool env poolData r w = (Return result, w').
Proof.
  rewrite addToExistingPool_eq.
  destruct (pools w !! _) as [found |]; [| eexists; eexists; reflexivity].
  destruct (RidePool.canAccommodate found _ _); [| eexists; eexists; reflexivity].
  destruct (DistanceCalculator.bestRoute _); eexists; eexists; reflexivity.
Qed.

Lemma createNewPool_redis (env : Env) (r : RideRequest.t) (w w' : World)
    (o : Outcome RidePool.t) :
  createNewPool env r w = (o, w') -> redis w' = redis w.
Proof.
  destruct (createNewPool_cases env r w) as [[_ ->] | (_ & c & p & -> & _)];
    intros [= _ <-]; reflexivity.
Qed.

(** The result [processRideRequest] makes of a new pool. *)
Lemma createdResult_cases (env : Env) (r : RideRequest.t) (w w' : World)
    (o : Outcome MatchResult) :
  (bind (createNewPool env r)
     (fun newPool =>
        ret {| poolId := RidePool._id newPool;
               isNewPool := true;
               estimatedPrice :=
                 match RidePool.passengers newPool with
                 | p :: _ => Passenger.price p
                 | [] => JSNumber.NaN
                 end;
               mr_detour := Fin 0 |})) w = (o, w') ->
  (exists e, createNewPool env r w = (Throw e, w') /\ o = Throw e)
  \/ (exists created,
        createNewPool env r w = (Return created, w') /\ o = Return (createdResult created)).
Proof.
  unfold bind. destruct (createNewPool env r w) as [[created | e] w1].
  - intros [= <- <-]. right. exists created. split; reflexivity.
  - intros [= <- <-]. left. exists e. split; reflexivity.
Qed.

(** The course of [processRideRequest]: without a match a pool is created;
    with a match whose lock is held the call fails; otherwise the join is
    tried under the lock, the lock is released, and a pool is created when
    the join did not succeed. *)
Lemma processRideRequest_cases (env : Env) (r : RideRequest.t) (w w' : World)
    (o : Outcome MatchResult) :
  processRideRequest env r w = (o, w') ->
  exists nearbyPools,
    findNearbyPools env (RideRequest.pickupLocation r) (RideRequest.passengers r)
      (RideRequest.luggage r) w = (Return nearbyPools, w)
    /\ ((findBestMatch r nearbyPools = None
         /\ ((exists e, createNewPool env r w = (Throw e, w') /\ o = Throw e)
             \/ (exists created,
                   createNewPool env r w = (Return created, w')
                   /\ o = Return (createdResult created))))
        \/ exists matchedPool,
            findBestMatch r nearbyPools = Some matchedPool
            /\ ((exists holder,
                   Redis.keys (redis w) !! lockKeyOf (RidePool._id (pool matchedPool))
                   = Some holder
                   /\ o = Throw (lockFailure (lockKeyOf (RidePool._id (pool matchedPool))))
                   /\ w' = refused env (lockKeyOf (RidePool._id (pool matchedPool))) w)
                \/ exists w1 result w2 w3,
                    Redis.keys (redis w) !! lockKeyOf (RidePool._id (pool matchedPool))
                    = None
                    /\ pools w1 = pools w /\ requests w1 = requests w
                    /\ addToExistingPool env matchedPool r w1 = (Return result, w2)
                    /\ pools w3 = pools w2 /\ requests w3 = requests w2
                    /\ Redis.keys (redis w3) = Redis.keys (redis w)
                    /\ ((success result = true
                         /\ o = Return {| poolId := RidePool._id (pool matchedPool);
                                          isNewPool := false;
                                          estimatedPrice :=
                                            default JSNumber.NaN (price result);
                                          mr_detour :=
                                            default JSNumber.NaN (detour result) |}
                         /\ w' = w3)
                        \/ (success result = false
                            /\ ((exists e,
                                   createNewPool env r w3 = (Throw e, w') /\ o = Throw e)
                                \/ (exists created,
                                      createNewPool env r w3 = (Return created, w')
                                      /\ o = Return (createdResult created))))))).
Proof.
  intros Hrun. eexists. split; [reflexivity |].
  unfold processRideRequest in Hrun. unfold bind at 1 in Hrun.
  unfold findNearbyPools at 1 in Hrun.
  match type of Hrun with
  | context [findBestMatch r ?l] => destruct (findBestMatch r l) as [matchedPool |]
  end.
  2: { left. split; [reflexivity |]. apply createdResult_cases, Hrun. }
  right. exists matchedPool. split; [reflexivity |].
  set (key := lockKeyOf (RidePool._id (pool matchedPool))) in *.
  unfold bind at 1 in Hrun.
  destruct (Redis.keys (redis w) !! key) as [holder |] eqn:Ekey.
  { left. exists holder. rewrite (acquireLock_held env key holder w Ekey) in Hrun.
    injection Hrun as <- <-. repeat split; reflexivity. }
  right. rewrite (acquireLock_free env key w Ekey) in Hrun.
  set (w1 := {| pools := pools w; requests := requests w;
                redis := {| Redis.keys := <[key := uuid env]> (Redis.keys (redis w));
                            Redis.received :=
                              Redis.SET_PX_NX key (uuid env)
                                (Config.LOCK_TIMEOUT_MS (config env))
                              :: Redis.received (redis w) |} |}) in *.
  destruct (addToExistingPool_Return env matchedPool r w1) as (result & w2 & Ejoin).
  pose proof (addToExistingPool_redis _ _ _ _ _ _ Ejoin) as Eredis.
  destruct (acquire_then_release env key w w2 Ekey Eredis) as (w3 & Erel & Hp3 & Hr3 & Hk3).
  unfold bind at 1, try_finally in Hrun. rewrite Ejoin, Erel in Hrun.
  exists w1, result, w2, w3.
  split; [reflexivity |]. split; [reflexivity |]. split; [reflexivity |].
  split; [exact Ejoin |]. split; [exact Hp3 |]. split; [exact Hr3 |]. split; [exact Hk3 |].
  destruct (success result).
  - left. injection Hrun as <- <-. repeat split; reflexivity.
  - right. split; [reflexivity |]. apply createdResult_cases, Hrun.
Qed.


(** *** Locks *)

Lemma cancelRide_try_redis (env : Env) (userId poolId : ObjectId) (w w' : World)
    (o : Outcome CancelResult) :
  cancelRide_try env userId poolId w = (o, w') -> redis w' = redis w.
Proof.
  destruct o as [result | e]; intros Hrun.
  - apply cancelRide_try_Return in Hrun as (found & _ & _ & _ & _ & ->). reflexivity.
  - apply cancelRide_try_Throw in Hrun as ->. reflexivity.
Qed.

(** X17.  The engine never leaves a lock behind, and never takes one away:
    whether [cancelRide] and [processRideRequest] return or throw, the locks
    held in Redis afterwards are those held before (no key expiring while
    the call runs). *)
Theorem locks_left_as_found (env : Env) :
  (forall userId poolId w o w',
     cancelRide env userId poolId w = (o, w') ->
     Redis.keys (redis w') = Redis.keys (redis w))
  /\ (forall rideRequest w o w',
        processRideRequest env rideRequest w = (o, w') ->
        Redis.keys (redis w') = Redis.keys (redis w)).
Proof.
  split.
  - intros userId poolId w o w' Hrun. unfold cancelRide in Hrun. cbv zeta in Hrun.
    unfold bind in Hrun.
    destruct (Redis.keys (redis w) !! lockKeyOf poolId) as [holder |] eqn:Ekey.
    + rewrite (acquireLock_held env _ holder w Ekey) in Hrun.
      injection Hrun as _ <-. reflexivity.
    + rewrite (acquireLock_free env _ w Ekey) in Hrun. unfold try_finally in Hrun.
      destruct (cancelRide_try env userId poolId _) as [ob w2] eqn:Ebody.
      apply cancelRide_try_redis in Ebody.
      destruct (acquire_then_release env _ w w2 Ekey Ebody) as (w3 & Erel & _ & _ & Hk).
      rewrite Erel in Hrun. injection Hrun as _ <-. exact Hk.
  - intros r w o w' Hrun.
    apply processRideRequest_cases in Hrun
      as (nearby & _ & [(_ & Hnew) | (m & _ & [(holder & _ & _ & ->) | Hjoin])]).
    + destruct Hnew as [(e & Hc & _) | (c & Hc & _)];
        apply createNewPool_redis in Hc; rewrite Hc; reflexivity.
    + reflexivity.
    + destruct Hjoin as (w1 & result & w2 & w3 & _ & _ & _ & _ & _ & _ & Hk & Hend).
      destruct Hend as [(_ & _ & ->) | (_ & Hnew)]; [exact Hk |].
      destruct Hnew as [(e & Hc & _) | (c & Hc & _)];
        apply createNewPool_redis in Hc; rewrite Hc; exact Hk.
Qed.

(** X18.  A lock is released by its holder only: [releaseLock] with the
    value [acquireLock] returned frees the key again, leaving the keys as
    they were before the lock was taken, and [releaseLock] with any other
    value leaves a held lock in place.  Neither touches the collections, and
    [releaseLock] never throws. *)
Theorem releaseLock_holder_only (env : Env) (key : string) (w : World) :
  (forall lockValue w1,
     acquireLock env key w = (Return lockValue, w1) ->
     exists w2,
       releaseLock key lockValue w1 = (Return tt, w2)
       /\ Redis.keys (redis w1) !! key = Some lockValue
       /\ Redis.keys (redis w2) = Redis.keys (redis w)
       /\ pools w2 = pools w /\ requests w2 = requests w)
  /\ (forall holder lockValue,
        Redis.keys (redis w) !! key = Some holder -> holder <> lockValue ->
        exists w2,
          releaseLock key lockValue w = (Return tt, w2)
          /\ Redis.keys (redis w2) = Redis.keys (redis w)
          /\ pools w2 = pools w /\ requests w2 = requests w).
Proof.
  split.
  - intros lockValue w1 Hacq.
    pose proof (acquireLock_Return _ _ _ _ _ Hacq) as Hfree.
    rewrite (acquireLock_free env key w Hfree) in Hacq. injection Hacq as <- <-.
    match goal with
    | |- context [releaseLock key (uuid env) ?w1] =>
        destruct (acquire_then_release env key w w1 Hfree eq_refl)
          as (w3 & Erel & Hp & Hr & Hk)
    end.
    exists w3. split; [exact Erel |]. cbn [redis Redis.keys]. rewrite lookup_insert_eq.
    split; [reflexivity |]. split; [exact Hk |]. split; [exact Hp | exact Hr].
  - intros holder lockValue Hheld Hother.
    unfold releaseLock, Redis.eval_compare_and_delete. rewrite Hheld.
    destruct (String.eqb holder lockValue) eqn:E;
      [apply String.eqb_eq in E; contradiction |].
    eexists. split; [reflexivity |]. repeat split; reflexivity.
Qed.

(** *** Joining a pool *)

(** X19.  [addToExistingPool] never throws.  It succeeds exactly when the
    candidate's pool is in the collection, accommodates the party and the
    candidate has a route; otherwise it reports a failure and has written
    nothing. *)
Theorem addToExistingPool_succeeds_iff (env : Env) (poolData : PoolData)
    (rideRequest : RideRequest.t) (w : World) :
  exists result w',
    addToExistingPool env poolData rideRequest w = (Return result, w')
    /\ (success result = true
        <-> exists found,
              pools w !! RidePool._id (pool poolData) = Some found
              /\ RidePool.canAccommodate found (RideRequest.passengers rideRequest)
                   (RideRequest.luggage rideRequest) = true
              /\ DistanceCalculator.bestRoute (calculatedDetour poolData) <> None)
    /\ (success result = false -> w' = w /\ price result = None /\ is_Some (error result)).
Proof.
  rewrite addToExistingPool_eq.
  destruct (pools w !! _) as [found |] eqn:Efound.
  2: { eexists. eexists. split; [reflexivity |]. split.
       - split; [discriminate | intros (f & Hf & _); discriminate].
       - intros _. repeat split. eexists. reflexivity. }
  destruct (RidePool.canAccommodate found _ _) eqn:Ecan.
  2: { eexists. eexists. split; [reflexivity |]. split.
       - split; [discriminate |]. intros (f & [= <-] & Hcan & _). congruence.
       - intros _. repeat split. eexists. reflexivity. }
  destruct (DistanceCalculator.bestRoute _) as [bestRoute |] eqn:Eroute.
  - eexists. eexists. split; [reflexivity |]. split.
    + split; [| reflexivity]. intros _. exists found.
      split; [reflexivity |]. split; [exact Ecan | discriminate].
    + discriminate.
  - eexists. eexists. split; [reflexivity |]. split.
    + split; [discriminate |]. intros (f & _ & _ & Hne). contradiction.
    + intros _. repeat split. eexists. reflexivity.
Qed.


(** *** Looking for a pool *)

Lemma findNearbyPools_elements (env : Env) (pickupLocation : Point)
    (requiredSeats requiredLuggage : Z) (w : World) :
  exists nearbyPools,
    findNearbyPools env pickupLocation requiredSeats requiredLuggage w
    = (Return nearbyPools, w)
    /\ (length nearbyPools <= 20)%nat
    /\ forall p, p ∈ nearbyPools ->
         (exists id, pools w !! id = Some p)
         /\ hasRoomFor requiredSeats requiredLuggage p = true
         /\ exists stop,
              stop ∈ RidePool.stops (RidePool.route p)
              /\ DistanceCalculator.calculateDistance pickupLocation (location stop)
                 <= Config.MATCHING_RADIUS_KM (config env).
Proof.
  unfold findNearbyPools. eexists. split; [reflexivity |]. split.
  - etrans; [apply filter_length_le |]. apply firstn_le_length.
  - intros p Hp. apply list_elem_of_In, filter_In in Hp as [Hp Hnear].
    apply list_elem_of_In, elem_of_take in Hp as (i & Hi & _).
    apply list_elem_of_lookup_2, list_elem_of_In, filter_In in Hi as [Hin Hroom].
    apply list_elem_of_In, list_elem_of_fmap in Hin as ([id p'] & -> & Hin).
    apply elem_of_map_to_list in Hin. split; [exists id; exact Hin |].
    split; [exact Hroom |].
    apply existsb_exists in Hnear as (stop & Hstop & Hwithin).
    exists stop. split; [apply list_elem_of_In, Hstop |].
    unfold DistanceCalculator.isWithinRadius in Hwithin.
    destruct (Qleb_spec (DistanceCalculator.calculateDistance pickupLocation (location stop))
                (Config.MATCHING_RADIUS_KM (config env))); [assumption | discriminate].
Qed.

Lemma hasRoomFor_canAccommodate (requiredSeats requiredLuggage : Z) (p : RidePool.t) :
  hasRoomFor requiredSeats requiredLuggage p = true ->
  (RidePool.status p = RidePool.forming \/ RidePool.status p = RidePool.matched)
  /\ RidePool.canAccommodate p requiredSeats requiredLuggage = true.
Proof.
  unfold hasRoomFor, RidePool.canAccommodate.
  destruct (RidePool.status p); try discriminate; intros ->; split; auto.
Qed.

(** X20.  [findNearbyPools] hands on at most 20 pools; each of them is a
    document of the collection that is forming or matched, accommodates the
    party, and has a stop within the matching radius of the pickup.  It
    writes nothing. *)
Theorem findNearbyPools_sound (env : Env) (pickupLocation : Point)
    (requiredSeats requiredLuggage : Z) (w : World) :
  exists nearbyPools,
    findNearbyPools env pickupLocation requiredSeats requiredLuggage w
    = (Return nearbyPools, w)
    /\ (length nearbyPools <= 20)%nat
    /\ forall p, p ∈ nearbyPools ->
         (exists id, pools w !! id = Some p)
         /\ (RidePool.status p = RidePool.forming \/ RidePool.status p = RidePool.matched)
         /\ RidePool.canAccommodate p requiredSeats requiredLuggage = true
         /\ exists stop,
              stop ∈ RidePool.stops (RidePool.route p)
              /\ DistanceCalculator.calculateDistance pickupLocation (location stop)
                 <= Config.MATCHING_RADIUS_KM (config env).
Proof.
  destruct (findNearbyPools_elements env pickupLocation requiredSeats requiredLuggage w)
    as (nearby & Hrun & Hlen & Hall).
  exists nearby. split; [exact Hrun |]. split; [exact Hlen |].
  intros p Hp. destruct (Hall p Hp) as (Hid & Hroom & Hstop).
  apply hasRoomFor_canAccommodate in Hroom as [Hstatus Hcan].
  repeat split; assumption.
Qed.

Lemma calculateDetour_result_cases (stops : list Stop) (P D : Point) :
  let result := fst (DistanceCalculator.calculateDetour stops P D) in
  (DistanceCalculator.detourPercentage result = JSNumber.PInf
   /\ DistanceCalculator.bestRoute result = None)
  \/ exists q route,
      DistanceCalculator.detourPercentage result = Fin q
      /\ DistanceCalculator.bestRoute result = Some route.
Proof.
  cbv zeta. destruct stops as [| s0 stops0].
  { right. simpl. eexists. eexists. split; reflexivity. }
  set (stops := s0 :: stops0).
  rewrite (calculateDetour_closed_form stops) by discriminate. cbn [fst]. cbv zeta.
  cbn [DistanceCalculator.detourPercentage DistanceCalculator.bestRoute].
  destruct (Qlt_le_dec 0 (DistanceCalculator.calculateRouteDistance stops)) as [Hpos | Hzero].
  - destruct (decision_positive (DistanceCalculator.calculateRouteDistance stops)
                (Insertion.candidateDistance stops P D) (length stops) Hpos)
      as (p & d & _ & -> & _).
    right. eexists. eexists. split; reflexivity.
  - rewrite consider_zero_distance.
    + left. split; reflexivity.
    + pose proof (calculateRouteDistance_nonneg stops). lra.
    + intros pos. unfold Insertion.candidateDistance. apply calculateRouteDistance_nonneg.
Qed.

Lemma considerPool_eq (r : RideRequest.t) (acc : option PoolData * JSNum)
    (p : RidePool.t) :
  considerPool r acc p
  = (let detourResult :=
       fst (DistanceCalculator.calculateDetour (RidePool.stops (RidePool.route p))
              (RideRequest.pickupLocation r) (RideRequest.dropoffLocation r)) in
     if JSNumber.gt (DistanceCalculator.detourPercentage detourResult)
          (Fin (RideRequest.detourTolerance r))
     then acc
     else if JSNumber.lt (matchCost p (DistanceCalculator.detourPercentage detourResult))
               (snd acc)
          then (Some {| pool := resequencedPool p; calculatedDetour := detourResult |},
                matchCost p (DistanceCalculator.detourPercentage detourResult))
          else acc).
Proof.
  unfold considerPool. destruct acc as [bestPool minCost].
  pose proof (calculateDetour_leaves (RidePool.stops (RidePool.route p))
                (RideRequest.pickupLocation r) (RideRequest.dropoffLocation r)) as Hleft.
  destruct (DistanceCalculator.calculateDetour _ _ _) as [detourResult stops'].
  cbn [fst snd] in *. subst stops'. cbv zeta.
  fold (resequencedPool p). unfold matchCost.
  cbn [resequencedPool RidePool.set_route RidePool.route RidePool.stops
       RidePool.currentOccupancy].
  rewrite length_imap. reflexivity.
Qed.

Lemma matchCost_Fin (p : RidePool.t) (q : Q) :
  matchCost p (Fin q)
  = Fin (q * 100
         + inject_Z (Z.of_nat (length (RidePool.stops (RidePool.route p))) * 10)
         + inject_Z (RidePool.seats (RidePool.currentOccupancy p) * 5)).
Proof. reflexivity. Qed.

Lemma findBestMatch_fold (r : RideRequest.t) (l : list RidePool.t) :
  let detourOf p :=
    fst (DistanceCalculator.calculateDetour (RidePool.stops (RidePool.route p))
           (RideRequest.pickupLocation r) (RideRequest.dropoffLocation r)) in
  let acc := fold_left (considerPool r) l (None, JSNumber.PInf) in
  (acc = (None, JSNumber.PInf)
   /\ forall p, p ∈ l ->
        JSNumber.gt (DistanceCalculator.detourPercentage (detourOf p))
          (Fin (RideRequest.detourTolerance r)) = true)
  \/ exists p q route,
      p ∈ l
      /\ acc = (Some {| pool := resequencedPool p; calculatedDetour := detourOf p |},
                matchCost p (Fin q))
      /\ DistanceCalculator.detourPercentage (detourOf p) = Fin q
      /\ q <= RideRequest.detourTolerance r
      /\ DistanceCalculator.bestRoute (detourOf p) = Some route
      /\ forall p' q',
           p' ∈ l ->
           DistanceCalculator.detourPercentage (detourOf p') = Fin q' ->
           q' <= RideRequest.detourTolerance r ->
           JSNumber.le (matchCost p (Fin q)) (matchCost p' (Fin q')) = true.
Proof.
  cbv zeta. induction l as [| p l IH] using rev_ind.
  { left. split; [reflexivity |]. intros p Hp. apply elem_of_nil in Hp. contradiction. }
  rewrite fold_left_app. cbn [fold_left]. rewrite considerPool_eq. cbv zeta.
  set (Dp := fst (DistanceCalculator.calculateDetour (RidePool.stops (RidePool.route p))
                    (RideRequest.pickupLocation r) (RideRequest.dropoffLocation r))) in *.
  destruct (JSNumber.gt (DistanceCalculator.detourPercentage Dp)
              (Fin (RideRequest.detourTolerance r))) eqn:Hgt.
  - (* over the tolerance: passed over *)
    destruct IH as [[-> Hall] | (p0 & q0 & route0 & Hin & -> & Hd & Hq & Hroute & Hmin)].
    + left. split; [reflexivity |]. intros p' Hp'.
      apply elem_of_app in Hp' as [Hp' | Hp']; [exact (Hall p' Hp') |].
      apply list_elem_of_singleton in Hp' as ->. exact Hgt.
    + right. exists p0, q0, route0. split; [apply elem_of_app; left; exact Hin |].
      split; [reflexivity |]. split; [exact Hd |]. split; [exact Hq |].
      split; [exact Hroute |]. intros p' q' Hp' Hd' Hq'.
      apply elem_of_app in Hp' as [Hp' | Hp']; [exact (Hmin p' q' Hp' Hd' Hq') |].
      apply list_elem_of_singleton in Hp' as ->. fold Dp in Hd'. exfalso.
      rewrite Hd' in Hgt. unfold JSNumber.gt, JSNumber.lt in Hgt.
      destruct (Qltb_spec (RideRequest.detourTolerance r) q'); [lra | discriminate].
  - (* within the tolerance: a number, with a route *)
    pose proof (calculateDetour_result_cases (RidePool.stops (RidePool.route p))
                  (RideRequest.pickupLocation r) (RideRequest.dropoffLocation r))
      as Hcases.
    cbv zeta in Hcases. fold Dp in Hcases.
    destruct Hcases as [[Hinf _] | (q & route & Hd & Hroute)].
    { rewrite Hinf in Hgt. discriminate. }
    rewrite Hd in Hgt |- *.
    assert (q <= RideRequest.detourTolerance r) as Hq.
    { unfold JSNumber.gt, JSNumber.lt in Hgt.
      destruct (Qltb_spec (RideRequest.detourTolerance r) q); [discriminate | lra]. }
    destruct IH as [[-> Hall] | (p0 & q0 & route0 & Hin & -> & Hd0 & Hq0 & Hroute0 & Hmin)].
    + cbn [snd]. rewrite matchCost_Fin. cbn [JSNumber.lt].
      right. exists p, q, route. split; [apply elem_of_app; right; set_solver |].
      rewrite <- matchCost_Fin.
      split; [reflexivity |]. split; [exact Hd |]. split; [exact Hq |].
      split; [exact Hroute |]. intros p' q' Hp' Hd' Hq'.
      apply elem_of_app in Hp' as [Hp' | Hp'].
      * exfalso. specialize (Hall p' Hp'). rewrite Hd' in Hall.
        unfold JSNumber.gt, JSNumber.lt in Hall.
        destruct (Qltb_spec (RideRequest.detourTolerance r) q'); [lra | discriminate].
      * apply list_elem_of_singleton in Hp' as ->. fold Dp in Hd'. rewrite Hd in Hd'.
        injection Hd' as <-. rewrite matchCost_Fin. cbn [JSNumber.le].
        apply Qleb_true. lra.
    + cbn [snd]. rewrite !matchCost_Fin. cbn [JSNumber.lt].
      match goal with |- context [JSNumber.Qltb ?a ?b] => destruct (Qltb_spec a b) as [Hlt | Hge] end.
      * right. exists p, q, route. split; [apply elem_of_app; right; set_solver |].
        rewrite <- !matchCost_Fin.
        split; [reflexivity |]. split; [exact Hd |]. split; [exact Hq |].
        split; [exact Hroute |]. intros p' q' Hp' Hd' Hq'.
        apply elem_of_app in Hp' as [Hp' | Hp'].
        -- specialize (Hmin p' q' Hp' Hd' Hq'). rewrite !matchCost_Fin in *.
           cbn [JSNumber.le] in *. apply Qleb_true.
           match type of Hmin with
           | JSNumber.Qleb ?a ?b = true => destruct (Qleb_spec a b); [lra | discriminate]
           end.
        -- apply list_elem_of_singleton in Hp' as ->. fold Dp in Hd'. rewrite Hd in Hd'.
           injection Hd' as <-. rewrite matchCost_Fin. cbn [JSNumber.le].
           apply Qleb_true. lra.
      * right. exists p0, q0, route0. split; [apply elem_of_app; left; exact Hin |].
        rewrite <- !matchCost_Fin.
        split; [reflexivity |]. split; [exact Hd0 |]. split; [exact Hq0 |].
        split; [exact Hroute0 |]. intros p' q' Hp' Hd' Hq'.
        apply elem_of_app in Hp' as [Hp' | Hp']; [exact (Hmin p' q' Hp' Hd' Hq') |].
        apply list_elem_of_singleton in Hp' as ->. fold Dp in Hd'. rewrite Hd in Hd'.
        injection Hd' as <-. rewrite !matchCost_Fin. cbn [JSNumber.le].
        apply Qleb_true. lra.
Qed.

(** X21.  The pool [findBestMatch] picks is one of the candidates, its
    detour is a number within the tolerance of the request, it comes with a
    route, and no candidate within the tolerance costs less (the cost being
    100 times the detour, plus 10 for each stop and 5 for each occupied
    seat).  It picks none exactly when every candidate is over the
    tolerance. *)
Theorem findBestMatch_least_cost (rideRequest : RideRequest.t) (candidates : list RidePool.t) :
  let detourOf p :=
    fst (DistanceCalculator.calculateDetour (RidePool.stops (RidePool.route p))
           (RideRequest.pickupLocation rideRequest)
           (RideRequest.dropoffLocation rideRequest)) in
  (findBestMatch rideRequest candidates = None
   <-> forall p, p ∈ candidates ->
         JSNumber.gt (DistanceCalculator.detourPercentage (detourOf p))
           (Fin (RideRequest.detourTolerance rideRequest)) = true)
  /\ forall best,
       findBestMatch rideRequest candidates = Some best ->
       exists p q route,
         p ∈ candidates
         /\ pool best = resequencedPool p
         /\ calculatedDetour best = detourOf p
         /\ DistanceCalculator.detourPercentage (calculatedDetour best) = Fin q
         /\ q <= RideRequest.detourTolerance rideRequest
         /\ DistanceCalculator.bestRoute (calculatedDetour best) = Some route
         /\ forall p' q',
              p' ∈ candidates ->
              DistanceCalculator.detourPercentage (detourOf p') = Fin q' ->
              q' <= RideRequest.detourTolerance rideRequest ->
              JSNumber.le (matchCost p (Fin q)) (matchCost p' (Fin q')) = true.
Proof.
  cbv zeta. unfold findBestMatch.
  destruct (findBestMatch_fold rideRequest candidates)
    as [[E Hall] | (p & q & route & Hin & E & Hd & Hq & Hroute & Hmin)];
    cbv zeta in *; rewrite E; cbn [fst].
  - split; [split; [intros _; exact Hall | reflexivity] |]. discriminate.
  - split.
    + split; [discriminate |]. intros Hall. exfalso.
      specialize (Hall p Hin). rewrite Hd in Hall.
      unfold JSNumber.gt, JSNumber.lt in Hall.
      destruct (Qltb_spec (RideRequest.detourTolerance rideRequest) q);
        [lra | discriminate].
    + intros best [= <-]. exists p, q, route. cbn [pool calculatedDetour].
      repeat split; assumption.
Qed.


(** *** Matching a request *)

Lemma resequencedPool_id (p : RidePool.t) :
  RidePool._id (resequencedPool p) = RidePool._id p.
Proof. reflexivity. Qed.

(** With a best match whose pool is stored under its id and whose lock is
    free, the join succeeds. *)
Lemma processRideRequest_join (env : Env) (r : RideRequest.t) (w : World)
    (nearbyPools : list RidePool.t) (best : PoolData) :
  storedUnderId w ->
  findNearbyPools env (RideRequest.pickupLocation r) (RideRequest.passengers r)
    (RideRequest.luggage r) w = (Return nearbyPools, w) ->
  findBestMatch r nearbyPools = Some best ->
  Redis.keys (redis w) !! lockKeyOf (RidePool._id (pool best)) = None ->
  exists found bestRoute w',
    pools w !! RidePool._id (pool best) = Some found
    /\ RidePool._id found = RidePool._id (pool best)
    /\ RidePool.canAccommodate found (RideRequest.passengers r) (RideRequest.luggage r)
       = true
    /\ DistanceCalculator.bestRoute (calculatedDetour best) = Some bestRoute
    /\ processRideRequest env r w
       = (Return {| poolId := RidePool._id (pool best);
                    isNewPool := false;
                    estimatedPrice :=
                      PricingEngine.calculatePassengerPrice (config env) (hour env) r found
                        (DistanceCalculator.detourPercentage (calculatedDetour best)) None;
                    mr_detour :=
                      DistanceCalculator.detourPercentage (calculatedDetour best) |},
          w')
    /\ pools w'
       = <[RidePool._id (pool best) := joinedFrom env best r found bestRoute]> (pools w)
    /\ requests w' = matchedWith r (RidePool._id (pool best)) (requests w)
    /\ Redis.keys (redis w') = Redis.keys (redis w).
Proof.
  intros Hstored Hnear Hbest Hfree.
  destruct (findNearbyPools_elements env (RideRequest.pickupLocation r)
              (RideRequest.passengers r) (RideRequest.luggage r) w)
    as (nearby' & Hnear' & _ & Hall).
  rewrite Hnear in Hnear'. injection Hnear' as <-.
  pose proof (findBestMatch_fold r nearbyPools) as Hfold. cbv zeta in Hfold.
  unfold findBestMatch in Hbest.
  destruct Hfold as [[E _] | (p & q & route & Hin & E & _ & _ & Hroute & _)];
    rewrite E in Hbest; [discriminate |].
  cbn [fst] in Hbest. injection Hbest as <-. cbn [pool calculatedDetour] in *.
  rewrite resequencedPool_id in *.
  destruct (Hall p Hin) as ((id & Hid) & Hroom & _).
  apply hasRoomFor_canAccommodate in Hroom as [_ Hcan].
  pose proof (Hstored id p Hid) as <-.
  destruct (processRideRequest env r w) as [o w'] eqn:Hrun.
  exists p, route, w'. split; [exact Hid |]. split; [reflexivity |].
  split; [exact Hcan |]. split; [exact Hroute |].
  apply processRideRequest_cases in Hrun as (nearby' & Hnear' & Hcases).
  rewrite Hnear in Hnear'. injection Hnear' as <-.
  unfold findBestMatch in Hcases. rewrite E in Hcases. cbn [fst] in Hcases.
  destruct Hcases as [[Hnone _] | (m & [= <-] & Hcases)]; [discriminate |].
  cbn [pool calculatedDetour] in Hcases. rewrite resequencedPool_id in Hcases.
  destruct Hcases as [(holder & Hheld & _) | Hjoin]; [congruence |].
  destruct Hjoin as (w1 & result & w2 & w3 & _ & Hp1 & Hr1 & Ejoin & Hp3 & Hr3 & Hk3 & Hend).
  rewrite addToExistingPool_eq in Ejoin. cbn [pool calculatedDetour] in Ejoin.
  rewrite resequencedPool_id, Hp1, Hid, Hcan, Hroute in Ejoin.
  injection Ejoin as <- <-. cbn [success price detour joined default pools requests] in *.
  destruct Hend as [(_ & -> & ->) | (Hfalse & _)]; [| discriminate].
  split; [reflexivity |]. rewrite Hp3, Hr3, ?Hp1, ?Hr1. repeat split. exact Hk3.
Qed.

(** X22.  How a request is matched when nothing interferes: in a
    collection that stores every pool under its id, a request for which
    [findBestMatch] picks a pool whose lock is free joins that pool.  The
    call returns that pool's id with the price of the passenger, the pool is
    stored with the entry of the request appended, the request is marked as
    matched with it, and no other pool is written. *)
Theorem processRideRequest_joins_best_match (env : Env) (rideRequest : RideRequest.t)
    (w : World) (nearbyPools : list RidePool.t) (best : PoolData) :
  storedUnderId w ->
  findNearbyPools env (RideRequest.pickupLocation rideRequest)
    (RideRequest.passengers rideRequest) (RideRequest.luggage rideRequest) w
  = (Return nearbyPools, w) ->
  findBestMatch rideRequest nearbyPools = Some best ->
  Redis.keys (redis w) !! lockKeyOf (RidePool._id (pool best)) = None ->
  exists found saved result w',
    processRideRequest env rideRequest w = (Return result, w')
    /\ poolId result = RidePool._id (pool best)
    /\ isNewPool result = false
    /\ mr_detour result = DistanceCalculator.detourPercentage (calculatedDetour best)
    /\ pools w !! poolId result = Some found
    /\ pools w' !! poolId result = Some saved
    /\ RidePool.passengers saved
       = RidePool.passengers found ++ [passengerOf rideRequest (estimatedPrice result)]
    /\ (forall id, id <> poolId result -> pools w' !! id = pools w !! id)
    /\ (forall stored,
          requests w !! RideRequest._id rideRequest = Some stored ->
          requests w' !! RideRequest._id rideRequest
          = Some (RideRequest.update RideRequest.matched (Some (poolId result)) stored)).
Proof.
  intros Hstored Hnear Hbest Hfree.
  destruct (processRideRequest_join env rideRequest w nearbyPools best
              Hstored Hnear Hbest Hfree)
    as (found & route & w' & Hfound & _ & _ & _ & Hrun & Hpools & Hreq & _).
  exists found, (joinedFrom env best rideRequest found route). eexists. exists w'.
  split; [exact Hrun |]. cbn [poolId isNewPool mr_detour estimatedPrice].
  split; [reflexivity |]. split; [reflexivity |]. split; [reflexivity |].
  split; [exact Hfound |]. split; [rewrite Hpools; apply lookup_insert_eq |].
  split.
  { unfold joinedFrom. cbv zeta. destruct (_ && _); reflexivity. }
  split; [intros id Hne; rewrite Hpools; apply lookup_insert_ne; congruence |].
  intros stored Hstoredr. rewrite Hreq. unfold matchedWith. rewrite Hstoredr.
  apply lookup_insert_eq.
Qed.


Lemma storedUnderId_insert (w : World) (m : gmap ObjectId RidePool.t) (p : RidePool.t) :
  storedUnderId w -> m = <[RidePool._id p := p]> (pools w) ->
  forall id p', m !! id = Some p' -> RidePool._id p' = id.
Proof.
  intros Hw -> id p' Hp'. destruct (decide (id = RidePool._id p)) as [-> | Hne].
  - rewrite lookup_insert_eq in Hp'. congruence.
  - rewrite lookup_insert_ne in Hp' by congruence. exact (Hw id p' Hp').
Qed.

Lemma joinedFrom_id (env : Env) (poolData : PoolData) (r : RideRequest.t)
    (found : RidePool.t) (bestRoute : list Stop) :
  RidePool._id (joinedFrom env poolData r found bestRoute) = RidePool._id found.
Proof. unfold joinedFrom. cbv zeta. destruct (_ && _); reflexivity. Qed.

Lemma joinedFrom_passengers (env : Env) (poolData : PoolData) (r : RideRequest.t)
    (found : RidePool.t) (bestRoute : list Stop) :
  RidePool.passengers (joinedFrom env poolData r found bestRoute)
  = RidePool.passengers found
    ++ [passengerOf r
          (PricingEngine.calculatePassengerPrice (config env) (hour env) r found
             (DistanceCalculator.detourPercentage (calculatedDetour poolData)) None)].
Proof. unfold joinedFrom. cbv zeta. destruct (_ && _); reflexivity. Qed.

(** What a new pool leaves behind. *)
Lemma createNewPool_places (env : Env) (r : RideRequest.t) (w0 w w' : World)
    (created : RidePool.t) :
  pools w = pools w0 -> requests w = requests w0 ->
  createNewPool env r w = (Return created, w') ->
  pools w0 !! newPoolId env = None
  /\ RidePool._id created = newPoolId env
  /\ pools w' = <[newPoolId env := created]> (pools w0)
  /\ requests w' = matchedWith r (newPoolId env) (requests w0)
  /\ RidePool.passengers created = [passengerOf r (estimatedPrice (createdResult created))].
Proof.
  intros Hp Hr Hrun.
  destruct (createNewPool_cases env r w)
    as [[_ E] | (Hnone & c & price & E & Hid & _ & Hps & _)];
    rewrite E in Hrun; [discriminate |].
  injection Hrun as <- <-. cbn [pools requests]. rewrite <- Hp, <- Hr.
  split; [exact Hnone |]. split; [exact Hid |]. split; [reflexivity |].
  split; [reflexivity |]. unfold createdResult. cbn [estimatedPrice].
  rewrite Hps. reflexivity.
Qed.

(** X23.  A request that [processRideRequest] answers has been placed: in
    a collection that stores every pool under its id, the pool named in the
    answer is stored afterwards under that id, the last of its entries is
    the one of the request, with the price of the answer, and the request is
    marked as matched with it.  A new pool has this entry alone and takes an
    id that was free; a joined pool has its earlier entries before it.  No
    other pool is written, and the pools are still stored under their
    ids. *)
Theorem processRideRequest_places_request (env : Env) (rideRequest : RideRequest.t)
    (w w' : World) (result : MatchResult) :
  storedUnderId w ->
  processRideRequest env rideRequest w = (Return result, w') ->
  exists p,
    pools w' !! poolId result = Some p
    /\ RidePool._id p = poolId result
    /\ match pools w !! poolId result with
       | None =>
           isNewPool result = true
           /\ RidePool.passengers p = [passengerOf rideRequest (estimatedPrice result)]
       | Some found =>
           isNewPool result = false
           /\ RidePool.passengers p
              = RidePool.passengers found
                ++ [passengerOf rideRequest (estimatedPrice result)]
       end
    /\ (forall id, id <> poolId result -> pools w' !! id = pools w !! id)
    /\ (forall stored,
          requests w !! RideRequest._id rideRequest = Some stored ->
          requests w' !! RideRequest._id rideRequest
          = Some (RideRequest.update RideRequest.matched (Some (poolId result)) stored))
    /\ storedUnderId w'.
Proof.
  intros Hstored Hrun.
  assert (forall w1 created,
            pools w1 = pools w -> requests w1 = requests w ->
            createNewPool env rideRequest w1 = (Return created, w') ->
            result = createdResult created ->
            exists p,
              pools w' !! poolId result = Some p
              /\ RidePool._id p = poolId result
              /\ match pools w !! poolId result with
                 | None =>
                     isNewPool result = true
                     /\ RidePool.passengers p
                        = [passengerOf rideRequest (estimatedPrice result)]
                 | Some found =>
                     isNewPool result = false
                     /\ RidePool.passengers p
                        = RidePool.passengers found
                          ++ [passengerOf rideRequest (estimatedPrice result)]
                 end
              /\ (forall id, id <> poolId result -> pools w' !! id = pools w !! id)
              /\ (forall stored,
                    requests w !! RideRequest._id rideRequest = Some stored ->
                    requests w' !! RideRequest._id rideRequest
                    = Some (RideRequest.update RideRequest.matched (Some (poolId result))
                              stored))
              /\ storedUnderId w') as Hcreated.
  { intros w1 created Hp1 Hr1 Hc ->.
    destruct (createNewPool_places env rideRequest w w1 w' created Hp1 Hr1 Hc)
      as (Hnone & Hid & Hpools & Hreq & Hps).
    exists created. cbn [poolId createdResult isNewPool]. rewrite Hid, Hnone.
    split; [rewrite Hpools; apply lookup_insert_eq |]. split; [reflexivity |].
    split; [split; [reflexivity | exact Hps] |].
    split; [intros id Hne; rewrite Hpools; apply lookup_insert_ne; congruence |].
    split.
    - intros stored Hs. rewrite Hreq. unfold matchedWith. rewrite Hs.
      apply lookup_insert_eq.
    - intros id p Hp. apply (storedUnderId_insert w (pools w') created Hstored);
        [rewrite Hid; exact Hpools | exact Hp]. }
  apply processRideRequest_cases in Hrun as (nearby & Hnear & Hcases).
  destruct Hcases as [(_ & Hnew) | (m & Hbest & [(holder & _ & Habs & _) | Hjoin])].
  - destruct Hnew as [(e & _ & Habs) | (c & Hc & [= ->])]; [discriminate |].
    exact (Hcreated w c eq_refl eq_refl Hc eq_refl).
  - discriminate.
  - destruct Hjoin as (w1 & jr & w2 & w3 & _ & Hp1 & Hr1 & Ejoin & Hp3 & Hr3 & _ & Hend).
    rewrite addToExistingPool_eq, Hp1 in Ejoin.
    destruct Hend as [(Hok & [= ->] & ->) | (Hfail & Hnew)].
    + destruct (pools w !! RidePool._id (pool m)) as [found |] eqn:Efound;
        [| injection Ejoin as <- <-; discriminate].
      destruct (RidePool.canAccommodate found _ _);
        [| injection Ejoin as <- <-; discriminate].
      destruct (DistanceCalculator.bestRoute _) as [route |];
        [| injection Ejoin as <- <-; discriminate].
      injection Ejoin as <- <-. clear Hcreated.
      cbn [poolId isNewPool estimatedPrice price joined pools requests] in *.
      change (default JSNumber.NaN (Some ?x)) with x.
      pose proof (Hstored _ _ Efound) as Hid. rewrite Hid in Hp3, Hr3.
      exists (joinedFrom env m rideRequest found route).
      rewrite Efound, Hp3.
      split; [apply lookup_insert_eq |].
      split; [rewrite joinedFrom_id; exact Hid |].
      split; [split; [reflexivity | apply joinedFrom_passengers] |].
      split; [intros id Hne; apply lookup_insert_ne; congruence |].
      split.
      * intros stored Hs. rewrite Hr3, Hr1. unfold matchedWith. rewrite Hs.
        apply lookup_insert_eq.
      * intros id p.
        apply (storedUnderId_insert w (pools w3)
                 (joinedFrom env m rideRequest found route) Hstored).
        rewrite joinedFrom_id, Hid. exact Hp3.
    + assert (w2 = w1) as ->.
      { destruct (pools w !! RidePool._id (pool m)) as [found |];
          [| injection Ejoin as _ <-; reflexivity].
        destruct (RidePool.canAccommodate found _ _);
          [| injection Ejoin as _ <-; reflexivity].
        destruct (DistanceCalculator.bestRoute _) as [route |];
          injection Ejoin as <- <-; [discriminate | reflexivity]. }
      destruct Hnew as [(e & _ & Habs) | (c & Hc & [= ->])]; [discriminate |].
      apply (Hcreated w3 c); [congruence | congruence | exact Hc | reflexivity].
Qed.


(** *** Cancelling *)

Lemma removePassenger_route (this : RidePool.t) (userId : ObjectId) :
  RidePool.route (fst (RidePool.removePassenger this userId)) = RidePool.route this
  /\ RidePool._id (fst (RidePool.removePassenger this userId)) = RidePool._id this
  /\ RidePool.status (fst (RidePool.removePassenger this userId)) = RidePool.status this
  /\ RidePool.__v (fst (RidePool.removePassenger this userId)) = RidePool.__v this.
Proof.
  unfold RidePool.removePassenger. destruct (List.find _ _); repeat split; reflexivity.
Qed.

Lemma cancelRide_try_eq (env : Env) (userId poolId : ObjectId) (w : World) :
  cancelRide_try env userId poolId w
  = match pools w !! poolId with
    | None => (Throw "Pool not found", w)
    | Some found =>
        if snd (RidePool.removePassenger found userId)
        then
          if match RidePool.passengers (fst (RidePool.removePassenger found userId)) with
             | [] => true
             | _ :: _ =>
                 forallb (fun stop => bool_decide (is_Some (passengerId stop)))
                   (RidePool.stops (RidePool.route found))
             end
          then (Return {| cr_success := true;
                          cr_pool := cancelledFrom env userId found |},
                {| pools := <[RidePool._id found := cancelledFrom env userId found]> (pools w);
                   requests := requests w; redis := redis w |})
          else (Throw "Cannot read properties of undefined (reading 'toString')", w)
        else (Throw "Passenger not found in pool", w)
    end.
Proof.
  unfold cancelRide_try, bind, RidePool_findById. cbn beta iota.
  destruct (pools w !! poolId) as [found |] eqn:Efound; [| reflexivity].
  unfold cancelledFrom.
  pose proof (removePassenger_route found userId) as (Hroute & Hid & _).
  pose proof (removePassenger_passengers found userId) as Hps.
  destruct (RidePool.removePassenger found userId) as [removed ok] eqn:Erem.
  cbn [fst snd] in *.
  destruct ok; cbn [negb]; [| reflexivity].
  destruct (RidePool.passengers removed) as [| e rest] eqn:Eps.
  - unfold ret, RidePool_save. simpl. rewrite Eps. simpl. rewrite Hid. reflexivity.
  - rewrite Hroute.
    destruct (forallb _ _); cbn [negb]; [| reflexivity].
    unfold ret, RidePool_save. simpl.
    rewrite Eps, Hps, find_after_filter, Hid. reflexivity.
Qed.

Lemma cancelRide_cases (env : Env) (userId poolId : ObjectId) (w w' : World)
    (o : Outcome CancelResult) :
  cancelRide env userId poolId w = (o, w') ->
  (exists holder,
     Redis.keys (redis w) !! lockKeyOf poolId = Some holder
     /\ o = Throw (lockFailure (lockKeyOf poolId))
     /\ w' = refused env (lockKeyOf poolId) w)
  \/ exists w1 w2,
      Redis.keys (redis w) !! lockKeyOf poolId = None
      /\ pools w1 = pools w /\ requests w1 = requests w
      /\ cancelRide_try env userId poolId w1 = (o, w2)
      /\ pools w' = pools w2 /\ requests w' = requests w2
      /\ Redis.keys (redis w') = Redis.keys (redis w).
Proof.
  intros Hrun. unfold cancelRide in Hrun. cbv zeta in Hrun. unfold bind in Hrun.
  destruct (Redis.keys (redis w) !! lockKeyOf poolId) as [holder |] eqn:Ekey.
  - left. exists holder. rewrite (acquireLock_held env _ holder w Ekey) in Hrun.
    injection Hrun as <- <-. repeat split; reflexivity.
  - right. rewrite (acquireLock_free env _ w Ekey) in Hrun. unfold try_finally in Hrun.
    match type of Hrun with
    | context [cancelRide_try env userId poolId ?x] => set (w1 := x) in *
    end.
    destruct (cancelRide_try env userId poolId w1) as [ob w2] eqn:Ebody.
    pose proof (cancelRide_try_redis _ _ _ _ _ _ Ebody) as Eredis.
    destruct (acquire_then_release env _ w w2 Ekey Eredis) as (w3 & Erel & Hp & Hr & Hk).
    rewrite Erel in Hrun. injection Hrun as <- <-.
    exists w1, w2. repeat split; assumption.
Qed.

(** X24.  What [cancelRide] throws, and that a failed cancellation writes
    nothing.  With the lock free, a pool id that is not in the collection
    gives "Pool not found" and a user without an entry in the pool gives
    "Passenger not found in pool"; and whenever [cancelRide] throws, the
    pools, the requests and the locks are as before. *)
Theorem cancelRide_failures (env : Env) (userId poolId : ObjectId) (w : World) :
  Redis.keys (redis w) !! lockKeyOf poolId = None ->
  (pools w !! poolId = None ->
   fst (cancelRide env userId poolId w) = Throw "Pool not found")
  /\ (forall found,
        pools w !! poolId = Some found ->
        entriesOf userId (RidePool.passengers found) = [] ->
        fst (cancelRide env userId poolId w) = Throw "Passenger not found in pool")
  /\ (forall e w',
        cancelRide env userId poolId w = (Throw e, w') ->
        pools w' = pools w /\ requests w' = requests w
        /\ Redis.keys (redis w') = Redis.keys (redis w)).
Proof.
  intros Hfree.
  assert (forall o w',
            cancelRide env userId poolId w = (o, w') ->
            exists w1 w2,
              pools w1 = pools w /\ requests w1 = requests w
              /\ cancelRide_try env userId poolId w1 = (o, w2)
              /\ pools w' = pools w2 /\ requests w' = requests w2
              /\ Redis.keys (redis w') = Redis.keys (redis w)) as Hcases.
  { intros o w' Hrun.
    apply cancelRide_cases in Hrun as [(holder & Hheld & _) | (w1 & w2 & _ & Hrest)];
      [congruence |].
    exists w1, w2. exact Hrest. }
  split; [| split].
  - intros Hnone. destruct (cancelRide env userId poolId w) as [o w'] eqn:Hrun.
    destruct (Hcases o w' eq_refl) as (w1 & w2 & Hp1 & _ & Htry & _).
    rewrite cancelRide_try_eq, Hp1, Hnone in Htry. injection Htry as <- _. reflexivity.
  - intros found Hfound Habsent.
    destruct (cancelRide env userId poolId w) as [o w'] eqn:Hrun.
    destruct (Hcases o w' eq_refl) as (w1 & w2 & Hp1 & _ & Htry & _).
    rewrite cancelRide_try_eq, Hp1, Hfound in Htry.
    apply removePassenger_false in Habsent. rewrite Habsent in Htry.
    injection Htry as <- _. reflexivity.
  - intros e w' Hrun.
    destruct (Hcases _ w' Hrun) as (w1 & w2 & Hp1 & Hr1 & Htry & Hp & Hr & Hk).
    apply cancelRide_try_Throw in Htry as ->.
    repeat split; congruence.
Qed.


Lemma owned_forallb (stops : list Stop) :
  forallb (fun stop => bool_decide (is_Some (passengerId stop))) stops = true
  <-> owned stops.
Proof.
  unfold owned. rewrite forallb_forall, Forall_forall. split.
  - intros Hall stop Hstop. apply list_elem_of_In, Hall in Hstop.
    apply bool_decide_eq_true_1 in Hstop. exact Hstop.
  - intros Hall stop Hstop. apply bool_decide_eq_true_2, Hall, list_elem_of_In, Hstop.
Qed.


Lemma cancelledFrom_passengers (env : Env) (userId : ObjectId) (found : RidePool.t) :
  RidePool.passengers (cancelledFrom env userId found)
  = RidePool.passengers (fst (RidePool.removePassenger found userId))
  /\ RidePool._id (cancelledFrom env userId found) = RidePool._id found
  /\ RidePool.__v (cancelledFrom env userId found) = (RidePool.__v found + 1)%Z
  /\ RidePool.currentOccupancy (cancelledFrom env userId found)
     = RidePool.currentOccupancy (fst (RidePool.removePassenger found userId)).
Proof.
  unfold cancelledFrom. cbv zeta.
  pose proof (removePassenger_route found userId) as (_ & Hid & _ & Hv).
  destruct (RidePool.passengers (fst (RidePool.removePassenger found userId))) eqn:E;
    cbn; rewrite ?E, Hid, Hv; repeat split; reflexivity.
Qed.


(** X26.  What a successful join writes: the pool found, with the entry of
    the request appended (at the price of the answer), the stops of the
    candidate's route in their order, numbered by index, each with a
    passenger -- the one it had, or the user of the request -- the distance
    of the candidate and the duration estimated from it, and the version
    raised by one.  A forming pool that had an entry before becomes
    matched; any other status stays. *)
Theorem addToExistingPool_writes (env : Env) (poolData : PoolData)
    (rideRequest : RideRequest.t) (w w' : World) (result : JoinResult) :
  addToExistingPool env poolData rideRequest w = (Return result, w') ->
  success result = true ->
  exists found bestRoute saved amount,
    pools w !! RidePool._id (pool poolData) = Some found
    /\ DistanceCalculator.bestRoute (calculatedDetour poolData) = Some bestRoute
    /\ pools w' = <[RidePool._id found := saved]> (pools w)
    /\ price result = Some amount
    /\ detour result = Some (DistanceCalculator.detourPercentage (calculatedDetour poolData))
    /\ RidePool._id saved = RidePool._id found
    /\ RidePool.__v saved = (RidePool.__v found + 1)%Z
    /\ RidePool.passengers saved
       = RidePool.passengers found ++ [passengerOf rideRequest amount]
    /\ (RidePool.status saved
        = match RidePool.status found, RidePool.passengers found with
          | RidePool.forming, _ :: _ => RidePool.matched
          | status, _ => status
          end)
    /\ numbered (RidePool.stops (RidePool.route saved))
    /\ owned (RidePool.stops (RidePool.route saved))
    /\ location <$> RidePool.stops (RidePool.route saved) = location <$> bestRoute
    /\ type <$> RidePool.stops (RidePool.route saved) = type <$> bestRoute
    /\ passengerId <$> RidePool.stops (RidePool.route saved)
       = (fun stop => Some (default (RideRequest.userId rideRequest) (passengerId stop)))
           <$> bestRoute
    /\ RidePool.totalDistance (RidePool.route saved)
       = Fin (DistanceCalculator.newDistance (calculatedDetour poolData))
    /\ RidePool.totalDuration (RidePool.route saved)
       = DistanceCalculator.estimateDuration
           (Fin (DistanceCalculator.newDistance (calculatedDetour poolData))).
Proof.
  intros Hrun Hok. rewrite addToExistingPool_eq in Hrun.
  destruct (pools w !! _) as [found |]; [| injection Hrun as <- _; discriminate].
  destruct (RidePool.canAccommodate found _ _); [| injection Hrun as <- _; discriminate].
  destruct (DistanceCalculator.bestRoute _) as [bestRoute |];
    [| injection Hrun as <- _; discriminate].
  injection Hrun as <- <-.
  exists found, bestRoute, (joinedFrom env poolData rideRequest found bestRoute).
  eexists. split; [reflexivity |]. split; [reflexivity |]. split; [reflexivity |].
  split; [reflexivity |]. split; [reflexivity |].
  split; [apply joinedFrom_id |].
  split; [unfold joinedFrom; cbv zeta; destruct (_ && _); reflexivity |].
  split; [apply joinedFrom_passengers |].
  split.
  { unfold joinedFrom. cbv zeta.
    cbn [RidePool.passengers RidePool.addPassenger RidePool.set_route
         RidePool.set_passengers RidePool.set_currentOccupancy RidePool.status].
    rewrite length_app. cbn [length].
    assert ((2 <=? length (RidePool.passengers found) + 1)%nat
            = match RidePool.passengers found with [] => false | _ :: _ => true end) as ->.
    { destruct (RidePool.passengers found) as [| e [| e' rest]]; reflexivity. }
    destruct (RidePool.status found) eqn:Est, (RidePool.passengers found) eqn:Eps;
      cbn [andb RidePool.preSave RidePool.set___v RidePool.set_matchedAt
           RidePool.set_status RidePool.set_route RidePool.status];
      try reflexivity; exact Est. }
  assert (RidePool.route (joinedFrom env poolData rideRequest found bestRoute)
          = {| RidePool.stops := stopsOfBestRoute rideRequest bestRoute;
               RidePool.totalDistance :=
                 Fin (DistanceCalculator.newDistance (calculatedDetour poolData));
               RidePool.totalDuration :=
                 DistanceCalculator.estimateDuration
                   (Fin (DistanceCalculator.newDistance (calculatedDetour poolData)));
               RidePool.optimizedAt := Some (now env) |}) as ->.
  { unfold joinedFrom. cbv zeta. destruct (_ && _); reflexivity. }
  cbn [RidePool.stops RidePool.totalDistance RidePool.totalDuration].
  unfold stopsOfBestRoute, numbered, owned.
  split; [rewrite fmap_imap, length_imap; apply (imap_seq_0 bestRoute Z.of_nat) |].
  split.
  { apply Forall_forall. intros stop Hstop.
    apply elem_of_lookup_imap in Hstop as (i & s & -> & _). eexists. reflexivity. }
  rewrite !fmap_imap.
  split; [apply (imap_const location) |].
  split; [apply (imap_const type) |].
  split; [| split; reflexivity].
  apply (imap_const (fun stop =>
                       Some (default (RideRequest.userId rideRequest) (passengerId stop)))).
Qed.


(** *** What holds of every pool the engine has written *)

Lemma totals_nonneg (entries : list Passenger.t) :
  Forall (fun e => (0 <= Passenger.passengerCount e)%Z /\ (0 <= Passenger.luggageCount e)%Z)
    entries ->
  (0 <= totalSeats entries)%Z /\ (0 <= totalLuggage entries)%Z.
Proof.
  unfold totalSeats, totalLuggage.
  induction 1 as [| e entries [Hs Hl] _ [IHs IHl]]; simpl; lia.
Qed.

Lemma entriesOf_counts (userId : ObjectId) (entries : list Passenger.t) :
  Forall (fun e => (0 <= Passenger.passengerCount e)%Z /\ (0 <= Passenger.luggageCount e)%Z)
    entries ->
  (from_option Passenger.passengerCount 0 (head (entriesOf userId entries))
   <= totalSeats (entriesOf userId entries))%Z
  /\ (from_option Passenger.luggageCount 0 (head (entriesOf userId entries))
      <= totalLuggage (entriesOf userId entries))%Z.
Proof.
  intros Hall.
  assert (Forall (fun e => (0 <= Passenger.passengerCount e)%Z
                           /\ (0 <= Passenger.luggageCount e)%Z)
            (entriesOf userId entries)) as Hof.
  { apply Forall_forall. intros e He. unfold entriesOf in He.
    apply list_elem_of_In, filter_In in He as [He _].
    rewrite Forall_forall in Hall. apply Hall, list_elem_of_In, He. }
  destruct (entriesOf userId entries) as [| e rest]; [simpl; lia |].
  apply Forall_cons in Hof as [_ Hrest]. apply totals_nonneg in Hrest.
  unfold totalSeats, totalLuggage in *. simpl. lia.
Qed.

Lemma created_wellFormed (env : Env) (r : RideRequest.t) (w w' : World)
    (created : RidePool.t) :
  createNewPool env r w = (Return created, w') ->
  wellFormedPool (newPoolId env) created.
Proof.
  intros Hrun.
  destruct (createNewPool_cases env r w)
    as [[_ E] | (_ & c & price & E & Hid & _ & Hps & Hstops & Hocc & _)];
    rewrite E in Hrun; [discriminate |].
  injection Hrun as <- _. unfold wellFormedPool.
  rewrite Hid, Hps, Hstops, Hocc. split; [reflexivity |]. split; [reflexivity |].
  split.
  { unfold owned. repeat constructor; eexists; reflexivity. }
  unfold totalSeats, totalLuggage. simpl. lia.
Qed.

Lemma joinedFrom_wellFormed (env : Env) (poolData : PoolData) (r : RideRequest.t)
    (found : RidePool.t) (bestRoute : list Stop) (id : ObjectId) :
  wellFormedPool id found ->
  wellFormedPool id (joinedFrom env poolData r found bestRoute).
Proof.
  intros (Hid & _ & _ & Hs & Hl). unfold wellFormedPool.
  rewrite joinedFrom_id, joinedFrom_passengers, totalSeats_app, totalLuggage_app.
  split; [exact Hid |].
  assert (RidePool.stops (RidePool.route (joinedFrom env poolData r found bestRoute))
          = stopsOfBestRoute r bestRoute) as ->
      by (unfold joinedFrom; cbv zeta; destruct (_ && _); reflexivity).
  assert (RidePool.currentOccupancy (joinedFrom env poolData r found bestRoute)
          = {| RidePool.seats :=
                 (RidePool.seats (RidePool.currentOccupancy found)
                  + RideRequest.passengers r)%Z;
               RidePool.luggage :=
                 (RidePool.luggage (RidePool.currentOccupancy found)
                  + RideRequest.luggage r)%Z |}) as ->
      by (unfold joinedFrom; cbv zeta; destruct (_ && _); reflexivity).
  unfold stopsOfBestRoute, numbered, owned.
  split; [rewrite fmap_imap, length_imap; apply (imap_seq_0 bestRoute Z.of_nat) |].
  split.
  { apply Forall_forall. intros stop Hstop.
    apply elem_of_lookup_imap in Hstop as (i & s & -> & _). eexists. reflexivity. }
  unfold totalSeats, totalLuggage in *. simpl. lia.
Qed.

Lemma cancelledFrom_wellFormed (env : Env) (userId : ObjectId) (found : RidePool.t)
    (id : ObjectId) :
  wellFormedPool id found -> countsNonneg found ->
  wellFormedPool id (cancelledFrom env userId found).
Proof.
  intros (Hid & Hnum & Howned & Hs & Hl) Hcounts. unfold wellFormedPool.
  pose proof (cancelledFrom_passengers env userId found) as (Hps & Hid' & _ & Hocc).
  rewrite Hps, Hid', Hocc. split; [exact Hid |].
  pose proof (removePassenger_route found userId) as (Hroute & _).
  assert (numbered (RidePool.stops (RidePool.route (cancelledFrom env userId found)))
          /\ owned (RidePool.stops (RidePool.route (cancelledFrom env userId found))))
    as [Hnum' Howned'].
  { unfold cancelledFrom. cbv zeta.
    destruct (RidePool.passengers (fst (RidePool.removePassenger found userId))).
    - cbn. rewrite Hroute. split; assumption.
    - cbn [RidePool.preSave RidePool.set___v RidePool.set_route RidePool.route
           RidePool.stops].
      rewrite Hroute. split.
      + unfold numbered. rewrite sequence_resequenced, length_imap. reflexivity.
      + unfold owned in *. apply Forall_forall. intros stop Hstop.
        apply elem_of_lookup_imap in Hstop as (i & s & -> & Hs').
        apply list_elem_of_lookup_2, list_elem_of_In, filter_In in Hs' as [Hs' _].
        rewrite Forall_forall in Howned. apply (Howned s), list_elem_of_In, Hs'. }
  split; [exact Hnum' |]. split; [exact Howned' |].
  pose proof (removePassenger_occupancy found userId) as [Es El]. cbv zeta in Es, El.
  rewrite Es, El, removePassenger_passengers.
  pose proof (totalSeats_split userId (RidePool.passengers found)).
  pose proof (totalLuggage_split userId (RidePool.passengers found)).
  pose proof (entriesOf_counts userId (RidePool.passengers found) Hcounts) as [? ?].
  lia.
Qed.

(** The pools of a collection are sound and well formed. *)
Lemma insert_kept (m : gmap ObjectId RidePool.t) (id : ObjectId) (p : RidePool.t) :
  (forall id' p', m !! id' = Some p' -> soundPool p' /\ wellFormedPool id' p') ->
  soundPool p -> wellFormedPool id p ->
  forall id' p', <[id := p]> m !! id' = Some p' -> soundPool p' /\ wellFormedPool id' p'.
Proof.
  intros Hm Hsound Hwf id' p' Hp'. destruct (decide (id' = id)) as [-> | Hne].
  - rewrite lookup_insert_eq in Hp'. injection Hp' as <-. split; assumption.
  - rewrite lookup_insert_ne in Hp' by congruence. exact (Hm id' p' Hp').
Qed.

Lemma createNewPool_keeps (env : Env) (r : RideRequest.t) (w w' : World)
    (o : Outcome RidePool.t) :
  createNewPool env r w = (o, w') ->
  RideRequest.valid r -> fitsCab (config env) r ->
  (forall id p, pools w !! id = Some p -> soundPool p /\ wellFormedPool id p) ->
  forall id p, pools w' !! id = Some p -> soundPool p /\ wellFormedPool id p.
Proof.
  intros Hrun Hvalid Hfits Hw.
  destruct o as [created | e].
  - pose proof (created_wellFormed _ _ _ _ _ Hrun) as Hwf.
    pose proof (createNewPool_sound _ _ _ _ _ Hrun Hvalid Hfits) as [Hsound _].
    destruct (createNewPool_cases env r w) as [[_ E] | (_ & c & price & E & _)];
      rewrite E in Hrun; [discriminate |].
    injection Hrun as <- <-. cbn [pools]. apply insert_kept; assumption.
  - destruct (createNewPool_cases env r w) as [[_ E] | (_ & c & price & E & _)];
      rewrite E in Hrun; [| discriminate].
    injection Hrun as _ <-. exact Hw.
Qed.

Lemma addToExistingPool_keeps (env : Env) (poolData : PoolData) (r : RideRequest.t)
    (w w' : World) (o : Outcome JoinResult) :
  addToExistingPool env poolData r w = (o, w') ->
  RideRequest.valid r ->
  (forall id p, pools w !! id = Some p -> soundPool p /\ wellFormedPool id p) ->
  forall id p, pools w' !! id = Some p -> soundPool p /\ wellFormedPool id p.
Proof.
  intros Hrun Hvalid Hw.
  assert (poolsSound w') as Hsound'.
  { apply (addToExistingPool_preserves env poolData r w w' o Hrun Hvalid).
    intros id p Hp. apply (Hw id p Hp). }
  rewrite addToExistingPool_eq in Hrun.
  destruct (pools w !! RidePool._id (pool poolData)) as [found |] eqn:Efound;
    [| injection Hrun as _ <-; exact Hw].
  destruct (RidePool.canAccommodate found _ _); [| injection Hrun as _ <-; exact Hw].
  destruct (DistanceCalculator.bestRoute _) as [route |];
    [| injection Hrun as _ <-; exact Hw].
  injection Hrun as _ <-. cbn [pools] in *.
  destruct (Hw _ _ Efound) as [_ Hwf]. pose proof Hwf as (Hid & _). rewrite Hid.
  apply insert_kept; [exact Hw | | apply joinedFrom_wellFormed, Hwf].
  apply (Hsound' (RidePool._id (pool poolData))). rewrite Hid. apply lookup_insert_eq.
Qed.

Lemma cancelRide_keeps (env : Env) (userId poolId : ObjectId) (w w' : World)
    (o : Outcome CancelResult) :
  cancelRide env userId poolId w = (o, w') ->
  (forall id p, pools w !! id = Some p -> soundPool p /\ wellFormedPool id p) ->
  forall id p, pools w' !! id = Some p -> soundPool p /\ wellFormedPool id p.
Proof.
  intros Hrun Hw.
  assert (poolsSound w') as Hsound'.
  { apply (cancelRide_preserves env userId poolId w w' o Hrun).
    intros id p Hp. apply (Hw id p Hp). }
  destruct o as [result | e].
  - apply cancelRide_Return in Hrun
      as (found & _ & Hfound & _ & Hpool & Hpools & _).
    destruct (Hw _ _ Hfound) as [[_ Hcounts] Hwf]. pose proof Hwf as (Hid & _).
    rewrite Hpools, Hid. apply insert_kept; [exact Hw | |].
    + apply (Hsound' poolId). rewrite Hpools, Hid. apply lookup_insert_eq.
    + rewrite Hpool. apply cancelledFrom_wellFormed; assumption.
  - apply cancelRide_Throw in Hrun as [-> _]. exact Hw.
Qed.

Lemma processRideRequest_keeps (env : Env) (r : RideRequest.t) (w w' : World)
    (o : Outcome MatchResult) :
  processRideRequest env r w = (o, w') ->
  RideRequest.valid r -> fitsCab (config env) r ->
  (forall id p, pools w !! id = Some p -> soundPool p /\ wellFormedPool id p) ->
  forall id p, pools w' !! id = Some p -> soundPool p /\ wellFormedPool id p.
Proof.
  intros Hrun Hvalid Hfits Hw.
  apply processRideRequest_cases in Hrun
    as (nearby & _ & [(_ & Hnew) | (m & _ & [(holder & _ & _ & ->) | Hjoin])]).
  - destruct Hnew as [(e & Hc & _) | (c & Hc & _)];
      exact (createNewPool_keeps _ _ _ _ _ Hc Hvalid Hfits Hw).
  - exact Hw.
  - destruct Hjoin as (w1 & result & w2 & w3 & _ & Hp1 & _ & Ejoin & Hp3 & _ & _ & Hend).
    rewrite <- Hp1 in Hw.
    pose proof (addToExistingPool_keeps _ _ _ _ _ _ Ejoin Hvalid Hw) as Hw2.
    rewrite <- Hp3 in Hw2.
    destruct Hend as [(_ & _ & ->) | (_ & Hnew)]; [exact Hw2 |].
    destruct Hnew as [(e & Hc & _) | (c & Hc & _)];
      exact (createNewPool_keeps _ _ _ _ _ Hc Hvalid Hfits Hw2).
Qed.

Lemma reachable_kept (cfg : Config.t) (w : World) :
  Reachable cfg w ->
  forall id p, pools w !! id = Some p -> soundPool p /\ wellFormedPool id p.
Proof.
  induction 1 as [w Hempty
                 | env r w w' o _ IH Hcfg Hvalid Hfits Hrun
                 | env poolData r w w' o _ IH Hcfg Hvalid Hrun
                 | env r w w' o _ IH Hcfg Hvalid Hfits Hrun
                 | env userId poolId w w' o _ IH Hcfg Hrun].
  - intros id p Hp. rewrite Hempty, lookup_empty in Hp. discriminate.
  - subst cfg. exact (createNewPool_keeps env r w w' o Hrun Hvalid Hfits IH).
  - exact (addToExistingPool_keeps env poolData r w w' o Hrun Hvalid IH).
  - subst cfg. exact (processRideRequest_keeps env r w w' o Hrun Hvalid Hfits IH).
  - exact (cancelRide_keeps env userId poolId w w' o Hrun IH).
Qed.

(** X27.  In every collection the engine can bring about, each pool is
    stored under its own id, and its stops are numbered by their index and
    belong each to a passenger. *)
Theorem reachable_pools_well_formed (cfg : Config.t) (w : World) :
  Reachable cfg w ->
  storedUnderId w
  /\ forall id p,
       pools w !! id = Some p ->
       numbered (RidePool.stops (RidePool.route p))
       /\ owned (RidePool.stops (RidePool.route p)).
Proof.
  intros Hreach. split.
  - intros id p Hp. apply (reachable_kept cfg w Hreach id p Hp).
  - intros id p Hp.
    destruct (reachable_kept cfg w Hreach id p Hp) as (_ & _ & Hnum & Howned & _).
    split; assumption.
Qed.

(** X28.  In every collection the engine can bring about, the parties
    entered in a pool fit its vehicle: their passengers add up to no more
    than its seats and their luggage to no more than its luggage room.  The
    occupancy kept in the document is never below these sums. *)
Theorem reachable_entries_fit (cfg : Config.t) (w : World) :
  Reachable cfg w ->
  forall id p,
    pools w !! id = Some p ->
    (0 <= totalSeats (RidePool.passengers p)
     <= RidePool.seats (RidePool.currentOccupancy p))%Z
    /\ (RidePool.seats (RidePool.currentOccupancy p)
        <= RidePool.capacity (RidePool.vehicle p))%Z
    /\ (0 <= totalLuggage (RidePool.passengers p)
        <= RidePool.luggage (RidePool.currentOccupancy p))%Z
    /\ (RidePool.luggage (RidePool.currentOccupancy p)
        <= RidePool.luggageCapacity (RidePool.vehicle p))%Z.
Proof.
  intros Hreach id p Hp.
  destruct (reachable_kept cfg w Hreach id p Hp)
    as ([[Hseats Hluggage] Hcounts] & _ & _ & _ & Hs & Hl).
  apply totals_nonneg in Hcounts as [? ?]. lia.
Qed.

(** X29.  In a collection the engine has brought about, [cancelRide]
    succeeds exactly when the lock of the pool is free, the pool is in the
    collection and the user has an entry in it: the stops of such a pool
    all carry a passenger, so that reading the passenger of a stop never
    fails. *)
Theorem reachable_cancelRide_succeeds_iff (cfg : Config.t) (env : Env)
    (userId poolId : ObjectId) (w : World) :
  Reachable cfg w ->
  (exists result w', cancelRide env userId poolId w = (Return result, w'))
  <-> Redis.keys (redis w) !! lockKeyOf poolId = None
      /\ exists found,
           pools w !! poolId = Some found
           /\ entriesOf userId (RidePool.passengers found) <> [].
Proof.
  intros Hreach. split.
  - intros (result & w' & Hrun).
    apply cancelRide_Return in Hrun as (found & Hfree & Hfound & Hrem & _).
    split; [exact Hfree |]. exists found. split; [exact Hfound |].
    intros Habsent. apply removePassenger_false in Habsent. congruence.
  - intros (Hfree & found & Hfound & Hentry).
    apply (cancelRide_returns env userId poolId w found Hfree Hfound).
    + destruct (snd (RidePool.removePassenger found userId)) eqn:E; [reflexivity |].
      apply removePassenger_false in E. contradiction.
    + right. apply owned_forallb.
      apply (reachable_kept cfg w Hreach poolId found Hfound).
Qed.

End EngineProperties.

(** ** The further properties at sample data *)

Section FurtherWitnesses.
Import DistanceCalculator PricingEngine MatchingEngine Sample.


Lemma sample_reachable : Reachable (H := grid) Config.default worldA.
Proof.
  apply (reach_createNewPool (H := grid) Config.default env1 requestA emptyWorld worldA
           (Return poolA)).
  - apply reach_initial. reflexivity.
  - reflexivity.
  - repeat split; vm_compute; discriminate.
  - split; vm_compute; discriminate.
  - vm_compute. reflexivity.
Qed.

Lemma sample_storedUnderId : storedUnderId worldA.
Proof.
  intros id p Hp. cbn [pools worldA] in Hp.
  apply lookup_singleton_Some in Hp as [<- <-]. reflexivity.
Qed.

Lemma sample_occupancyMatches : occupancyMatches poolA.
Proof. split; reflexivity. Qed.


Lemma calculateDetour_route_shape_witness :
  let route :=
    default [] (bestRoute (fst (calculateDetour (H := grid) routeA airport harbour))) in
  bestRoute (fst (calculateDetour (H := grid) routeA airport harbour)) = Some route
  /\ numbered (snd (calculateDetour (H := grid) routeA airport harbour)).
Proof.
  cbv zeta.
  assert (H1 : bestRoute (fst (calculateDetour (H := grid) routeA airport harbour))
               = Some (default []
                         (bestRoute (fst (calculateDetour (H := grid) routeA airport
                                            harbour)))))
    by (vm_compute; reflexivity).
  split; [exact H1 |].
  exact (proj1 (proj2 (calculateDetour_route_shape (H := grid) routeA airport harbour _ H1))).
Defined.


Lemma getCurrentDemand_missing_count_witness :
  let get :=
    SampleDemand.getFrom {[ "demand:airport:2026-11-02T12:requests"%string := "12"%string ]} in
  SampleDemand.parseInt None = JSNumber.NaN
  /\ PricingEngineDemand.surgeFactor
       (PricingEngineDemand.getCurrentDemand SampleDemand.parseInt "2026-11-02T12"
          "airport" get) = Fin 2.5.
Proof.
  cbv zeta.
  assert (H1 : SampleDemand.parseInt None = JSNumber.NaN) by reflexivity.
  split; [exact H1 |].
  refine (proj2 (getCurrentDemand_missing_count SampleDemand.parseInt "2026-11-02T12"
                   "airport" _ (Some "12"%string) None H1 _ _ _));
    [vm_compute; reflexivity | vm_compute; reflexivity | right; reflexivity].
Defined.


Lemma removePassenger_addPassenger_witness :
  entriesOf (Passenger.userId (passengerOf requestB priceA)) (RidePool.passengers poolA) = []
  /\ RidePool.removePassenger (RidePool.addPassenger poolA (passengerOf requestB priceA))
       "user-b" = (poolA, true).
Proof.
  assert (H1 : entriesOf (Passenger.userId (passengerOf requestB priceA))
                 (RidePool.passengers poolA) = []) by reflexivity.
  split; [exact H1 |].
  exact (removePassenger_addPassenger poolA (passengerOf requestB priceA) H1).
Defined.

Lemma removePassenger_accounting_witness :
  occupancyMatches poolA
  /\ entriesOf "user-a" (RidePool.passengers (fst (RidePool.removePassenger poolA "user-a")))
     = [].
Proof.
  split; [exact sample_occupancyMatches |].
  exact (proj1 (removePassenger_accounting poolA "user-a" sample_occupancyMatches)).
Defined.

Lemma addPassenger_accounting_witness :
  occupancyMatches poolA
  /\ occupancyMatches (RidePool.addPassenger poolA (passengerOf requestB priceA)).
Proof.
  split; [exact sample_occupancyMatches |].
  exact (proj1 (addPassenger_accounting poolA (passengerOf requestB priceA)
                  sample_occupancyMatches)).
Defined.


Lemma processRideRequest_joins_best_match_witness :
  storedUnderId worldA
  /\ findBestMatch (H := grid) requestB [poolA] = Some SampleJoin.candidateB
  /\ exists result w',
       processRideRequest (H := grid) env1 requestB worldA = (Return result, w')
       /\ isNewPool result = false.
Proof.
  assert (H1 : findNearbyPools (H := grid) env1 (RideRequest.pickupLocation requestB)
                 (RideRequest.passengers requestB) (RideRequest.luggage requestB) worldA
               = (Return [poolA], worldA)) by (vm_compute; reflexivity).
  assert (H2 : findBestMatch (H := grid) requestB [poolA] = Some SampleJoin.candidateB)
    by (vm_compute; reflexivity).
  assert (H3 : Redis.keys (redis worldA)
               !! lockKeyOf (RidePool._id (pool SampleJoin.candidateB)) = None)
    by (vm_compute; reflexivity).
  split; [exact sample_storedUnderId |]. split; [exact H2 |].
  destruct (processRideRequest_joins_best_match (H := grid) env1 requestB worldA [poolA]
              SampleJoin.candidateB sample_storedUnderId H1 H2 H3)
    as (found & saved & result & w' & Hrun & _ & Hjoined & _).
  exists result, w'. split; [exact Hrun | exact Hjoined].
Defined.

Lemma processRideRequest_places_request_witness :
  storedUnderId worldA
  /\ processRideRequest (H := grid) env1 requestB worldA
     = (Return SampleJoin.resultB, SampleJoin.worldAB)
  /\ storedUnderId SampleJoin.worldAB.
Proof.
  assert (H1 : processRideRequest (H := grid) env1 requestB worldA
               = (Return SampleJoin.resultB, SampleJoin.worldAB))
    by (vm_compute; reflexivity).
  split; [exact sample_storedUnderId |]. split; [exact H1 |].
  destruct (processRideRequest_places_request (H := grid) env1 requestB worldA
              SampleJoin.worldAB SampleJoin.resultB sample_storedUnderId H1)
    as (p & _ & _ & _ & _ & _ & Hstored).
  exact Hstored.
Defined.

Lemma cancelRide_failures_witness :
  Redis.keys (redis worldA) !! lockKeyOf "pool-9" = None
  /\ fst (cancelRide (H := grid) env1 "user-a" "pool-9" worldA) = Throw "Pool not found".
Proof.
  assert (H1 : Redis.keys (redis worldA) !! lockKeyOf "pool-9" = None)
    by (vm_compute; reflexivity).
  assert (H2 : pools worldA !! "pool-9"%string = None) by (vm_compute; reflexivity).
  split; [exact H1 |].
  exact (proj1 (cancelRide_failures (H := grid) env1 "user-a" "pool-9" worldA H1) H2).
Defined.


Lemma addToExistingPool_writes_witness :
  addToExistingPool (H := grid) env1 SampleJoin.candidateB requestB worldA
  = (Return SampleJoin.joinResultB, SampleJoin.worldABJoined)
  /\ success SampleJoin.joinResultB = true
  /\ exists saved,
       pools SampleJoin.worldABJoined !! "pool-1"%string = Some saved
       /\ RidePool.__v saved = (RidePool.__v poolA + 1)%Z.
Proof.
  assert (H1 : addToExistingPool (H := grid) env1 SampleJoin.candidateB requestB worldA
               = (Return SampleJoin.joinResultB, SampleJoin.worldABJoined))
    by (vm_compute; reflexivity).
  assert (H2 : success SampleJoin.joinResultB = true) by reflexivity.
  split; [exact H1 |]. split; [exact H2 |].
  destruct (addToExistingPool_writes (H := grid) env1 SampleJoin.candidateB requestB worldA
              SampleJoin.worldABJoined SampleJoin.joinResultB H1 H2)
    as (found & route & saved & amount & Hfound & _ & Hpools & _ & _ & Hid & Hv & _).
  assert (Hlook : pools worldA !! RidePool._id (pool SampleJoin.candidateB) = Some poolA)
    by (vm_compute; reflexivity).
  rewrite Hlook in Hfound. injection Hfound as <-.
  exists saved. split; [rewrite Hpools; apply lookup_insert_eq | exact Hv].
Defined.

Lemma reachable_pools_well_formed_witness :
  Reachable (H := grid) Config.default worldA /\ storedUnderId worldA.
Proof.
  split; [exact sample_reachable |].
  exact (proj1 (reachable_pools_well_formed (H := grid) Config.default worldA
                  sample_reachable)).
Defined.

Lemma reachable_entries_fit_witness :
  Reachable (H := grid) Config.default worldA
  /\ pools worldA !! "pool-1"%string = Some poolA
  /\ (totalSeats (RidePool.passengers poolA) <= RidePool.seats (RidePool.currentOccupancy poolA)
      <= RidePool.capacity (RidePool.vehicle poolA))%Z.
Proof.
  assert (H2 : pools worldA !! "pool-1"%string = Some poolA) by (vm_compute; reflexivity).
  split; [exact sample_reachable |]. split; [exact H2 |].
  destruct (reachable_entries_fit (H := grid) Config.default worldA sample_reachable
              "pool-1"%string poolA H2) as ([_ Hs] & Hc & _).
  split; [exact Hs | exact Hc].
Defined.

Lemma reachable_cancelRide_succeeds_iff_witness :
  Reachable (H := grid) Config.default worldA
  /\ exists result w',
       cancelRide (H := grid) env1 "user-a" "pool-1" worldA = (Return result, w').
Proof.
  split; [exact sample_reachable |].
  apply (proj2 (reachable_cancelRide_succeeds_iff (H := grid) Config.default env1
                  "user-a" "pool-1" worldA sample_reachable)).
  split; [vm_compute; reflexivity |].
  exists poolA. split; [vm_compute; reflexivity | vm_compute; discriminate].
Defined.

End FurtherWitnesses.
